(** * SENPAI: the universe kernel (universe.c)

    A shallow embedding of [src/sources/universe.c]: loading the
    reference molecule, populating the box, thermal velocities, the
    driver loop with its frame-skip countdown, and the Monte-Carlo
    minimiser.

    Conventions.
    - [double] values are kept behind the interface [Double], instantiated
      at IEEE binary64 ([float], what the program runs on) and at the
      reals (what the formulas of the specification denote).
    - [uint64_t] / [size_t] values that are only used as loop bounds are
      [nat]; values that are stored or wrap are [Z] with the reduction
      modulo 2^64 (2^8 for the [uint8_t] counters) written out.
    - Arrays are lists; an access outside the list is undefined behaviour
      ([Undef]).  Memory obtained from [malloc] and not yet written is
      [None] in the bond tables, and arbitrary bytes supplied by the
      environment in the counter block that [universe_load] indexes with.
    - Everything the environment decides (the random generator, the
      allocator, the outcome of a write) is threaded through an explicit
      [world] state.
    - A function returning [universe_t *] returns [Ok] for the universe,
      [Null] for [NULL]. *)

From Stdlib Require Import ZArith Lia String Floats Reals.
From stdpp Require Import base list.

Local Open Scope Z_scope.
Set Warnings "-inexact-float".

(** ** Outcomes and the state monad over the world *)

Inductive outcome (A : Type) : Type :=
| Ok (a : A)      (* normal return *)
| Null            (* the function returned NULL (through retstr) *)
| Undef           (* undefined behaviour: access outside an array *)
| Timeout.        (* the loop is still running when the fuel is spent *)
Arguments Ok {A} a.
Arguments Null {A}.
Arguments Undef {A}.
Arguments Timeout {A}.

Definition obind {A B} (o : outcome A) (k : A -> outcome B) : outcome B :=
  match o with
  | Ok a => k a
  | Null => Null
  | Undef => Undef
  | Timeout => Timeout
  end.

(** [for (i = start; i < start + n; ++i) body], threading a state. *)
Fixpoint for_loop {S : Type} (n start : nat) (body : nat -> S -> outcome S)
    (s : S) : outcome S :=
  match n with
  | O => Ok s
  | Datatypes.S n' => obind (body start s) (for_loop n' (Datatypes.S start) body)
  end.

(** ** The arithmetic of [double] *)

Class Double (D : Type) : Type := {
  dzero : D;                 (* 0.0 *)
  dadd : D -> D -> D;
  dmul : D -> D -> D;
  ddiv : D -> D -> D;
  dsqrt : D -> D;
  dltb : D -> D -> bool;     (* x < y *)
  dleb : D -> D -> bool;     (* x <= y *)
  dofZ : Z -> D;             (* conversion of an int *)
  d3 : D;                    (* 3 *)
  d1em10 : D;                (* 1E-10 *)
  d1e10 : D;                 (* 1E10 *)
  d1em9 : D;                 (* 1E-9 *)
  d0p1 : D                   (* 0.1 *)
}.

#[export] Instance float_double : Double float := {
  dzero := 0%float;
  dadd := PrimFloat.add;
  dmul := PrimFloat.mul;
  ddiv := PrimFloat.div;
  dsqrt := PrimFloat.sqrt;
  dltb := PrimFloat.ltb;
  dleb := PrimFloat.leb;
  dofZ := fun z =>
    if (z <? 0)%Z then PrimFloat.opp (PrimFloat.of_uint63 (Uint63.of_Z (- z)))
    else PrimFloat.of_uint63 (Uint63.of_Z z);
  d3 := 3%float;
  d1em10 := 1e-10%float;
  d1e10 := 1e10%float;
  d1em9 := 1e-9%float;
  d0p1 := 0.1%float
}.

Definition Rltb (x y : R) : bool := if Rlt_dec x y then true else false.
Definition Rleb (x y : R) : bool := if Rle_dec x y then true else false.

#[export] Instance real_double : Double R := {
  dzero := 0%R;
  dadd := Rplus;
  dmul := Rmult;
  ddiv := Rdiv;
  dsqrt := R_sqrt.sqrt;
  dltb := Rltb;
  dleb := Rleb;
  dofZ := IZR;
  d3 := 3%R;
  d1em10 := (/ 10 ^ 10)%R;
  d1e10 := (10 ^ 10)%R;
  d1em9 := (/ 10 ^ 9)%R;
  d0p1 := (/ 10)%R
}.

(** Reduction of a [uint64_t] / [uint8_t] result. *)
Definition u64 (n : Z) : Z := n mod 2 ^ 64.
Definition u8 (n : Z) : Z := n mod 2 ^ 8.
Definition idx (n : Z) : nat := Z.to_nat n.

(** ** Data model (vec3d.h, atom.h, universe.h, args.h) *)

Section Model.
Context {D : Type} {DD : Double D}.

Record vec3d_t : Type := Vec3d { x : D; y : D; z : D }.

(** Modelled from the spec: vec3d.c is not available; [vec3d_add],
    [vec3d_mul] (scaling) and [vec3d_mag] are the component-wise sum, the
    product by a scalar and the Euclidean norm of section 4.A. *)
Definition vec3d_add (v1 v2 : vec3d_t) : vec3d_t :=
  Vec3d (dadd (x v1) (x v2)) (dadd (y v1) (y v2)) (dadd (z v1) (z v2)).

Definition vec3d_mul (v : vec3d_t) (lambda : D) : vec3d_t :=
  Vec3d (dmul (x v) lambda) (dmul (y v) lambda) (dmul (z v) lambda).

Definition vec3d_mag (v : vec3d_t) : D :=
  dsqrt (dadd (dadd (dmul (x v) (x v)) (dmul (y v) (y v))) (dmul (z v) (z v))).

Record atom_t : Type := Atom {
  element : Z;                         (* uint8_t *)
  charge : D;
  epsilon : D;
  sigma : D;
  bond_nb : nat;
  bond : list (option Z);              (* uint64_t *bond *)
  bond_strength : list (option D);     (* double *bond_strength *)
  pos : vec3d_t;
  vel : vec3d_t;
  acc : vec3d_t;
  frc : vec3d_t
}.

Definition set_element (a : atom_t) (e : Z) : atom_t :=
  Atom e (charge a) (epsilon a) (sigma a) (bond_nb a) (bond a)
       (bond_strength a) (pos a) (vel a) (acc a) (frc a).
Definition set_charge (a : atom_t) (q : D) : atom_t :=
  Atom (element a) q (epsilon a) (sigma a) (bond_nb a) (bond a)
       (bond_strength a) (pos a) (vel a) (acc a) (frc a).
Definition set_epsilon (a : atom_t) (e : D) : atom_t :=
  Atom (element a) (charge a) e (sigma a) (bond_nb a) (bond a)
       (bond_strength a) (pos a) (vel a) (acc a) (frc a).
Definition set_sigma (a : atom_t) (s : D) : atom_t :=
  Atom (element a) (charge a) (epsilon a) s (bond_nb a) (bond a)
       (bond_strength a) (pos a) (vel a) (acc a) (frc a).
Definition set_bond_nb (a : atom_t) (n : nat) : atom_t :=
  Atom (element a) (charge a) (epsilon a) (sigma a) n (bond a)
       (bond_strength a) (pos a) (vel a) (acc a) (frc a).
Definition set_bond (a : atom_t) (b : list (option Z)) : atom_t :=
  Atom (element a) (charge a) (epsilon a) (sigma a) (bond_nb a) b
       (bond_strength a) (pos a) (vel a) (acc a) (frc a).
Definition set_bond_strength (a : atom_t) (b : list (option D)) : atom_t :=
  Atom (element a) (charge a) (epsilon a) (sigma a) (bond_nb a) (bond a)
       b (pos a) (vel a) (acc a) (frc a).
Definition set_pos (a : atom_t) (v : vec3d_t) : atom_t :=
  Atom (element a) (charge a) (epsilon a) (sigma a) (bond_nb a) (bond a)
       (bond_strength a) v (vel a) (acc a) (frc a).
Definition set_vel (a : atom_t) (v : vec3d_t) : atom_t :=
  Atom (element a) (charge a) (epsilon a) (sigma a) (bond_nb a) (bond a)
       (bond_strength a) (pos a) v (acc a) (frc a).
Definition set_acc (a : atom_t) (v : vec3d_t) : atom_t :=
  Atom (element a) (charge a) (epsilon a) (sigma a) (bond_nb a) (bond a)
       (bond_strength a) (pos a) (vel a) v (frc a).
Definition set_frc (a : atom_t) (v : vec3d_t) : atom_t :=
  Atom (element a) (charge a) (epsilon a) (sigma a) (bond_nb a) (bond a)
       (bond_strength a) (pos a) (vel a) (acc a) v.

(** [v.x = c] *)
Definition set_x (v : vec3d_t) (c : D) : vec3d_t := Vec3d c (y v) (z v).

(** Modelled from the spec: atom.c is not available; [atom_init] leaves an
    atom with zero kinematics, no bond and no bond storage. *)
Definition vec3d_zero : vec3d_t := Vec3d dzero dzero dzero.
Definition atom_init : atom_t :=
  Atom 0 dzero dzero dzero 0 [] [] vec3d_zero vec3d_zero vec3d_zero vec3d_zero.

(** One [fprintf] of [universe_printstate]: the two-line frame header, or
    the line of one atom. *)
Inductive out_line : Type :=
| Header (atom_count : nat) (iteration : Z)
| AtomLine (symbol : string) (px py pz : D).

Record universe_t : Type := Universe {
  meta_name : string;
  meta_author : string;
  meta_comment : string;
  ref_atom_nb : nat;
  ref_bond_nb : nat;
  copy_nb : nat;
  atom_nb : nat;
  size : D;
  time : D;
  temperature : D;
  pressure : D;
  iterations : Z;                      (* uint64_t *)
  ref_atom : list atom_t;
  atom : list atom_t;
  output_file : list out_line          (* what has reached the .xyz file *)
}.

Definition set_atom (u : universe_t) (l : list atom_t) : universe_t :=
  Universe (meta_name u) (meta_author u) (meta_comment u) (ref_atom_nb u)
    (ref_bond_nb u) (copy_nb u) (atom_nb u) (size u) (time u) (temperature u)
    (pressure u) (iterations u) (ref_atom u) l (output_file u).
Definition set_ref_atom (u : universe_t) (l : list atom_t) : universe_t :=
  Universe (meta_name u) (meta_author u) (meta_comment u) (ref_atom_nb u)
    (ref_bond_nb u) (copy_nb u) (atom_nb u) (size u) (time u) (temperature u)
    (pressure u) (iterations u) l (atom u) (output_file u).
Definition set_output_file (u : universe_t) (o : list out_line) : universe_t :=
  Universe (meta_name u) (meta_author u) (meta_comment u) (ref_atom_nb u)
    (ref_bond_nb u) (copy_nb u) (atom_nb u) (size u) (time u) (temperature u)
    (pressure u) (iterations u) (ref_atom u) (atom u) o.
Definition set_clock (u : universe_t) (t : D) (it : Z) : universe_t :=
  Universe (meta_name u) (meta_author u) (meta_comment u) (ref_atom_nb u)
    (ref_bond_nb u) (copy_nb u) (atom_nb u) (size u) t (temperature u)
    (pressure u) it (ref_atom u) (atom u) (output_file u).
Definition set_header (u : universe_t) (name author comment : string)
    (r b : nat) : universe_t :=
  Universe name author comment r b (copy_nb u) (atom_nb u) (size u) (time u)
    (temperature u) (pressure u) (iterations u) (ref_atom u) (atom u)
    (output_file u).

(** The fields of [args_t] that universe.c reads. *)
Record args_t : Type := Args {
  max_time : D;
  timestep : D;
  frameskip : Z;
  numerical : Z
}.

(** The parsed input file: what the [strtok]/[sscanf] calls of
    [universe_load] deliver, line by line. *)
Record atom_line : Type := AtomRec {
  al_x : D; al_y : D; al_z : D;
  al_element : Z;
  al_charge : D; al_epsilon : D; al_sigma : D
}.
Record bond_line : Type := BondRec { bl_a1 : Z; bl_a2 : Z; bl_strength : D }.
Record input_t : Type := Input {
  in_name : string;
  in_author : string;
  in_comment : string;
  in_atom_nb : nat;
  in_bond_nb : nat;
  in_atoms : list atom_line;
  in_bonds : list bond_line
}.

(** ** Collaborators

    What universe.c calls and does not define: libc ([rand], [cos],
    [malloc], [fprintf]), vec3d.c ([vec3d_marsaglia]), model.c, atom.c,
    potential.c, and two constants.  The atom and potential routines are
    typed after section 4 of the specification: an [atom_update_*] routine
    rewrites atom [i], [atom_enforce_pbc] rewrites the position of atom
    [i], [potential_total] only reads; [None] is their NULL. *)
Record externals : Type := Externals {
  world : Type;
  rand : world -> Z * world;
  cos : D -> D;
  vec3d_marsaglia : world -> vec3d_t * world;
  malloc : world -> bool * world;        (* does the next allocation succeed *)
  heap_byte : world -> nat -> Z;         (* byte [j] of a block fresh from malloc *)
  fprintf : world -> bool * world;       (* does the next write succeed *)
  model_mass : Z -> D;
  model_symbol : Z -> string;
  C_BOLTZMANN : D;
  MODE_NUMERICAL : Z;
  atom_update_pos : universe_t -> args_t -> nat -> option atom_t;
  atom_update_frc_numerical : universe_t -> nat -> option atom_t;
  atom_update_frc_analytical : universe_t -> nat -> option atom_t;
  atom_update_acc : universe_t -> nat -> option atom_t;
  atom_update_vel : universe_t -> args_t -> nat -> option atom_t;
  atom_enforce_pbc : universe_t -> nat -> option vec3d_t;
  potential_total : universe_t -> nat -> option D
}.

End Model.

Arguments vec3d_t D : clear implicits.
Arguments atom_t D : clear implicits.
Arguments universe_t D : clear implicits.
Arguments args_t D : clear implicits.
Arguments out_line D : clear implicits.
Arguments atom_line D : clear implicits.
Arguments bond_line D : clear implicits.
Arguments input_t D : clear implicits.
Arguments externals D : clear implicits.

(** ** The kernel (universe.c) *)

Section Kernel.
Context {D : Type} {DD : Double D} (X : externals D).

Local Abbreviation W := (world X).

(** [if ((p = malloc (...)) == NULL) return (retstr(NULL, ...))] *)
Definition try_malloc (w : W) : outcome W :=
  let '(ok, w') := malloc X w in if ok then Ok w' else Null.

(** *** universe_load *)

(** The [sscanf] of one atom line, then the scaling from Angstroms to
    metres. *)
Definition load_atom_line (l : atom_line D) (a : atom_t D) : atom_t D :=
  let a := set_pos a (Vec3d (al_x l) (al_y l) (al_z l)) in
  let a := set_element a (al_element l) in
  let a := set_charge a (al_charge l) in
  let a := set_epsilon a (al_epsilon l) in
  let a := set_sigma a (al_sigma l) in
  set_pos a (vec3d_mul (pos a) d1em10).

Definition load_atom_block (inp : input_t D) (i : nat) (ref : list (atom_t D))
    : outcome (list (atom_t D)) :=
  match in_atoms inp !! i, ref !! i with
  | Some l, Some a => Ok (<[i := load_atom_line l a]> ref)
  | _, _ => Undef
  end.

(** [n] bytes as [malloc] hands them out: whatever the heap holds. *)
Definition fresh_block (w : W) (n : nat) : list Z :=
  map (fun j => u8 (heap_byte X w j)) (seq 0 n).

(** [memset(block, 0, n)] *)
Definition memset_zero (block : list Z) (n : nat) : outcome (list Z) :=
  if decide (n <= length block)%nat
  then Ok (replicate n 0 ++ drop n block)
  else Undef.

(** [bond_index = malloc(sizeof(uint64_t) * ref_atom_nb)] followed by
    [memset(bond_index, 0, ref_bond_nb)]; [bond_index] is a [uint8_t *],
    so entry [j] of the counter array is byte [j] of the block. *)
Definition bond_index_init (w : W) (r b : nat) : outcome (list Z) :=
  memset_zero (fresh_block w (8 * r)) b.

(** [++(universe->ref_atom[a - 1].bond_nb)] *)
Definition bump_bond_nb (ref : list (atom_t D)) (a : Z)
    : outcome (list (atom_t D)) :=
  let k := idx (u64 (a - 1)) in
  match ref !! k with
  | Some r => Ok (<[k := set_bond_nb r (S (bond_nb r))]> ref)
  | None => Undef
  end.

Definition load_count_bonds (inp : input_t D) (i : nat) (ref : list (atom_t D))
    : outcome (list (atom_t D)) :=
  match in_bonds inp !! i with
  | Some l => obind (bump_bond_nb ref (bl_a1 l))
                    (fun ref => bump_bond_nb ref (bl_a2 l))
  | None => Undef
  end.

Definition load_alloc_bonds (i : nat) (st : list (atom_t D) * W)
    : outcome (list (atom_t D) * W) :=
  let '(ref, w) := st in
  match ref !! i with
  | None => Undef
  | Some r =>
    obind (try_malloc w) (fun w =>
    let r := set_bond r (replicate (bond_nb r) None) in
    obind (try_malloc w) (fun w =>
    let r := set_bond_strength r (replicate (bond_nb r) None) in
    Ok (<[i := r]> ref, w)))
  end.

(** [ref_atom[k].bond[slot] = partner;
     ref_atom[k].bond_strength[slot] = strength;] *)
Definition store_bond (ref : list (atom_t D)) (k : nat) (slot partner : Z)
    (strength : D) : outcome (list (atom_t D)) :=
  match ref !! k with
  | None => Undef
  | Some r =>
    let s := idx slot in
    if decide (s < length (bond r))%nat then
      let r := set_bond r (<[s := Some partner]> (bond r)) in
      if decide (s < length (bond_strength r))%nat then
        Ok (<[k := set_bond_strength r
                     (<[s := Some strength]> (bond_strength r))]> ref)
      else Undef
    else Undef
  end.

(** One turn of the loop that loads the bond information.  [a1[i]],
    [a2[i]] and [bond_strength[i]] hold what the counting loop read from
    bond line [i]. *)
Definition load_fill_bonds (inp : input_t D) (i : nat)
    (st : list (atom_t D) * list Z) : outcome (list (atom_t D) * list Z) :=
  let '(ref, bond_index) := st in
  match in_bonds inp !! i with
  | None => Undef
  | Some l =>
    let first := u64 (bl_a1 l - 1) in
    let second := u64 (bl_a2 l - 1) in
    match bond_index !! idx first with
    | None => Undef
    | Some c1 =>
      obind (store_bond ref (idx first) c1 second (bl_strength l)) (fun ref =>
      match bond_index !! idx second with
      | None => Undef
      | Some c2 =>
        obind (store_bond ref (idx second) c2 first (bl_strength l)) (fun ref =>
        let bond_index := <[idx first := u8 (c1 + 1)]> bond_index in
        match bond_index !! idx second with
        | None => Undef
        | Some c => Ok (ref, <[idx second := u8 (c + 1)]> bond_index)
        end)
      end)
    end
  end.

Definition universe_load (u : universe_t D) (inp : input_t D) (w : W)
    : outcome (universe_t D * W) :=
  let r := in_atom_nb inp in
  let b := in_bond_nb inp in
  (* the three metadata lines, each copied into fresh storage *)
  obind (try_malloc w) (fun w =>
  obind (try_malloc w) (fun w =>
  obind (try_malloc w) (fun w =>
  (* the count line *)
  let u := set_header u (in_name inp) (in_author inp) (in_comment inp) r b in
  (* the reference atoms, initialised, then read *)
  obind (try_malloc w) (fun w =>
  obind (for_loop r 0 (load_atom_block inp) (replicate r atom_init)) (fun ref =>
  (* a1, a2, bond_strength, bond_index *)
  obind (try_malloc w) (fun w =>
  obind (try_malloc w) (fun w =>
  obind (try_malloc w) (fun w =>
  obind (try_malloc w) (fun w' =>
  obind (bond_index_init w r b) (fun bond_index =>
  obind (for_loop b 0 (load_count_bonds inp) ref) (fun ref =>
  obind (for_loop r 0 load_alloc_bonds (ref, w')) (fun '(ref, w) =>
  obind (for_loop b 0 (load_fill_bonds inp) (ref, bond_index)) (fun '(ref, _) =>
  Ok (set_ref_atom u ref, w)))))))))))))).

(** *** universe_populate *)

(** [duplicate->bond[iii] = reference->bond[iii] + (i*ref_atom_nb);
     duplicate->bond_strength[iii] = reference->bond_strength[iii];] *)
Definition populate_bond (reference : atom_t D) (offset : Z) (iii : nat)
    (duplicate : atom_t D) : outcome (atom_t D) :=
  match bond reference !! iii, bond_strength reference !! iii with
  | Some b, Some k =>
    let duplicate :=
      set_bond duplicate
        (<[iii := (fun p => u64 (p + offset)) <$> b]> (bond duplicate)) in
    Ok (set_bond_strength duplicate (<[iii := k]> (bond_strength duplicate)))
  | _, _ => Undef
  end.

Definition populate_atom (i : nat) (pos_offset : vec3d_t D) (ii : nat)
    (st : universe_t D * W) : outcome (universe_t D * W) :=
  let '(u, w) := st in
  let k := idx (u64 (Z.of_nat i * Z.of_nat (ref_atom_nb u) + Z.of_nat ii)) in
  match ref_atom u !! ii, atom u !! k with
  | Some reference, Some duplicate =>
    let duplicate := set_element duplicate (element reference) in
    let duplicate := set_charge duplicate (charge reference) in
    let duplicate := set_epsilon duplicate (epsilon reference) in
    let duplicate := set_sigma duplicate (sigma reference) in
    let duplicate := set_bond_nb duplicate (bond_nb reference) in
    let duplicate := set_vel duplicate (set_x (vel duplicate) (x (vel reference))) in
    let duplicate := set_vel duplicate (set_x (vel duplicate) (y (vel reference))) in
    let duplicate := set_vel duplicate (set_x (vel duplicate) (z (vel reference))) in
    let duplicate := set_acc duplicate (set_x (acc duplicate) (x (acc reference))) in
    let duplicate := set_acc duplicate (set_x (acc duplicate) (y (acc reference))) in
    let duplicate := set_acc duplicate (set_x (acc duplicate) (z (acc reference))) in
    let duplicate := set_frc duplicate (set_x (frc duplicate) (x (frc reference))) in
    let duplicate := set_frc duplicate (set_x (frc duplicate) (y (frc reference))) in
    let duplicate := set_frc duplicate (set_x (frc duplicate) (z (frc reference))) in
    let duplicate := set_pos duplicate (vec3d_add (pos reference) pos_offset) in
    obind (try_malloc w) (fun w =>
    let duplicate :=
      set_bond duplicate (replicate (bond_nb reference) None) in
    obind (try_malloc w) (fun w =>
    let duplicate :=
      set_bond_strength duplicate (replicate (bond_nb reference) None) in
    obind (for_loop (bond_nb duplicate) 0
             (populate_bond reference
                (u64 (Z.of_nat i * Z.of_nat (ref_atom_nb u))))
             duplicate) (fun duplicate =>
    Ok (set_atom u (<[k := duplicate]> (atom u)), w))))
  | _, _ => Undef
  end.

Definition populate_copy (i : nat) (st : universe_t D * W)
    : outcome (universe_t D * W) :=
  let '(u, w) := st in
  let '(pos_offset, w) := vec3d_marsaglia X w in
  let '(r, w) := rand X w in
  let pos_offset := vec3d_mul pos_offset (dmul (cos X (dofZ r)) (size u)) in
  for_loop (ref_atom_nb u) 0 (populate_atom i pos_offset) (u, w).

Definition universe_populate (u : universe_t D) (w : W)
    : outcome (universe_t D * W) :=
  for_loop (copy_nb u) 0 populate_copy (u, w).

(** *** universe_setvelocity *)

Definition mass_mol_step (u : universe_t D) (i : nat) (mass_mol : D)
    : outcome D :=
  match ref_atom u !! i with
  | Some r => Ok (dadd mass_mol (model_mass X (element r)))
  | None => Undef
  end.

(** The molecular mass: the sum of [model_mass] over the reference atoms. *)
Definition mass_mol_of (u : universe_t D) : outcome D :=
  for_loop (ref_atom_nb u) 0 (mass_mol_step u) dzero.

(** [sqrt(3*C_BOLTZMANN*(universe->temperature)/mass_mol)] *)
Definition thermal_velocity (u : universe_t D) (mass_mol : D) : D :=
  dsqrt (ddiv (dmul (dmul d3 (C_BOLTZMANN X)) (temperature u)) mass_mol).

Definition setvelocity_atom (velocity : D) (i : nat) (st : universe_t D * W)
    : outcome (universe_t D * W) :=
  let '(u, w) := st in
  let '(vec, w) := vec3d_marsaglia X w in
  match atom u !! i with
  | Some a =>
    Ok (set_atom u (<[i := set_vel a (vec3d_mul vec velocity)]> (atom u)), w)
  | None => Undef
  end.

Definition universe_setvelocity (u : universe_t D) (w : W)
    : outcome (universe_t D * W) :=
  obind (mass_mol_of u) (fun mass_mol =>
  let velocity := thermal_velocity u mass_mol in
  for_loop (atom_nb u) 0 (setvelocity_atom velocity) (u, w)).

(** *** universe_printstate *)

(** One [fprintf]: the line reaches the file when the write succeeds.  The
    value [fprintf] returns is dropped by the caller. *)
Definition emit (line : out_line D) (st : universe_t D * W)
    : universe_t D * W :=
  let '(u, w) := st in
  let '(ok, w) := fprintf X w in
  (if ok then set_output_file u (output_file u ++ [line]) else u, w).

Definition atom_out_line (a : atom_t D) : out_line D :=
  AtomLine (model_symbol X (element a))
           (dmul (x (pos a)) d1e10)
           (dmul (y (pos a)) d1e10)
           (dmul (z (pos a)) d1e10).

Definition printstate_atom (i : nat) (st : universe_t D * W)
    : outcome (universe_t D * W) :=
  match atom (fst st) !! i with
  | Some a => Ok (emit (atom_out_line a) st)
  | None => Undef
  end.

Definition universe_printstate (u : universe_t D) (w : W)
    : outcome (universe_t D * W) :=
  for_loop (atom_nb u) 0 printstate_atom
           (emit (Header (atom_nb u) (iterations u)) (u, w)).

(** *** universe_iterate *)

(** One call [if (f(universe, i) == NULL) return (retstr(NULL, ...))] of a
    routine that rewrites atom [i]. *)
Definition atom_pass (f : universe_t D -> nat -> option (atom_t D)) (i : nat)
    (u : universe_t D) : outcome (universe_t D) :=
  match f u i with
  | Some a => Ok (set_atom u (<[i := a]> (atom u)))
  | None => Null
  end.

(** [if (atom_enforce_pbc(universe, i) == NULL) return ...] *)
Definition enforce_pbc_pass (i : nat) (u : universe_t D)
    : outcome (universe_t D) :=
  match atom u !! i with
  | None => Undef
  | Some a =>
    match atom_enforce_pbc X u i with
    | Some p => Ok (set_atom u (<[i := set_pos a p]> (atom u)))
    | None => Null
    end
  end.

Definition universe_iterate (u : universe_t D) (args : args_t D)
    : outcome (universe_t D) :=
  let n := atom_nb u in
  obind (for_loop n 0 (atom_pass (fun u i => atom_update_pos X u args i)) u)
  (fun u =>
  obind (for_loop n 0 enforce_pbc_pass u) (fun u =>
  obind (if numerical args =? MODE_NUMERICAL X
         then for_loop n 0 (atom_pass (atom_update_frc_numerical X)) u
         else for_loop n 0 (atom_pass (atom_update_frc_analytical X)) u)
  (fun u =>
  obind (for_loop n 0 (atom_pass (atom_update_acc X)) u) (fun u =>
  for_loop n 0 (atom_pass (fun u i => atom_update_vel X u args i)) u)))).

(** *** universe_simulate *)

(** The frame-skip dispatch at the head of the loop body. *)
Definition simulate_frame (args : args_t D) (frame_nb : Z) (u : universe_t D)
    (w : W) : outcome (universe_t D * W * Z) :=
  if frame_nb =? 0
  then obind (universe_printstate u w)
             (fun st => Ok (st, u64 (frameskip args)))
  else Ok ((u, w), u64 (frame_nb - 1)).

(** [universe->time += args->timestep; ++(universe->iterations);] *)
Definition tick (args : args_t D) (u : universe_t D) : universe_t D :=
  set_clock u (dadd (time u) (timestep args)) (u64 (iterations u + 1)).

(** The [while] loop, unrolled at most [fuel] times. *)
Fixpoint simulate_loop (fuel : nat) (args : args_t D) (frame_nb : Z)
    (u : universe_t D) (w : W) : outcome (universe_t D * W) :=
  match fuel with
  | O => Timeout
  | S fuel =>
    if dltb (time u) (max_time args) then
      obind (simulate_frame args frame_nb u w) (fun '(u, w, frame_nb) =>
      obind (universe_iterate u args) (fun u =>
      simulate_loop fuel args frame_nb (tick args u) w))
    else Ok (u, w)
  end.

Definition universe_simulate (fuel : nat) (u : universe_t D) (args : args_t D)
    (w : W) : outcome (universe_t D * W) :=
  simulate_loop fuel args 0 u w.

(** *** universe_energy_potential *)

Definition energy_potential_step (u : universe_t D) (i : nat) (energy : D)
    : outcome D :=
  match potential_total X u i with
  | Some potential => Ok (dadd energy potential)
  | None => Null
  end.

Definition universe_energy_potential (u : universe_t D) : outcome D :=
  for_loop (atom_nb u) 0 (energy_potential_step u) dzero.

(** *** universe_montecarlo *)

(** [universe->atom[part_id].pos = p] *)
Definition set_atom_pos (u : universe_t D) (part_id : nat) (p : vec3d_t D)
    : universe_t D :=
  match atom u !! part_id with
  | Some a => set_atom u (<[part_id := set_pos a p]> (atom u))
  | None => u
  end.

(** The body of [while (1)] up to the comparison: the refinement of the
    step, the random displacement, the boundary conditions and the new
    potential. *)
Definition montecarlo_refine (tries : Z) (pos_offset_mag : D) : Z * D :=
  if tries <? 50 then (u64 (tries + 1), pos_offset_mag)
  else (0, dmul pos_offset_mag d0p1).

Definition montecarlo_propose (part_id : nat) (pos_offset_mag : D)
    (u : universe_t D) (w : W) : outcome (universe_t D * D * W) :=
  match atom u !! part_id with
  | None => Undef
  | Some a =>
    let '(pos_offset, w) := vec3d_marsaglia X w in
    let pos_offset := vec3d_mul pos_offset pos_offset_mag in
    let u := set_atom_pos u part_id (vec3d_add (pos a) pos_offset) in
    obind (enforce_pbc_pass part_id u) (fun u =>
    obind (universe_energy_potential u) (fun potential_new =>
    Ok (u, potential_new, w)))
  end.

(** The [while (1)] loop of one atom, unrolled at most [fuel] times. *)
Fixpoint montecarlo_try (fuel : nat) (part_id : nat) (potential : D)
    (tries : Z) (pos_offset_mag : D) (u : universe_t D) (w : W)
    : outcome (universe_t D * W) :=
  match fuel with
  | O => Timeout
  | S fuel =>
    let '(tries, pos_offset_mag) := montecarlo_refine tries pos_offset_mag in
    match atom u !! part_id with
    | None => Undef
    | Some a =>
      let pos_backup := pos a in
      obind (montecarlo_propose part_id pos_offset_mag u w)
      (fun '(u', potential_new, w) =>
      if dltb potential_new potential then Ok (u', w)
      else montecarlo_try fuel part_id potential tries pos_offset_mag
             (set_atom_pos u' part_id pos_backup) w)
    end
  end.

Definition montecarlo_atom (fuel : nat) (part_id : nat)
    (st : universe_t D * W) : outcome (universe_t D * W) :=
  let '(u, w) := st in
  obind (universe_energy_potential u) (fun potential =>
  montecarlo_try fuel part_id potential 0 d1em9 u w).

Definition universe_montecarlo (fuel : nat) (u : universe_t D) (w : W)
    : outcome (universe_t D * W) :=
  for_loop (atom_nb u) 0 (montecarlo_atom fuel) (u, w).

End Kernel.


(** ** A concrete environment on binary64

    A deterministic stand-in for the collaborators, used to run the kernel:
    the world is a call counter, the sampler alternates between +x and -x,
    allocations succeed, the heap content and the outcome of each write are
    given, the atom routines leave the atom as it is, and the potential of
    the system is supplied. *)
Module Demo.

Definition plus_x : vec3d_t float := Vec3d 1%float 0%float 0%float.
Definition minus_x : vec3d_t float := Vec3d (-1)%float 0%float 0%float.

(** Atom [i] as it stands. *)
Definition still (u : universe_t float) (i : nat) : atom_t float :=
  default atom_init (atom u !! i).

Definition env (heap : nat -> Z) (write_ok : nat -> bool)
    (potential : universe_t float -> nat -> option float) : externals float :=
  {| world := nat;
     rand := fun w => (Z.of_nat w, S w);
     cos := fun _ => 1%float;
     vec3d_marsaglia := fun w => (if Nat.even w then plus_x else minus_x, S w);
     malloc := fun w => (true, S w);
     heap_byte := fun _ j => heap j;
     fprintf := fun w => (write_ok w, S w);
     model_mass := fun e => if e =? 1 then 1.67e-27%float else 0%float;
     model_symbol := fun e => if e =? 1 then "H"%string else "?"%string;
     C_BOLTZMANN := 1.38e-23%float;
     MODE_NUMERICAL := 1;
     atom_update_pos := fun u _ i => Some (still u i);
     atom_update_frc_numerical := fun u i => Some (still u i);
     atom_update_frc_analytical := fun u i => Some (still u i);
     atom_update_acc := fun u i => Some (still u i);
     atom_update_vel := fun u _ i => Some (still u i);
     atom_enforce_pbc := fun u i => Some (pos (still u i));
     potential_total := potential |}.

(** A potential that falls along -x: the abscissa of the atom. *)
Definition slope (u : universe_t float) (i : nat) : option float :=
  (fun a => x (pos a)) <$> atom u !! i.

(** A potential that no move can lower. *)
Definition flat (u : universe_t float) (i : nat) : option float :=
  Some 0%float.

Definition hydrogen : atom_t float := set_element atom_init 1.

(** A universe of [n] hydrogen atoms at the origin, nothing loaded. *)
Definition gas (n : nat) : universe_t float :=
  Universe ""%string ""%string ""%string 0 0 1 n 1e-9%float 0%float
           300%float 1e5%float 0 [] (replicate n hydrogen) [].

Definition zero_heap : nat -> Z := fun _ => 0.
Definition all_writes : nat -> bool := fun _ => true.

Definition slope_env : externals float := env zero_heap all_writes slope.
Definition flat_env : externals float := env zero_heap all_writes flat.

(** The second write of the run fails (the line of the first atom of the
    first frame); every other write succeeds. *)
Definition second_write_fails : nat -> bool := fun w => negb (w =? 1)%nat.
Definition lossy_env : externals float := env zero_heap second_write_fails slope.

(** A bonded dimer as reference molecule (stiffness 500, the first atom
    drifting with velocity (1, 2, 3)), and room for two copies whose atoms
    are fresh from [atom_init]. *)
Definition dimer_box : universe_t float :=
  Universe ""%string ""%string ""%string 2 1 2 4 1e-9%float 0%float
    300%float 1e5%float 0
    [ Atom 1 0%float 0%float 0%float 1 [Some 1] [Some 500%float]
           (Vec3d 0%float 0%float 0%float) (Vec3d 1%float 2%float 3%float)
           vec3d_zero vec3d_zero;
      Atom 1 0%float 0%float 0%float 1 [Some 0] [Some 500%float]
           (Vec3d 7.4e-11%float 0%float 0%float) vec3d_zero
           vec3d_zero vec3d_zero ]
    (replicate 4 atom_init) [].

(** Fresh memory that holds 1 in every byte. *)
Definition dirty_heap : nat -> Z := fun _ => 1.
Definition dirty_env : externals float := env dirty_heap all_writes slope.

(** The universe as [universe_init] has it when it calls [universe_load]. *)
Definition blank : universe_t float :=
  Universe ""%string ""%string ""%string 0 0 1 0 0%float 0%float
           300%float 1e5%float 0 [] [] [].

(** The hydrogen dimer of the end-to-end scenarios: two atoms 0.74
    Angstroms apart, one bond of stiffness 500 between atoms 1 and 2. *)
Definition dimer : input_t float :=
  Input "H2"%string "nobody"%string "dimer"%string 2 1
    [ AtomRec 0%float 0%float 0%float 1 0%float 0%float 0%float;
      AtomRec 0.74%float 0%float 0%float 1 0%float 0%float 0%float ]
    [ BondRec 1 2 500%float ].



(** max_time = 20, timestep = 1, frameskip = 4, analytical forces. *)
Definition twenty_steps : args_t float := Args 20%float 1%float 4 0.

(** max_time = 2, timestep = 1, every step printed. *)
Definition two_steps : args_t float := Args 2%float 1%float 0 0.

End Demo.

(** ** Reading the trajectory *)

Section Trajectory.
Context {D : Type} {DD : Double D} (X : externals D).

(** The frame of a universe: its header and one line per live atom. *)
Definition frame_of (u : universe_t D) : list (out_line D) :=
  Header (atom_nb u) (iterations u)
    :: map (atom_out_line X) (take (atom_nb u) (atom u)).

Definition header_index (l : out_line D) : option Z :=
  match l with
  | Header _ i => Some i
  | AtomLine _ _ _ _ => None
  end.

(** The iteration indices recorded in a trajectory, in file order. *)
Definition frame_indices (out : list (out_line D)) : list Z :=
  omap header_index out.

Definition is_atom_line (l : out_line D) : bool :=
  match l with
  | Header _ _ => false
  | AtomLine _ _ _ _ => true
  end.

(** A trajectory made of whole frames only: every header announces [n]
    atoms and is followed by exactly [n] atom lines. *)
Fixpoint whole_frames (fuel : nat) (out : list (out_line D)) : bool :=
  match fuel with
  | O => false
  | S fuel =>
    match out with
    | [] => true
    | Header n _ :: rest =>
      forallb is_atom_line (take n rest)
      && (length (take n rest) =? n)%nat
      && whole_frames fuel (drop n rest)
    | AtomLine _ _ _ _ :: _ => false
    end
  end.

(** The live atoms are there: [atom] holds [atom_nb] atoms at least. *)
Definition atoms_allocated (u : universe_t D) : Prop :=
  (atom_nb u <= length (atom u))%nat.

(** The invariant of the passes of an integration step over universe
    [u]: the same atom count, the same storage. *)
Definition same_extent (u t : universe_t D) : Prop :=
  atom_nb t = atom_nb u /\ length (atom t) = length (atom u).

Definition well_framed (out : list (out_line D)) : bool :=
  whole_frames (S (length out)) out.

(** The atom routines of atom.c never return NULL. *)
Definition atom_routines_succeed : Prop :=
  (forall u a i, atom_update_pos X u a i <> None) /\
  (forall u i, atom_update_frc_numerical X u i <> None) /\
  (forall u i, atom_update_frc_analytical X u i <> None) /\
  (forall u i, atom_update_acc X u i <> None) /\
  (forall u a i, atom_update_vel X u a i <> None) /\
  (forall u i, atom_enforce_pbc X u i <> None).

(** The loop of [universe_simulate] makes exactly [n] turns from clock [t]:
    the test [time < max_time] holds [n] times, then fails. *)
Fixpoint runs_for (args : args_t D) (n : nat) (t : D) : bool :=
  match n with
  | O => negb (dltb t (max_time args))
  | S n => dltb t (max_time args) && runs_for args n (dadd t (timestep args))
  end.

(** The countdown on its own: the iteration indices at which [n] turns
    print a frame, from countdown [frame_nb] and iteration [it]. *)
Fixpoint frame_schedule (skip : Z) (n : nat) (frame_nb it : Z) : list Z :=
  match n with
  | O => []
  | S n =>
    if frame_nb =? 0
    then it :: frame_schedule skip n (u64 skip) (u64 (it + 1))
    else frame_schedule skip n (u64 (frame_nb - 1)) (u64 (it + 1))
  end.

End Trajectory.


(** ** The molecular mass, as a sum *)

Section Molecular_mass.
Context {D : Type} {DD : Double D} (X : externals D).

(** The sum of [model_mass (element)] over the reference atoms, added up
    from 0 in index order. *)
Definition molecular_mass (u : universe_t D) : D :=
  foldl (fun m r => dadd m (model_mass X (element r))) dzero
        (take (ref_atom_nb u) (ref_atom u)).

End Molecular_mass.

(** ** A concrete environment on the reals

    Unit masses and unit Boltzmann constant; the sampler always returns the
    unit vector along x. *)
Module DemoR.

Definition along_x : vec3d_t R := Vec3d 1%R 0%R 0%R.

Definition still (u : universe_t R) (i : nat) : atom_t R :=
  default atom_init (atom u !! i).

Definition env : externals R :=
  {| world := nat;
     rand := fun w => (Z.of_nat w, S w);
     cos := Rtrigo_def.cos;
     vec3d_marsaglia := fun w => (along_x, S w);
     malloc := fun w => (true, S w);
     heap_byte := fun _ _ => 0;
     fprintf := fun w => (true, S w);
     model_mass := fun _ => 1%R;
     model_symbol := fun _ => "H"%string;
     C_BOLTZMANN := 1%R;
     MODE_NUMERICAL := 1;
     atom_update_pos := fun u _ i => Some (still u i);
     atom_update_frc_numerical := fun u i => Some (still u i);
     atom_update_frc_analytical := fun u i => Some (still u i);
     atom_update_acc := fun u i => Some (still u i);
     atom_update_vel := fun u _ i => Some (still u i);
     atom_enforce_pbc := fun u i => Some (pos (still u i));
     potential_total := fun _ _ => Some 0%R |}.

(** One reference atom, two live atoms, T = 300. *)
Definition gas : universe_t R :=
  Universe ""%string ""%string ""%string 1 0 2 2 1%R 0%R 300%R 1%R 0
           [atom_init] [atom_init; atom_init] [].

End DemoR.


(** ** What a duplicate should look like *)

Section Duplicates.
Context {D : Type} {DD : Double D}.

(** Partner [p] of a reference atom, seen from copy number [i] of a
    molecule of [r] atoms. *)
Definition translate (i r : nat) (p : Z) : Z :=
  u64 (p + u64 (Z.of_nat i * Z.of_nat r)).

(** The atom that [universe_populate] leaves in place of [duplicate] when
    it copies [reference] into copy [i], displaced by [pos_offset]. *)
Definition duplicate_of (i r : nat) (pos_offset : vec3d_t D)
    (reference duplicate : atom_t D) : atom_t D :=
  Atom (element reference) (charge reference) (epsilon reference)
       (sigma reference) (bond_nb reference)
       (map (fmap (translate i r)) (take (bond_nb reference) (bond reference)))
       (take (bond_nb reference) (bond_strength reference))
       (vec3d_add (pos reference) pos_offset)
       (Vec3d (z (vel reference)) (y (vel duplicate)) (z (vel duplicate)))
       (Vec3d (z (acc reference)) (y (acc duplicate)) (z (acc duplicate)))
       (Vec3d (z (frc reference)) (y (frc duplicate)) (z (frc duplicate))).

(** Every partner recorded in the bond table of a reference atom is the
    index of a reference atom. *)
Definition ref_bonds_in_range (u : universe_t D) : Prop :=
  forall ii reference iii p,
    ref_atom u !! ii = Some reference ->
    (iii < bond_nb reference)%nat ->
    bond reference !! iii = Some (Some p) ->
    0 <= p < Z.of_nat (ref_atom_nb u).

(** The invariant of the loops of [universe_populate]: the duplicates with
    flat index below [done] are in place, the other atoms are as in [u],
    and nothing but [atom] has changed. *)
Definition populated_below (u : universe_t D) (done : nat)
    (t : universe_t D) : Prop :=
  t = set_atom u (atom t) /\
  length (atom t) = length (atom u) /\
  (forall j, (done <= j)%nat -> atom t !! j = atom u !! j) /\
  (forall i ii, (ii < ref_atom_nb u)%nat ->
     (i * ref_atom_nb u + ii < done)%nat ->
     exists pos_offset reference duplicate,
       ref_atom u !! ii = Some reference /\
       atom u !! (i * ref_atom_nb u + ii)%nat = Some duplicate /\
       atom t !! (i * ref_atom_nb u + ii)%nat
         = Some (duplicate_of i (ref_atom_nb u) pos_offset reference duplicate)).

(** The copy an atom index belongs to. *)
Definition copy_of (r : nat) (k : Z) : Z := k / Z.of_nat r.

End Duplicates.


(** ** Reading the bond table *)

Section Bond_table.
Context {D : Type} {DD : Double D}.

(** The 0-based atoms named by a bond line. *)
Definition bond_first (l : bond_line D) : nat := idx (u64 (bl_a1 l - 1)).
Definition bond_second (l : bond_line D) : nat := idx (u64 (bl_a2 l - 1)).

Definition mentions_atom (k : nat) (l : bond_line D) : bool :=
  (bond_first l =? k)%nat || (bond_second l =? k)%nat.

(** The number of bond lines that mention atom [k]. *)
Definition mentions (k : nat) (ls : list (bond_line D)) : nat :=
  length (List.filter (mentions_atom k) ls).

(** The bond lines that [universe_load] reads. *)
Definition bond_block (inp : input_t D) : list (bond_line D) :=
  take (in_bond_nb inp) (in_bonds inp).

(** Bond lines that name two distinct atoms of the molecule, fewer than
    256 of them for any one atom. *)
Definition bonds_well_formed (inp : input_t D) : Prop :=
  Z.of_nat (in_atom_nb inp) < 2 ^ 64 /\
  (forall i l, bond_block inp !! i = Some l ->
     1 <= bl_a1 l <= Z.of_nat (in_atom_nb inp) /\
     1 <= bl_a2 l <= Z.of_nat (in_atom_nb inp) /\
     bl_a1 l <> bl_a2 l) /\
  (forall k, (mentions k (bond_block inp) < 256)%nat).

(** Atom [k] of [ref] has [partner] in one of the first [bound] slots of
    its bond list, with stiffness [strength] in the same slot. *)
Definition has_bond_below (ref : list (atom_t D)) (k bound : nat) (partner : Z)
    (strength : D) : Prop :=
  exists a slot,
    ref !! k = Some a /\ (slot < bound)%nat /\
    bond a !! slot = Some (Some partner) /\
    bond_strength a !! slot = Some (Some strength).

(** Atom [k] of [ref] has [partner] in its bond list, with stiffness
    [strength]. *)
Definition has_bond (ref : list (atom_t D)) (k : nat) (partner : Z)
    (strength : D) : Prop :=
  exists a, ref !! k = Some a /\ has_bond_below ref k (bond_nb a) partner strength.

(** The invariant of the loop that loads the bond information, before
    turn [i]: every atom has its [bond_nb] slots, its counter reads the
    number of mentions so far, and each bond line already handled has its
    two entries below the counters. *)
Definition fill_invariant (inp : input_t D) (i : nat) (ref : list (atom_t D))
    (bond_index : list Z) : Prop :=
  (forall k, (k < in_atom_nb inp)%nat ->
     exists a, ref !! k = Some a /\
       bond_nb a = mentions k (bond_block inp) /\
       length (bond a) = bond_nb a /\
       length (bond_strength a) = bond_nb a) /\
  (forall k, (k < in_atom_nb inp)%nat ->
     bond_index !! k = Some (Z.of_nat (mentions k (take i (bond_block inp))))) /\
  (forall j l, (j < i)%nat -> bond_block inp !! j = Some l ->
     has_bond_below ref (bond_first l)
       (mentions (bond_first l) (take i (bond_block inp)))
       (bl_a2 l - 1) (bl_strength l) /\
     has_bond_below ref (bond_second l)
       (mentions (bond_second l) (take i (bond_block inp)))
       (bl_a1 l - 1) (bl_strength l)).

End Bond_table.


(** * Further definitions: the rest of universe.c *)

From Stdlib Require Import Lra.

(** ** More concrete inputs *)

Module Demo2.

(** One hydrogen atom, the clock at 1 second. *)
Definition late : universe_t float := set_clock (Demo.gas 1) 1%float 0.

(** max_time = 2, a timestep too small to move a clock that reads 1. *)
Definition tiny_steps : args_t float := Args 2%float 1e-17%float 0 0.

(** max_time = 1, a timestep that binary64 cannot add to it: 1 + 1e17
    rounds to 1e17. *)
Definition huge_step : args_t float := Args 1%float 1e17%float 0 0.

End Demo2.

(** ** The minimiser, seen from outside *)

Section Moves.
Context {D : Type} {DD : Double D}.

(** [t] is [u] with some atoms moved: the same atoms in the same places of
    the array, each with its position possibly rewritten, and nothing else
    touched. *)
Definition moved_only (u t : universe_t D) : Prop :=
  t = set_atom u (atom t) /\
  length (atom t) = length (atom u) /\
  forall i a, atom u !! i = Some a ->
    exists p, atom t !! i = Some (set_pos a p).


End Moves.

(** ** universe_energy_kinetic, universe_energy_total *)

Section Energy.
Context {D : Type} {DD : Double D} (X : externals D).

(** The macro [POW2] of util.h, which is not available. *)
Variable POW2 : D -> D.

(** The literal [0.5]. *)
Definition d0p5 : D := ddiv (dofZ 1) (dofZ 2).

(** [vel = vec3d_mag(&(universe->atom[i].vel));
     *energy += 0.5*POW2(vel)*model_mass(universe->atom[i].element);] *)
Definition energy_kinetic_step (u : universe_t D) (i : nat) (energy : D)
    : outcome D :=
  match atom u !! i with
  | Some a =>
    let vel := vec3d_mag (vel a) in
    Ok (dadd energy (dmul (dmul d0p5 (POW2 vel)) (model_mass X (element a))))
  | None => Undef
  end.

Definition universe_energy_kinetic (u : universe_t D) : outcome D :=
  for_loop (atom_nb u) 0 (energy_kinetic_step u) dzero.

Definition universe_energy_total (u : universe_t D) : outcome D :=
  obind (universe_energy_kinetic u) (fun kinetic =>
  obind (universe_energy_potential X u) (fun potential =>
  Ok (dadd kinetic potential))).

End Energy.

Module Demo3.

(** A potential that is not a number. *)
Definition undefined_potential (u : universe_t float) (i : nat) : option float :=
  Some PrimFloat.nan.

Definition nan_env : externals float :=
  Demo.env Demo.zero_heap Demo.all_writes undefined_potential.

(** The potential of atom 1 cannot be computed. *)
Definition second_fails (u : universe_t float) (i : nat) : option float :=
  if (i =? 1)%nat then None else Some 1%float.

Definition failing_env : externals float :=
  Demo.env Demo.zero_heap Demo.all_writes second_fails.

End Demo3.

(** ** The particles of the reference molecule *)

Section Particles.
Context {D : Type} {DD : Double D}.

(** [b] is [a] up to its bond table: the same species, charge,
    Lennard-Jones parameters and kinematics. *)
Definition same_particle (a b : atom_t D) : Prop :=
  element b = element a /\ charge b = charge a /\
  epsilon b = epsilon a /\ sigma b = sigma a /\
  pos b = pos a /\ vel b = vel a /\ acc b = acc a /\ frc b = frc a.

Definition same_particles (t t' : list (atom_t D)) : Prop :=
  length t' = length t /\
  forall k a, t !! k = Some a ->
    exists a', t' !! k = Some a' /\ same_particle a a'.

(** The input has the lines that its count line announces, its bond lines
    name atoms of the molecule, and the bond block is no longer than the
    counter block that [memset] zeroes it over. *)
Definition input_in_range (inp : input_t D) : Prop :=
  (forall i, (i < in_atom_nb inp)%nat -> is_Some (in_atoms inp !! i)) /\
  (in_bond_nb inp <= 8 * in_atom_nb inp)%nat /\
  (forall i, (i < in_bond_nb inp)%nat ->
     exists l, in_bonds inp !! i = Some l /\
               (bond_first l < in_atom_nb inp)%nat /\
               (bond_second l < in_atom_nb inp)%nat).

End Particles.

Module Demo4.

(** The dimer with its bond line naming atom 0: indices are 1-based. *)
Definition zero_based_dimer : input_t float :=
  Input "H2"%string "nobody"%string "dimer"%string 2 1
    [ AtomRec 0%float 0%float 0%float 1 0%float 0%float 0%float;
      AtomRec 0.74%float 0%float 0%float 1 0%float 0%float 0%float ]
    [ BondRec 0 1 500%float ].

(** One atom and nine bond lines: the bond block outgrows the eight bytes
    of the counter block. *)
Definition nine_bonds : input_t float :=
  Input "X"%string "nobody"%string "one atom"%string 1 9
    [ AtomRec 0%float 0%float 0%float 1 0%float 0%float 0%float ]
    (replicate 9 (BondRec 1 1 500%float)).

End Demo4.

(** A call that either returns its result or runs into undefined
    behaviour: it reports no error and it terminates. *)
Definition returns_or_undefined {A : Type} (o : outcome A) : Prop :=
  o = Undef \/ exists a, o = Ok a.

(** ** The copies that [universe_populate] places *)

Section Copies.
Context {D : Type} {DD : Double D} (X : externals D).

(** The displacement of a copy whose turn starts in world [w]: a random
    unit vector, scaled by [cos(rand())*universe->size]. *)
Definition copy_offset (u : universe_t D) (w : world X) : vec3d_t D :=
  let '(pos_offset, w) := vec3d_marsaglia X w in
  let '(r, _) := rand X w in
  vec3d_mul pos_offset (dmul (cos X (dofZ r)) (size u)).

(** The world after the turn of one copy: one random vector, one random
    number, and two allocations for each atom of the molecule. *)
Definition copy_world (u : universe_t D) (w : world X) : world X :=
  let '(_, w) := vec3d_marsaglia X w in
  let '(_, w) := rand X w in
  Nat.iter (2 * ref_atom_nb u) (fun w => snd (malloc X w)) w.

(** The reference molecule has its atoms, each with at least [bond_nb]
    entries in its two bond arrays. *)
Definition reference_allocated (u : universe_t D) : Prop :=
  forall ii, (ii < ref_atom_nb u)%nat ->
    exists reference,
      ref_atom u !! ii = Some reference /\
      (bond_nb reference <= length (bond reference))%nat /\
      (bond_nb reference <= length (bond_strength reference))%nat.

(** The invariant of the loop over the atoms of copy [i], before turn [k]:
    the atoms of the copy below [k] are in place, all displaced by [off];
    the atoms outside of the copy are as in [t]. *)
Definition copy_placed_below (u t : universe_t D) (w : world X) (i k : nat)
    (off : vec3d_t D) (st : universe_t D * world X) : Prop :=
  fst st = set_atom u (atom (fst st)) /\
  length (atom (fst st)) = length (atom u) /\
  snd st = Nat.iter (2 * k) (fun w => snd (malloc X w)) w /\
  (forall j, (j < i * ref_atom_nb u \/ i * ref_atom_nb u + k <= j)%nat ->
             atom (fst st) !! j = atom t !! j) /\
  (forall ii, (ii < k)%nat ->
     exists reference duplicate,
       ref_atom u !! ii = Some reference /\
       atom t !! (i * ref_atom_nb u + ii)%nat = Some duplicate /\
       atom (fst st) !! (i * ref_atom_nb u + ii)%nat
         = Some (duplicate_of i (ref_atom_nb u) off reference duplicate)).

(** The invariant of the loop over the copies, before turn [n]. *)
Definition copies_placed (u : universe_t D) (w : world X) (n : nat)
    (st : universe_t D * world X) : Prop :=
  populated_below u (n * ref_atom_nb u) (fst st) /\
  snd st = Nat.iter n (copy_world u) w /\
  (forall i ii, (i < n)%nat -> (ii < ref_atom_nb u)%nat ->
     exists reference duplicate,
       ref_atom u !! ii = Some reference /\
       atom u !! (i * ref_atom_nb u + ii)%nat = Some duplicate /\
       atom (fst st) !! (i * ref_atom_nb u + ii)%nat
         = Some (duplicate_of i (ref_atom_nb u)
                   (copy_offset u (Nat.iter i (copy_world u) w))
                   reference duplicate)).

End Copies.

(** ** The samples that [universe_setvelocity] draws *)

Section Samples.
Context {D : Type} {DD : Double D} (X : externals D).

(** The world after [n] calls of [vec3d_marsaglia]. *)
Definition after_samples (n : nat) (w : world X) : world X :=
  Nat.iter n (fun w => snd (vec3d_marsaglia X w)) w.

(** The invariant of the second loop of [universe_setvelocity], before
    turn [k]. *)
Definition velocities_set_below (u : universe_t D) (w : world X) (velocity : D)
    (k : nat) (st : universe_t D * world X) : Prop :=
  fst st = set_atom u (atom (fst st)) /\
  length (atom (fst st)) = length (atom u) /\
  snd st = after_samples k w /\
  (forall i, (k <= i)%nat -> atom (fst st) !! i = atom u !! i) /\
  (forall i, (i < k)%nat ->
     exists a0,
       atom u !! i = Some a0 /\
       atom (fst st) !! i
         = Some (set_vel a0
                   (vec3d_mul (fst (vec3d_marsaglia X (after_samples i w)))
                              velocity))).

End Samples.

Module Demo5.

(** Three atoms announced, two allocated. *)
Definition short_gas : universe_t float :=
  Universe ""%string ""%string ""%string 0 0 1 3 1e-9%float 0%float
           300%float 1e5%float 0 [] (replicate 2 Demo.hydrogen) [].

End Demo5.

(** ** universe_init *)

Section Init_model.
Context {D : Type} {DD : Double D}.

(** The fields of [args_t] that [universe_init] reads ([path] and
    [out_path] name the files that [fopen] opens). *)
Record init_args_t : Type := InitArgs {
  copies : nat;
  args_temperature : D;
  args_pressure : D
}.

(** "Initialize the variables" *)
Definition init_fields (u : universe_t D) (args : init_args_t) : universe_t D :=
  Universe ""%string ""%string ""%string 0 0 (copies args) 0 dzero dzero
    (args_temperature args) (args_pressure args) 0
    (ref_atom u) (atom u) (output_file u).

(** [universe->atom_nb = n; universe->size = s;] *)
Definition set_extent (u : universe_t D) (n : nat) (s : D) : universe_t D :=
  Universe (meta_name u) (meta_author u) (meta_comment u) (ref_atom_nb u)
    (ref_bond_nb u) (copy_nb u) n s (time u) (temperature u) (pressure u)
    (iterations u) (ref_atom u) (atom u) (output_file u).

End Init_model.

Arguments init_args_t D : clear implicits.

Section Init.
Context {D : Type} {DD : Double D} (X : externals D).

(** The C library, as [universe_init] uses it: whether the next [fopen]
    succeeds; what [fread] delivers, the whole input file (as the
    [strtok]/[sscanf] calls of [universe_load] will split it) or a short
    read; the cube root. *)
Variable fopen : world X -> bool * world X.
Variable fread_input : world X -> option (input_t D) * world X.
Variable cbrt : D -> D.

(** [(universe->ref_atom_nb) * (universe->copy_nb)], on [uint64_t]. *)
Definition init_atom_nb (u : universe_t D) : nat :=
  idx (u64 (Z.of_nat (ref_atom_nb u) * Z.of_nat (copy_nb u))).

(** [cbrt(C_BOLTZMANN*(universe->copy_nb)*(universe->temperature)
          /(args->pressure))] *)
Definition init_size (u : universe_t D) (args : init_args_t D) : D :=
  cbrt (ddiv (dmul (dmul (C_BOLTZMANN X) (dofZ (Z.of_nat (copy_nb u))))
                   (temperature u))
             (args_pressure args)).

(** The world in which [fread] is called: after the two [fopen] and the
    allocation of the buffer. *)
Definition read_world (w : world X) : world X :=
  snd (malloc X (snd (fopen (snd (fopen w))))).

Definition universe_init (u : universe_t D) (args : init_args_t D)
    (w : world X) : outcome (universe_t D * world X) :=
  let u := init_fields u args in
  (* the output file, opened for writing *)
  let '(ok, w) := fopen w in
  if ok then
    let u := set_output_file u [] in
    (* the input file *)
    let '(ok, w) := fopen w in
    if ok then
      obind (try_malloc X w) (fun w =>
      let '(file, w) := fread_input w in
      match file with
      | None => Null
      | Some inp =>
        obind (universe_load X u inp w) (fun '(u, w) =>
        let u := set_extent u (init_atom_nb u) (size u) in
        let u := set_extent u (atom_nb u) (init_size u args) in
        obind (try_malloc X w) (fun w =>
        let u := set_atom u (replicate (atom_nb u) atom_init) in
        obind (universe_populate X u w) (fun '(u, w) =>
        obind (for_loop (atom_nb u) 0 (enforce_pbc_pass X) u) (fun u =>
        universe_setvelocity X u w))))
      end)
    else Null
  else Null.

(** The universe that [universe_populate] is called on. *)
Definition init_loaded (u1 : universe_t D) (args : init_args_t D)
    : universe_t D :=
  let u := set_extent u1 (init_atom_nb u1) (size u1) in
  let u := set_extent u (atom_nb u) (init_size u args) in
  set_atom u (replicate (atom_nb u) atom_init).

End Init.

Module Demo6.

(** Both files open; the input file is the dimer. *)
Definition fopen (w : nat) : bool * nat := (true, S w).
Definition fread_input (w : nat) : option (input_t float) * nat :=
  (Some Demo.dimer, S w).

(** A stand-in for the cube root. *)
Definition cbrt (x : float) : float := x.

(** Three copies at 300 K and 1e5 Pa. *)
Definition three_copies : init_args_t float := InitArgs 3 300%float 1e5%float.

(** What is in memory before [universe_init]: nothing of use. *)
Definition garbage : universe_t float :=
  Universe "?"%string "?"%string "?"%string 7 7 7 7 1%float 1%float
           1%float 1%float 7 [] [] [Header 9 9].

End Demo6.

(** ** A sampler off the axes *)

Module Demo7.

(** A vector whose binary64 norm is exactly 1: 0.28 * 0.28 + 0.96 * 0.96
    rounds to 1. *)
Definition tilted : vec3d_t float := Vec3d 0.28%float 0.96%float 0%float.

(** The environment of [Demo], with a sampler that returns [tilted]. *)
Definition tilted_env : externals float :=
  {| world := nat;
     rand := fun w => (Z.of_nat w, S w);
     cos := fun _ => 1%float;
     vec3d_marsaglia := fun w => (tilted, S w);
     malloc := fun w => (true, S w);
     heap_byte := fun _ _ => 0;
     fprintf := fun w => (true, S w);
     model_mass := fun e => if e =? 1 then 1.67e-27%float else 0%float;
     model_symbol := fun e => if e =? 1 then "H"%string else "?"%string;
     C_BOLTZMANN := 1.38e-23%float;
     MODE_NUMERICAL := 1;
     atom_update_pos := fun u _ i => Some (Demo.still u i);
     atom_update_frc_numerical := fun u i => Some (Demo.still u i);
     atom_update_frc_analytical := fun u i => Some (Demo.still u i);
     atom_update_acc := fun u i => Some (Demo.still u i);
     atom_update_vel := fun u _ i => Some (Demo.still u i);
     atom_enforce_pbc := fun u i => Some (pos (Demo.still u i));
     potential_total := Demo.slope |}.

(** The two dimers of [Demo.dimer_box], the four live atoms being hydrogen
    atoms. *)
Definition hydrogen_box : universe_t float :=
  set_atom Demo.dimer_box (replicate 4 Demo.hydrogen).

(** [POW2] as the square. *)
Definition square (v : float) : float := (v * v)%float.

End Demo7.

(** * Properties *)

(** *** The order of binary64 *)

Lemma SFltb_Lt (a b : spec_float) :
  SFltb a b = true <-> SFcompare a b = Some Lt.
Proof.
  unfold SFltb. destruct (SFcompare a b) as [[]|]; split; congruence.
Qed.

Lemma CompOpp_Lt c : CompOpp c = Lt <-> c = Gt.
Proof. destruct c; simpl; split; congruence. Qed.

(** [SFcompare] orders finite numbers of one sign by exponent, then by
    mantissa; being a lexicographic order it is transitive. *)
Lemma SFcompare_Lt_trans (a b c : spec_float) :
  SFcompare a b = Some Lt -> SFcompare b c = Some Lt -> SFcompare a c = Some Lt.
Proof.
  destruct a as [sa|sa| |sa ma ea], b as [sb|sb| |sb mb eb],
           c as [sc|sc| |sc mc ec]; simpl;
    try congruence;
    repeat match goal with s : bool |- _ => destruct s end;
    simpl; try congruence.
  all: change (Pos.compare_cont Eq) with Pos.compare.
  all: destruct (Z.compare_spec ea eb), (Z.compare_spec eb ec),
         (Z.compare_spec ea ec); try congruence; try lia.
  all: intros Hab Hbc; injection Hab as Hab; injection Hbc as Hbc; f_equal.
  all: rewrite ?CompOpp_Lt in *.
  all: rewrite ?Pos.compare_lt_iff, ?Pos.compare_gt_iff in *; lia.
Qed.

Lemma float_ltb_trans (x y z : float) :
  PrimFloat.ltb x y = true -> PrimFloat.ltb y z = true -> PrimFloat.ltb x z = true.
Proof.
  rewrite !ltb_spec, !SFltb_Lt. apply SFcompare_Lt_trans.
Qed.

Lemma float_ltb_leb (x y : float) :
  PrimFloat.ltb x y = true -> PrimFloat.leb x y = true.
Proof.
  rewrite ltb_spec, leb_spec, SFltb_Lt. unfold SFleb. now intros ->.
Qed.

(** ** Loops *)

Lemma obind_Ok {A B} (o : outcome A) (k : A -> outcome B) (b : B) :
  obind o k = Ok b -> exists a, o = Ok a /\ k a = Ok b.
Proof. destruct o; simpl; try discriminate. eauto. Qed.

(** Invariant rule of [for_loop]. *)
Lemma for_loop_inv {S : Type} (P : nat -> S -> Prop) (body : nat -> S -> outcome S) :
  forall (n start : nat) (s s' : S),
    for_loop n start body s = Ok s' ->
    P start s ->
    (forall k t t', (start <= k < start + n)%nat -> P k t ->
                    body k t = Ok t' -> P (Datatypes.S k) t') ->
    P (start + n)%nat s'.
Proof.
  induction n as [|n IH]; intros start s s' Hrun Hs Hstep; simpl in Hrun.
  - injection Hrun as <-. now rewrite Nat.add_0_r.
  - apply obind_Ok in Hrun as (t & Hb & Hrest).
    replace (start + Datatypes.S n)%nat with (Datatypes.S start + n)%nat by lia.
    eapply IH; [exact Hrest | |].
    + eapply Hstep; [| exact Hs | exact Hb]. lia.
    + intros k t0 t' Hk. apply Hstep. lia.
Qed.

(** ** The Monte-Carlo minimiser lowers the potential *)

Section Montecarlo.
Context {D : Type} {DD : Double D} (X : externals D).

Lemma montecarlo_propose_energy part_id mag u w u' p' w' :
  montecarlo_propose X part_id mag u w = Ok (u', p', w') ->
  universe_energy_potential X u' = Ok p'.
Proof.
  unfold montecarlo_propose. destruct (atom u !! part_id); [|discriminate].
  destruct (vec3d_marsaglia X w) as [o w1].
  intros H. apply obind_Ok in H as (u1 & _ & H).
  apply obind_Ok in H as (p1 & Hp & H). now injection H as <- <- <-.
Qed.

(** The loop of one atom is left, with success, only on a configuration
    whose total potential is strictly below the potential it was entered
    with. *)
Lemma montecarlo_try_exit fuel part_id potential :
  forall tries mag u w u' w',
    montecarlo_try X fuel part_id potential tries mag u w = Ok (u', w') ->
    exists potential_new,
      universe_energy_potential X u' = Ok potential_new /\
      dltb potential_new potential = true.
Proof.
  induction fuel as [|fuel IH]; intros tries mag u w u' w'; simpl; [discriminate|].
  destruct (montecarlo_refine tries mag) as [tries1 mag1].
  destruct (atom u !! part_id) as [a|]; [|discriminate].
  intros H. apply obind_Ok in H as ([[u1 p1] w1] & Hprop & H).
  destruct (dltb p1 potential) eqn:Hlt.
  - injection H as <- <-. exists p1. split; [|exact Hlt].
    eapply montecarlo_propose_energy; eassumption.
  - eapply IH; eassumption.
Qed.

Lemma montecarlo_atom_exit fuel part_id u w u' w' :
  montecarlo_atom X fuel part_id (u, w) = Ok (u', w') ->
  exists p p',
    universe_energy_potential X u = Ok p /\
    universe_energy_potential X u' = Ok p' /\
    dltb p' p = true.
Proof.
  unfold montecarlo_atom. intros H.
  apply obind_Ok in H as (p & Hp & H).
  apply montecarlo_try_exit in H as (p' & Hp' & Hlt). eauto.
Qed.

(** A rejected move leaves the universe exactly as it was: the proposal
    only rewrote the position of atom [part_id], and the backup is put
    back. *)
Lemma set_atom_pos_restore part_id mag u w u' p' w' a :
  atom u !! part_id = Some a ->
  montecarlo_propose X part_id mag u w = Ok (u', p', w') ->
  set_atom_pos u' part_id (pos a) = u.
Proof.
  intros Ha. unfold montecarlo_propose. rewrite Ha.
  destruct (vec3d_marsaglia X w) as [o w1].
  intros H. apply obind_Ok in H as (u1 & Hpbc & H).
  apply obind_Ok in H as (p1 & _ & H). injection H as <- <- <-.
  revert Hpbc. unfold enforce_pbc_pass, set_atom_pos. rewrite Ha. simpl.
  assert (Hlt : (part_id < length (atom u))%nat) by (eapply lookup_lt_Some; eauto).
  rewrite list_lookup_insert_eq by exact Hlt.
  destruct (atom_enforce_pbc X _ part_id) as [q|]; [|discriminate].
  intros H. injection H as <-. simpl.
  rewrite list_lookup_insert_eq by (rewrite length_insert; exact Hlt).
  rewrite !list_insert_insert_eq.
  destruct u, a; simpl in *. unfold set_atom, set_pos; simpl.
  f_equal. apply list_insert_id. exact Ha.
Qed.

(** When every proposal made from [u] evaluates to a potential that is not
    strictly below [potential], no amount of fuel lets the loop return. *)
Lemma montecarlo_try_stuck part_id potential u :
  (forall mag w, exists u' potential_new w',
      montecarlo_propose X part_id mag u w = Ok (u', potential_new, w') /\
      dltb potential_new potential = false) ->
  forall fuel tries mag w,
    montecarlo_try X fuel part_id potential tries mag u w = Timeout.
Proof.
  intros Hstuck. induction fuel as [|fuel IH]; intros tries mag w; simpl; [reflexivity|].
  destruct (montecarlo_refine tries mag) as [tries1 mag1].
  destruct (Hstuck mag1 w) as (u' & p' & w' & Hprop & Hlt).
  destruct (atom u !! part_id) as [a|] eqn:Ha.
  - rewrite Hprop. simpl. rewrite Hlt.
    rewrite (set_atom_pos_restore _ _ _ _ _ _ _ _ Ha Hprop). apply IH.
  - unfold montecarlo_propose in Hprop. rewrite Ha in Hprop. discriminate.
Qed.

End Montecarlo.

(** C1 (MC monotonicity).  Whenever [universe_montecarlo] returns the
    universe, the total potential energy of the system it leaves is less
    than or equal to the total potential energy of the system it was
    given, in the order of binary64. *)
Theorem montecarlo_monotone (X : externals float) (fuel : nat)
    (u u' : universe_t float) (w w' : world X) :
  universe_montecarlo X fuel u w = Ok (u', w') ->
  exists U_initial U_final,
    universe_energy_potential X u = Ok U_initial /\
    universe_energy_potential X u' = Ok U_final /\
    PrimFloat.leb U_final U_initial = true.
Proof.
  unfold universe_montecarlo. destruct (atom_nb u) as [|n] eqn:Hn.
  - (* no atom: nothing moves, both sums are 0.0 *)
    simpl. intros H. injection H as <- <-.
    exists 0%float, 0%float. unfold universe_energy_potential.
    rewrite Hn. simpl. repeat split; reflexivity.
  - cbn [for_loop]. intros H.
    apply obind_Ok in H as ([u1 w1] & Hfirst & Hrest).
    apply montecarlo_atom_exit in Hfirst as (p0 & p1 & Hp0 & Hp1 & Hlt).
    exists p0.
    pose (P := fun (_ : nat) (st : universe_t float * world X) =>
                 exists p, universe_energy_potential X (fst st) = Ok p /\
                           PrimFloat.ltb p p0 = true).
    assert (HP : P (1 + n)%nat (u', w')).
    { eapply (for_loop_inv P); [exact Hrest | exists p1; now split |].
      intros k [uk wk] [uk' wk'] _ (p & Hp & Hpp0) Hbody.
      apply montecarlo_atom_exit in Hbody as (q & q' & Hq & Hq' & Hqq).
      simpl in Hp. rewrite Hp in Hq. injection Hq as <-.
      exists q'. split; [exact Hq'|]. eapply float_ltb_trans; eassumption. }
    destruct HP as (p & Hp & Hpp0). exists p.
    repeat split; [exact Hp0 | exact Hp |]. now apply float_ltb_leb.
Qed.

(** On two atoms and the falling potential, each atom has its first
    proposal (+x) rejected and its second (-x) accepted. *)
Lemma montecarlo_monotone_witness :
  exists st,
    universe_montecarlo Demo.slope_env 2 (Demo.gas 2) 0%nat = Ok st /\
    exists U_initial U_final,
      universe_energy_potential Demo.slope_env (Demo.gas 2) = Ok U_initial /\
      universe_energy_potential Demo.slope_env (fst st) = Ok U_final /\
      PrimFloat.leb U_final U_initial = true.
Proof.
  eexists. split.
  - vm_compute. reflexivity.
  - apply (montecarlo_monotone Demo.slope_env 2 (Demo.gas 2) _ 0%nat 4%nat).
    vm_compute. reflexivity.
Defined.

(** C3 (no retry cap).  Take a universe and one of its atoms such that
    every displacement proposed for that atom yields a total potential
    that is not strictly lower than the potential the loop compares with.
    Then the proposal loop of that atom never terminates: whatever the
    number of turns allowed, whatever the try counter and the step
    magnitude (which the loop multiplies by 0.1 once the counter has
    reached 50, and leaves alone before), it is still running; and so is
    [universe_montecarlo] when the atom is the first one. *)
Theorem montecarlo_no_retry_cap {D : Type} {DD : Double D} (X : externals D)
    (part_id : nat) (potential : D) (u : universe_t D) :
  (forall mag w, exists u' potential_new w',
      montecarlo_propose X part_id mag u w = Ok (u', potential_new, w') /\
      dltb potential_new potential = false) ->
  forall fuel tries mag w,
    montecarlo_try X fuel part_id potential tries mag u w = Timeout /\
    montecarlo_refine 50 mag = (0, dmul mag d0p1) /\
    (0 <= tries < 50 -> montecarlo_refine tries mag = (tries + 1, mag)) /\
    (part_id = 0%nat -> (0 < atom_nb u)%nat ->
     universe_energy_potential X u = Ok potential ->
     universe_montecarlo X fuel u w = Timeout).
Proof.
  intros Hstuck fuel tries mag w. split; [|split; [|split]].
  - now apply montecarlo_try_stuck.
  - reflexivity.
  - intros Ht. unfold montecarlo_refine.
    destruct (Z.ltb_spec tries 50); [|lia].
    unfold u64. rewrite Z.mod_small by lia. reflexivity.
  - intros -> Hn Hp. unfold universe_montecarlo.
    destruct (atom_nb u) as [|n]; [lia|]. cbn [for_loop].
    unfold montecarlo_atom. rewrite Hp. cbn [obind].
    now rewrite montecarlo_try_stuck.
Qed.

(** One atom under the flat potential: a thousand turns, and neither the
    loop nor the minimiser has returned. *)
Lemma montecarlo_no_retry_cap_witness :
  (forall mag w, exists u' potential_new w',
      montecarlo_propose Demo.flat_env 0 mag (Demo.gas 1) w
        = Ok (u', potential_new, w') /\
      PrimFloat.ltb potential_new 0%float = false) /\
  montecarlo_try Demo.flat_env 1000 0 0%float 0 1e-9%float (Demo.gas 1) 0%nat
    = Timeout /\
  universe_montecarlo Demo.flat_env 1000 (Demo.gas 1) 0%nat = Timeout.
Proof.
  assert (H : forall mag w, exists u' potential_new w',
      montecarlo_propose Demo.flat_env 0 mag (Demo.gas 1) w
        = Ok (u', potential_new, w') /\
      PrimFloat.ltb potential_new 0%float = false).
  { intros mag w. eexists _, _, _. split; [reflexivity|]. vm_compute. reflexivity. }
  split; [exact H|].
  destruct (montecarlo_no_retry_cap Demo.flat_env 0%nat 0%float (Demo.gas 1) H
              1000%nat 0 1e-9%float 0%nat) as (Htry & _ & _ & Hmc).
  split; [exact Htry|].
  apply Hmc; [reflexivity | simpl; lia | vm_compute; reflexivity].
Defined.

(** ** The driver loop *)

Section Simulate.
Context {D : Type} {DD : Double D} (X : externals D).

Lemma for_loop_not_Null {S : Type} (body : nat -> S -> outcome S) :
  (forall k t, body k t <> Null) ->
  forall n start s, for_loop n start body s <> Null.
Proof.
  intros Hbody. induction n as [|n IH]; intros start s; simpl; [discriminate|].
  destruct (body start s) as [t| | |] eqn:Hb; simpl; try discriminate.
  - apply IH.
  - now apply Hbody in Hb.
Qed.

(** [universe_printstate] has no failing return: the results of its
    writes are never looked at. *)
Lemma universe_printstate_not_Null (u : universe_t D) (w : world X) :
  universe_printstate X u w <> Null.
Proof.
  unfold universe_printstate. apply for_loop_not_Null.
  intros k t. unfold printstate_atom. destruct (atom (fst t) !! k); discriminate.
Qed.

Lemma set_atom_id (u : universe_t D) : u = set_atom u (atom u).
Proof. now destruct u. Qed.

Lemma atom_pass_frame f i (u u' : universe_t D) :
  atom_pass f i u = Ok u' -> u' = set_atom u (atom u').
Proof.
  unfold atom_pass. destruct (f u i); [|discriminate].
  intros H. injection H as <-. reflexivity.
Qed.

Lemma enforce_pbc_pass_frame i (u u' : universe_t D) :
  enforce_pbc_pass X i u = Ok u' -> u' = set_atom u (atom u').
Proof.
  unfold enforce_pbc_pass. destruct (atom u !! i); [|discriminate].
  destruct (atom_enforce_pbc X u i); [|discriminate].
  intros H. injection H as <-. reflexivity.
Qed.

Lemma for_loop_frame (body : nat -> universe_t D -> outcome (universe_t D)) :
  (forall k t t', body k t = Ok t' -> t' = set_atom t (atom t')) ->
  forall n start u u',
    for_loop n start body u = Ok u' -> u' = set_atom u (atom u').
Proof.
  intros Hbody n start u u' Hrun.
  apply (for_loop_inv (fun _ t => t = set_atom u (atom t)) body n start u u' Hrun).
  - apply set_atom_id.
  - intros k t t' _ Ht Hb. apply Hbody in Hb. rewrite Hb, Ht. reflexivity.
Qed.

(** An integration step rewrites atoms and nothing else. *)
Lemma universe_iterate_frame (args : args_t D) (u u' : universe_t D) :
  universe_iterate X u args = Ok u' -> u' = set_atom u (atom u').
Proof.
  unfold universe_iterate. intros H.
  apply obind_Ok in H as (u1 & H1 & H).
  apply obind_Ok in H as (u2 & H2 & H).
  apply obind_Ok in H as (u3 & H3 & H).
  apply obind_Ok in H as (u4 & H4 & H5).
  apply for_loop_frame in H1; [|intros ? ? ?; apply atom_pass_frame].
  apply for_loop_frame in H2; [|intros ? ? ?; apply enforce_pbc_pass_frame].
  assert (H3' : u3 = set_atom u2 (atom u3)).
  { destruct (numerical args =? MODE_NUMERICAL X);
      (apply for_loop_frame in H3; [exact H3|intros ? ? ?; apply atom_pass_frame]). }
  apply for_loop_frame in H4; [|intros ? ? ?; apply atom_pass_frame].
  apply for_loop_frame in H5; [|intros ? ? ?; apply atom_pass_frame].
  rewrite H5, H4, H3', H2, H1. reflexivity.
Qed.

Section Writes_succeed.
Hypothesis writes_succeed : forall w, fst (fprintf X w) = true.

Lemma emit_ok (line : out_line D) (u : universe_t D) (w : world X) :
  fst (emit X line (u, w)) = set_output_file u (output_file u ++ [line]).
Proof.
  unfold emit. specialize (writes_succeed w).
  destruct (fprintf X w) as [ok w1]. simpl in *. now subst ok.
Qed.

(** With every write succeeding, [universe_printstate] appends the whole
    frame of the universe it is given, and changes nothing else. *)
Lemma universe_printstate_frame (u u' : universe_t D) (w w' : world X) :
  universe_printstate X u w = Ok (u', w') ->
  u' = set_output_file u (output_file u ++ frame_of X u).
Proof.
  unfold universe_printstate. intros Hrun.
  pose (P := fun (k : nat) (st : universe_t D * world X) =>
     fst st = set_output_file u
       (output_file u ++ Header (atom_nb u) (iterations u)
                      :: map (atom_out_line X) (take k (atom u)))).
  enough (HP : P (0 + atom_nb u)%nat (u', w')) by exact HP.
  eapply (for_loop_inv P); [exact Hrun | |].
  - unfold P. rewrite emit_ok. reflexivity.
  - intros k [t wt] [t' wt'] _ Ht Hb. unfold P in *. cbn [fst] in *.
    unfold printstate_atom in Hb. cbn [fst] in Hb.
    destruct (atom t !! k) as [a|] eqn:Ha; [|discriminate].
    assert (Hb' : emit X (atom_out_line X a) (t, wt) = (t', wt')) by congruence.
    pose proof (emit_ok (atom_out_line X a) t wt) as He.
    rewrite Hb' in He. cbn [fst] in He. rewrite He, Ht. simpl.
    rewrite Ht in Ha. simpl in Ha.
    rewrite (take_S_r _ _ _ Ha), map_app. simpl.
    rewrite <- app_assoc. reflexivity.
Qed.

(** What one turn of the loop does to the clock and to the file. *)
Lemma simulate_turn (args : args_t D) (frame_nb : Z) (u u1 u2 : universe_t D)
    (w w1 : world X) (frame_nb1 : Z) :
  simulate_frame X args frame_nb u w = Ok (u1, w1, frame_nb1) ->
  universe_iterate X u1 args = Ok u2 ->
  time (tick args u2) = dadd (time u) (timestep args) /\
  iterations (tick args u2) = u64 (iterations u + 1) /\
  (if frame_nb =? 0
   then output_file (tick args u2) = output_file u ++ frame_of X u /\
        frame_nb1 = u64 (frameskip args)
   else output_file (tick args u2) = output_file u /\
        frame_nb1 = u64 (frame_nb - 1)).
Proof.
  unfold simulate_frame. intros Hf Hi. apply universe_iterate_frame in Hi.
  destruct (frame_nb =? 0).
  - apply obind_Ok in Hf as ([u1' w1'] & Hp & Hf).
    injection Hf as <- <- <-. apply universe_printstate_frame in Hp.
    rewrite Hi, Hp. simpl. repeat split.
  - injection Hf as <- <- <-. rewrite Hi. simpl. repeat split.
Qed.

Lemma frame_indices_frame_of (u : universe_t D) :
  frame_indices (frame_of X u) = [iterations u].
Proof.
  unfold frame_indices, frame_of. simpl. f_equal.
  induction (take (atom_nb u) (atom u)) as [|a l IH]; simpl; [reflexivity|exact IH].
Qed.

(** The loop, turn by turn: when it makes [n] turns and returns, the
    counter has advanced [n] times, the file has grown by the frames of the
    countdown's schedule, and when the first turn prints, what it prints
    is the universe the loop was entered with. *)
Lemma simulate_loop_trace (args : args_t D) :
  forall (n fuel : nat) (frame_nb : Z) (u u' : universe_t D) (w w' : world X),
    runs_for args n (time u) = true ->
    simulate_loop X fuel args frame_nb u w = Ok (u', w') ->
    exists new,
      output_file u' = output_file u ++ new /\
      frame_indices new
        = frame_schedule (frameskip args) n frame_nb (iterations u) /\
      iterations u' = Nat.iter n (fun i => u64 (i + 1)) (iterations u) /\
      (frame_nb = 0 -> (0 < n)%nat -> exists rest, new = frame_of X u ++ rest) /\
      (n = 0%nat -> new = []).
Proof.
  induction n as [|n IH]; intros fuel frame_nb u u' w w' Hn Hrun;
    destruct fuel as [|fuel]; simpl in Hrun; try discriminate; simpl in Hn.
  - destruct (dltb (time u) (max_time args)); [discriminate|].
    injection Hrun as <- <-. exists []. rewrite app_nil_r.
    repeat split. intros _ H. lia.
  - apply andb_prop in Hn as [Hlt Hn]. rewrite Hlt in Hrun.
    apply obind_Ok in Hrun as ([[u1 w1] fn1] & Hf & Hrun).
    apply obind_Ok in Hrun as (u2 & Hi & Hrun).
    destruct (simulate_turn _ _ _ _ _ _ _ _ Hf Hi) as (Ht & Hit & Hout).
    rewrite <- Ht in Hn.
    destruct (IH _ _ _ _ _ _ Hn Hrun) as (new & Ho & Hidx & Hcnt & _).
    rewrite Hit in Hidx, Hcnt. rewrite Nat.iter_succ_r.
    simpl. destruct (frame_nb =? 0) eqn:Hfn.
    + destruct Hout as [Hout ->]. rewrite Hout, <- app_assoc in Ho.
      exists (frame_of X u ++ new).
      repeat split; [exact Ho | | exact Hcnt | eauto | discriminate].
      unfold frame_indices in *. rewrite omap_app.
      fold (frame_indices (frame_of X u)). rewrite frame_indices_frame_of.
      simpl. now rewrite Hidx.
    + destruct Hout as [Hout ->]. rewrite Hout in Ho.
      exists new. repeat split; [exact Ho | exact Hidx | exact Hcnt | | discriminate].
      intros ->. discriminate.
Qed.

End Writes_succeed.

(** A run that returns made some number of turns. *)
Lemma simulate_loop_turns (args : args_t D) :
  forall (fuel : nat) (frame_nb : Z) (u u' : universe_t D) (w w' : world X),
    simulate_loop X fuel args frame_nb u w = Ok (u', w') ->
    exists n, (n < fuel)%nat /\ runs_for args n (time u) = true.
Proof.
  induction fuel as [|fuel IH]; intros frame_nb u u' w w' Hrun;
    simpl in Hrun; [discriminate|].
  destruct (dltb (time u) (max_time args)) eqn:Hlt.
  - apply obind_Ok in Hrun as ([[u1 w1] fn1] & Hf & Hrun).
    apply obind_Ok in Hrun as (u2 & Hi & Hrun).
    apply IH in Hrun as (n & Hn & Hr). exists (S n). split; [lia|].
    simpl. rewrite Hlt. simpl.
    replace (dadd (time u) (timestep args)) with (time (tick args u2)); [exact Hr|].
    apply universe_iterate_frame in Hi. rewrite Hi. simpl.
    unfold simulate_frame in Hf. destruct (frame_nb =? 0).
    + apply obind_Ok in Hf as ([u1' w1'] & Hp & Hf). injection Hf as <- <- <-.
      assert (Ht : time u1' = time u); [|now rewrite Ht].
      revert Hp. unfold universe_printstate. intros Hp.
      apply (for_loop_inv (fun _ st => time (fst st) = time u)) in Hp; [exact Hp| |].
      * unfold emit. destruct (fprintf X w) as [[] ?]; reflexivity.
      * intros k [t wt] t' _ Ht Hb. unfold printstate_atom in Hb. simpl in *.
        destruct (atom t !! k); [|discriminate]. injection Hb as <-.
        unfold emit. destruct (fprintf X wt) as [[] ?]; simpl; exact Ht.
    + injection Hf as <- <- <-. reflexivity.
  - exists 0%nat. split; [lia|]. simpl. now rewrite Hlt.
Qed.

(** Only a failing integration step makes the run return NULL. *)
Lemma simulate_loop_not_Null (args : args_t D) :
  (forall u, universe_iterate X u args <> Null) ->
  forall (fuel : nat) (frame_nb : Z) (u : universe_t D) (w : world X),
    simulate_loop X fuel args frame_nb u w <> Null.
Proof.
  intros Hit. induction fuel as [|fuel IH]; intros frame_nb u w; simpl; [discriminate|].
  destruct (dltb (time u) (max_time args)); [|discriminate].
  unfold simulate_frame. destruct (frame_nb =? 0).
  - pose proof (universe_printstate_not_Null u w) as Hp.
    destruct (universe_printstate X u w) as [[u1 w1]| | |]; simpl; try discriminate;
      [|congruence].
    specialize (Hit u1).
    destruct (universe_iterate X u1 args) as [u2| | |]; simpl; try discriminate;
      [apply IH|congruence].
  - simpl. specialize (Hit u).
    destruct (universe_iterate X u args) as [u2| | |]; simpl; try discriminate;
      [apply IH|congruence].
Qed.

End Simulate.

(** ** The driver loop returns *)

Section Driver_returns.
Context {D : Type} {DD : Double D} (X : externals D).

Lemma for_loop_returns {S : Type} (Q : S -> Prop) (body : nat -> S -> outcome S) :
  forall (n start : nat) (s : S),
    Q s ->
    (forall k t, (start <= k < start + n)%nat -> Q t ->
                 exists t', body k t = Ok t' /\ Q t') ->
    exists s', for_loop n start body s = Ok s' /\ Q s'.
Proof.
  induction n as [|n IH]; intros start s Hs Hbody; simpl.
  - eauto.
  - destruct (Hbody start s) as (t & Hb & Ht); [lia|exact Hs|].
    rewrite Hb. simpl. apply IH; [exact Ht|].
    intros k t0 Hk. apply Hbody. lia.
Qed.

Lemma atom_pass_returns f (u : universe_t D) :
  (forall t i, f t i <> None) ->
  forall k t, same_extent u t ->
    exists t', atom_pass f k t = Ok t' /\ same_extent u t'.
Proof.
  intros Hf k t [Hn Hl]. unfold atom_pass. specialize (Hf t k).
  destruct (f t k) as [a|]; [|congruence].
  eexists. split; [reflexivity|]. split; simpl; [exact Hn|].
  now rewrite length_insert.
Qed.

Lemma enforce_pbc_pass_returns (u : universe_t D) :
  (forall t i, atom_enforce_pbc X t i <> None) ->
  atoms_allocated u ->
  forall k t, (k < atom_nb u)%nat -> same_extent u t ->
    exists t', enforce_pbc_pass X k t = Ok t' /\ same_extent u t'.
Proof.
  intros Hf Hu k t Hk [Hn Hl]. unfold enforce_pbc_pass.
  destruct (lookup_lt_is_Some_2 (atom t) k) as [a Ha].
  { rewrite Hl. unfold atoms_allocated in Hu. lia. }
  rewrite Ha. specialize (Hf t k).
  destruct (atom_enforce_pbc X t k) as [q|]; [|congruence].
  eexists. split; [reflexivity|]. split; simpl; [exact Hn|].
  now rewrite length_insert.
Qed.

Lemma same_extent_refl (u : universe_t D) : same_extent u u.
Proof. now split. Qed.

Lemma universe_iterate_returns (args : args_t D) (u : universe_t D) :
  atom_routines_succeed X -> atoms_allocated u ->
  exists u', universe_iterate X u args = Ok u' /\ same_extent u u'.
Proof.
  intros (Hpos & Hnum & Hana & Hacc & Hvel & Hpbc) Hu. unfold universe_iterate.
  destruct (for_loop_returns (same_extent u)
              (atom_pass (fun u i => atom_update_pos X u args i))
              (atom_nb u) 0 u (same_extent_refl u)) as (u1 & -> & H1).
  { intros k t _. apply atom_pass_returns. intros ? ?. apply Hpos. }
  simpl.
  destruct (for_loop_returns (same_extent u) (enforce_pbc_pass X)
              (atom_nb u) 0 u1 H1) as (u2 & -> & H2).
  { intros k t Hk. apply enforce_pbc_pass_returns; [exact Hpbc|exact Hu|lia]. }
  simpl.
  assert (H3 : exists u3,
    (if numerical args =? MODE_NUMERICAL X
     then for_loop (atom_nb u) 0 (atom_pass (atom_update_frc_numerical X)) u2
     else for_loop (atom_nb u) 0 (atom_pass (atom_update_frc_analytical X)) u2)
    = Ok u3 /\ same_extent u u3).
  { destruct (numerical args =? MODE_NUMERICAL X);
      (apply for_loop_returns; [exact H2|]); intros k t _;
      apply atom_pass_returns; assumption. }
  destruct H3 as (u3 & -> & H3). simpl.
  destruct (for_loop_returns (same_extent u) (atom_pass (atom_update_acc X))
              (atom_nb u) 0 u3 H3) as (u4 & -> & H4).
  { intros k t _. apply atom_pass_returns. exact Hacc. }
  simpl.
  apply for_loop_returns; [exact H4|].
  intros k t _. apply atom_pass_returns. intros ? ?. apply Hvel.
Qed.

(** Whatever the writes do, [universe_printstate] returns, and touches
    the file only. *)
Lemma universe_printstate_returns (u : universe_t D) (w : world X) :
  atoms_allocated u ->
  exists u' w', universe_printstate X u w = Ok (u', w') /\
                u' = set_output_file u (output_file u').
Proof.
  intros Hu. unfold universe_printstate.
  destruct (for_loop_returns
              (fun st : universe_t D * world X =>
                 fst st = set_output_file u (output_file (fst st)))
              (printstate_atom X) (atom_nb u) 0
              (emit X (Header (atom_nb u) (iterations u)) (u, w)))
    as ([u' w'] & Hrun & Hq).
  - unfold emit. destruct (fprintf X w) as [[] w1]; simpl; now destruct u.
  - intros k [t wt] Hk Ht. cbn [fst] in Ht. unfold printstate_atom. cbn [fst].
    destruct (lookup_lt_is_Some_2 (atom t) k) as [a Ha].
    { rewrite Ht. simpl. unfold atoms_allocated in Hu. lia. }
    rewrite Ha. eexists. split; [reflexivity|].
    unfold emit. destruct (fprintf X wt) as [[] w1]; cbn [fst]; [|exact Ht].
    rewrite Ht at 1. reflexivity.
  - exists u', w'. split; [exact Hrun|exact Hq].
Qed.

(** The loop that is due to make [n] turns returns once it is given more
    than [n] turns of fuel. *)
Lemma simulate_loop_returns (args : args_t D) :
  atom_routines_succeed X ->
  forall (n fuel : nat) (frame_nb : Z) (u : universe_t D) (w : world X),
    (n < fuel)%nat ->
    runs_for args n (time u) = true ->
    atoms_allocated u ->
    exists u' w', simulate_loop X fuel args frame_nb u w = Ok (u', w').
Proof.
  intros HX. induction n as [|n IH]; intros fuel frame_nb u w Hfuel Hn Hu;
    (destruct fuel as [|fuel]; [lia|]); simpl in *.
  - destruct (dltb (time u) (max_time args)); [discriminate|]. eauto.
  - apply andb_prop in Hn as [Hlt Hn]. rewrite Hlt.
    assert (Hf : exists u1 w1 fn1,
               simulate_frame X args frame_nb u w = Ok (u1, w1, fn1) /\
               time u1 = time u /\ atoms_allocated u1).
    { unfold simulate_frame. destruct (frame_nb =? 0).
      - destruct (universe_printstate_returns u w Hu) as (u1 & w1 & -> & Hu1).
        simpl. exists u1, w1, (u64 (frameskip args)).
        split; [reflexivity|]. rewrite Hu1. split; [reflexivity|exact Hu].
      - exists u, w, (u64 (frame_nb - 1)). now repeat split. }
    destruct Hf as (u1 & w1 & fn1 & -> & Ht1 & Hu1). simpl.
    destruct (universe_iterate_returns args u1 HX Hu1) as (u2 & Hi & Hn2 & Hl2).
    rewrite Hi. simpl. apply IH; [lia| |].
    + apply universe_iterate_frame in Hi. rewrite Hi. simpl. now rewrite Ht1.
    + unfold atoms_allocated in *. simpl. lia.
Qed.

End Driver_returns.

(** ** Frame-skip emission *)

Lemma frame_schedule_index (skip : Z) :
  forall (n : nat) (frame_nb it i : Z),
    i ∈ frame_schedule skip n frame_nb it ->
    exists k, (k < n)%nat /\ i = Nat.iter k (fun j => u64 (j + 1)) it.
Proof.
  induction n as [|n IH]; intros frame_nb it i; simpl.
  - intros H. inversion H.
  - assert (Htail : forall fn, i ∈ frame_schedule skip n fn (u64 (it + 1)) ->
              exists k, (k < S n)%nat /\ i = Nat.iter k (fun j => u64 (j + 1)) it).
    { intros fn H. apply IH in H as (k & Hk & ->). exists (S k). split; [lia|].
      now rewrite Nat.iter_succ_r. }
    destruct (frame_nb =? 0); [|apply Htail].
    intros H. apply elem_of_cons in H as [->|H]; [|eapply Htail; exact H].
    exists 0%nat. split; [lia|reflexivity].
Qed.

Lemma iter_u64_succ (k : nat) (it : Z) :
  0 <= it -> it + Z.of_nat k < 2 ^ 64 ->
  Nat.iter k (fun j => u64 (j + 1)) it = it + Z.of_nat k.
Proof.
  induction k as [|k IH]; intros Hit Hk.
  - simpl. lia.
  - rewrite Nat.iter_succ, IH by lia. unfold u64.
    rewrite Z.mod_small by lia. lia.
Qed.

(** C2, as the code has it.  With frameskip = 4, a run of
    [universe_simulate] that makes exactly 20 turns from iteration 0 and an
    empty file returns as soon as it is given more than 20 turns (the atom
    routines not failing), and whenever it returns, with every write
    having succeeded, exactly 4 frames have been written, carrying the
    iteration indices 0, 5, 10 and 15; the counter then reads 20. *)
Theorem frameskip_four_frames {D : Type} {DD : Double D} (X : externals D)
    (args : args_t D) (u : universe_t D) (w : world X) :
  frameskip args = 4 ->
  runs_for args 20 (time u) = true ->
  iterations u = 0 ->
  output_file u = [] ->
  (atom_routines_succeed X -> atoms_allocated u ->
   forall fuel, (20 < fuel)%nat ->
     exists u' w', universe_simulate X fuel u args w = Ok (u', w')) /\
  ((forall w, fst (fprintf X w) = true) ->
   forall fuel u' w',
     universe_simulate X fuel u args w = Ok (u', w') ->
     frame_indices (output_file u') = [0; 5; 10; 15] /\
     iterations u' = 20).
Proof.
  intros Hskip Hruns Hit Hout. split.
  - intros HX Hu fuel Hfuel. unfold universe_simulate.
    eapply simulate_loop_returns; eassumption.
  - intros Hw fuel u' w' Hrun. unfold universe_simulate in Hrun.
    destruct (simulate_loop_trace X Hw args 20 fuel 0 u u' w w' Hruns Hrun)
      as (new & Ho & Hidx & Hcnt & _).
    rewrite Hout in Ho. simpl in Ho. rewrite Ho, Hidx, Hcnt, Hskip, Hit.
    split; vm_compute; reflexivity.
Qed.

Lemma demo_routines_succeed heap write_ok potential :
  atom_routines_succeed (Demo.env heap write_ok potential).
Proof. repeat split; intros; discriminate. Defined.

Lemma demo_gas_allocated (n : nat) : atoms_allocated (Demo.gas n).
Proof. unfold atoms_allocated. simpl. rewrite length_replicate. lia. Defined.

(** Twenty steps of unit length up to max_time = 20 on two atoms. *)
Lemma frameskip_four_frames_witness :
  frameskip Demo.twenty_steps = 4 /\
  runs_for Demo.twenty_steps 20 (time (Demo.gas 2)) = true /\
  exists u' w',
    universe_simulate Demo.slope_env 21 (Demo.gas 2) Demo.twenty_steps 0%nat
      = Ok (u', w') /\
    frame_indices (output_file u') = [0; 5; 10; 15] /\
    iterations u' = 20.
Proof.
  assert (Hruns : runs_for Demo.twenty_steps 20 (time (Demo.gas 2)) = true)
    by (vm_compute; reflexivity).
  split; [reflexivity|]. split; [exact Hruns|].
  destruct (frameskip_four_frames Demo.slope_env Demo.twenty_steps (Demo.gas 2)
              0%nat eq_refl Hruns eq_refl eq_refl) as [Hret Hres].
  destruct (Hret (demo_routines_succeed _ _ _) (demo_gas_allocated 2) 21%nat)
    as (u' & w' & Hrun); [lia|].
  exists u', w'. split; [exact Hrun|].
  apply (Hres (fun _ => eq_refl) 21%nat u' w' Hrun).
Defined.

(** C2 fails as stated: the same run, 20 steps with frameskip = 4, writes
    the four frames 0, 5, 10, 15 and not a fifth one for iteration 20. *)
Lemma frameskip_five_frames_counterexample :
  exists st,
    universe_simulate Demo.slope_env 21 (Demo.gas 2) Demo.twenty_steps 0%nat
      = Ok st /\
    frameskip Demo.twenty_steps = 4 /\
    runs_for Demo.twenty_steps 20 (time (Demo.gas 2)) = true /\
    iterations (fst st) = 20 /\
    length (frame_indices (output_file (fst st))) = 4%nat /\
    frame_indices (output_file (fst st)) <> [0; 5; 10; 15; 20].
Proof.
  eexists. split; [vm_compute; reflexivity|].
  repeat split; try (vm_compute; reflexivity).
  vm_compute. discriminate.
Qed.

(** C10 (frames precede steps).  Take a run of [universe_simulate] that
    returns, every write having succeeded, and let [n] be the number of
    turns its loop made.  Each of the frames it wrote carries the value the
    iteration counter had before one of the [n] integration steps, hence an
    index below the final value of the counter: the universe left by the
    last step is not in the file.  When [n > 0] the first frame written is
    the frame of the universe the run was entered with (iteration index
    [iterations u], which is 0 after [universe_init]); when [n = 0], that is
    when [time < max_time] fails on entry, the loop exits without writing
    anything. *)
Theorem frames_precede_steps {D : Type} {DD : Double D} (X : externals D)
    (args : args_t D) (fuel : nat) (u u' : universe_t D) (w w' : world X) :
  (forall w, fst (fprintf X w) = true) ->
  0 <= iterations u ->
  iterations u + Z.of_nat fuel < 2 ^ 64 ->
  universe_simulate X fuel u args w = Ok (u', w') ->
  exists (n : nat) (new : list (out_line D)),
    runs_for args n (time u) = true /\
    output_file u' = output_file u ++ new /\
    iterations u' = iterations u + Z.of_nat n /\
    (forall i, i ∈ frame_indices new -> iterations u <= i < iterations u') /\
    ((0 < n)%nat -> exists rest, new = frame_of X u ++ rest) /\
    (n = 0%nat -> new = [] /\ u' = u).
Proof.
  intros Hw Hit Hfuel Hrun. unfold universe_simulate in Hrun.
  destruct (simulate_loop_turns X args _ _ _ _ _ _ Hrun) as (n & Hn & Hruns).
  destruct (simulate_loop_trace X Hw args n fuel 0 u u' w w' Hruns Hrun)
    as (new & Ho & Hidx & Hcnt & Hfirst & Hnone).
  rewrite iter_u64_succ in Hcnt by lia.
  exists n, new.
  split; [exact Hruns|]. split; [exact Ho|]. split; [exact Hcnt|].
  split; [|split].
  - intros i H. rewrite Hidx in H.
    apply frame_schedule_index in H as (k & Hk & ->).
    rewrite iter_u64_succ by lia. lia.
  - exact (Hfirst eq_refl).
  - intros ->. split; [now apply Hnone|].
    destruct fuel as [|fuel]; simpl in Hrun; [discriminate|].
    simpl in Hruns. destruct (dltb (time u) (max_time args)); [discriminate|].
    now injection Hrun as <- <-.
Qed.

(** Two steps, each printed: the file opens with the frame of the initial
    universe. *)
Lemma frames_precede_steps_witness :
  exists st (n : nat) new,
    universe_simulate Demo.slope_env 5 (Demo.gas 2) Demo.two_steps 0%nat = Ok st /\
    runs_for Demo.two_steps n (time (Demo.gas 2)) = true /\
    output_file (fst st) = output_file (Demo.gas 2) ++ new /\
    iterations (fst st) = iterations (Demo.gas 2) + Z.of_nat n /\
    (forall i, i ∈ frame_indices new ->
               iterations (Demo.gas 2) <= i < iterations (fst st)) /\
    ((0 < n)%nat -> exists rest, new = frame_of Demo.slope_env (Demo.gas 2) ++ rest) /\
    (n = 0%nat -> new = [] /\ fst st = Demo.gas 2).
Proof.
  eexists.
  assert (Hrun : universe_simulate Demo.slope_env 5 (Demo.gas 2) Demo.two_steps
                   0%nat = Ok _) by (vm_compute; reflexivity).
  destruct (frames_precede_steps Demo.slope_env Demo.two_steps 5 (Demo.gas 2) _
              0%nat _ (fun _ => eq_refl) ltac:(simpl; lia) ltac:(simpl; lia) Hrun)
    as (n & new & H).
  exists n, new. split; [exact Hrun|exact H].
Defined.

(** ** Frame writes are not checked *)

Lemma universe_iterate_not_Null {D : Type} {DD : Double D} (X : externals D)
    (args : args_t D) :
  atom_routines_succeed X -> forall u, universe_iterate X u args <> Null.
Proof.
  intros (Hpos & Hnum & Hana & Hacc & Hvel & Hpbc) u.
  assert (Hpass : forall f, (forall t i, f t i <> None) ->
            forall n s (t : universe_t D), for_loop n s (atom_pass f) t <> Null).
  { intros f Hf. apply for_loop_not_Null. intros k t. unfold atom_pass.
    specialize (Hf t k). destruct (f t k); congruence. }
  assert (Hp : forall n s (t : universe_t D),
            for_loop n s (enforce_pbc_pass X) t <> Null).
  { apply for_loop_not_Null. intros k t. unfold enforce_pbc_pass.
    destruct (atom t !! k); [|discriminate].
    specialize (Hpbc t k). destruct (atom_enforce_pbc X t k); congruence. }
  unfold universe_iterate.
  repeat match goal with
  | |- obind ?o _ <> Null =>
    let H := fresh in let Ho := fresh in
    assert (H : o <> Null);
    [ first [ apply Hp | destruct (numerical args =? MODE_NUMERICAL X) ];
      apply Hpass; first [ assumption | intros ? ?; auto ]
    | destruct o eqn:Ho; simpl; try discriminate; try congruence; clear H Ho ]
  end.
  apply Hpass. intros ? ?. auto.
Qed.

(** C4, as the code has it.  [universe_printstate] never returns NULL,
    whatever becomes of its writes; when its writes succeed it appends the
    whole frame of the universe and changes nothing else; and
    [universe_simulate], whose atom routines do not fail, never returns
    NULL, so no write failure aborts the run. *)
Theorem frame_writes_unchecked {D : Type} {DD : Double D} (X : externals D)
    (args : args_t D) :
  (forall u w, universe_printstate X u w <> Null) /\
  ((forall w, fst (fprintf X w) = true) ->
   forall u w u' w',
     universe_printstate X u w = Ok (u', w') ->
     u' = set_output_file u (output_file u ++ frame_of X u)) /\
  (atom_routines_succeed X ->
   forall fuel u w, universe_simulate X fuel u args w <> Null).
Proof.
  split; [|split].
  - apply universe_printstate_not_Null.
  - intros Hw u w u' w'. now apply universe_printstate_frame.
  - intros HX fuel u w. unfold universe_simulate.
    apply simulate_loop_not_Null. now apply universe_iterate_not_Null.
Qed.

(** With the write of the first atom line failing, the run goes on all the
    same and returns the universe. *)
Lemma frame_writes_unchecked_witness :
  atom_routines_succeed Demo.lossy_env /\
  universe_simulate Demo.lossy_env 5 (Demo.gas 2) Demo.two_steps 0%nat <> Null /\
  universe_printstate Demo.lossy_env (Demo.gas 2) 0%nat <> Null /\
  (forall w, fst (fprintf Demo.slope_env w) = true) /\
  exists u' w',
    universe_printstate Demo.slope_env (Demo.gas 2) 0%nat = Ok (u', w') /\
    u' = set_output_file (Demo.gas 2)
           (output_file (Demo.gas 2) ++ frame_of Demo.slope_env (Demo.gas 2)).
Proof.
  split; [apply demo_routines_succeed|].
  split; [apply (proj2 (proj2 (frame_writes_unchecked Demo.lossy_env Demo.two_steps))
                   (demo_routines_succeed _ _ _))|].
  split; [apply (proj1 (frame_writes_unchecked Demo.lossy_env Demo.two_steps))|].
  split; [intros w; reflexivity|].
  eexists _, _.
  assert (Hp : universe_printstate Demo.slope_env (Demo.gas 2) 0%nat = Ok (_, _))
    by (vm_compute; reflexivity).
  split; [exact Hp|].
  exact (proj1 (proj2 (frame_writes_unchecked Demo.slope_env Demo.two_steps))
           (fun _ => eq_refl) _ _ _ _ Hp).
Defined.

(** C4 fails as stated: the second write of the run fails, the first frame
    reaches the file without the line of its first atom, and the run
    neither aborts nor reports it: it integrates, writes the next frame,
    integrates again and returns the universe. *)
Lemma partial_frame_counterexample :
  exists st,
    universe_simulate Demo.lossy_env 5 (Demo.gas 2) Demo.two_steps 0%nat = Ok st /\
    iterations (fst st) = 2 /\
    output_file (fst st)
      = [ Header 2 0;
          AtomLine "H" 0%float 0%float 0%float;
          Header 2 1;
          AtomLine "H" 0%float 0%float 0%float;
          AtomLine "H" 0%float 0%float 0%float ] /\
    well_framed (output_file (fst st)) = false.
Proof.
  eexists. split; [vm_compute; reflexivity|].
  repeat split; vm_compute; reflexivity.
Qed.

(** ** Thermal velocities *)

Section Setvelocity.
Context {D : Type} {DD : Double D} (X : externals D).

(** The first loop of [universe_setvelocity] adds up the masses of the
    reference atoms. *)
Lemma mass_mol_of_sum (u : universe_t D) (m : D) :
  mass_mol_of X u = Ok m -> m = molecular_mass X u.
Proof.
  unfold mass_mol_of, molecular_mass. intros Hrun.
  apply (for_loop_inv
           (fun k m => m = foldl (fun m r => dadd m (model_mass X (element r)))
                                 dzero (take k (ref_atom u)))) in Hrun.
  - exact Hrun.
  - reflexivity.
  - intros k t t' _ -> Hb. unfold mass_mol_step in Hb.
    destruct (ref_atom u !! k) as [r|] eqn:Hr; [|discriminate].
    injection Hb as <-. rewrite (take_S_r _ _ _ Hr), foldl_app. reflexivity.
Qed.

(** The second loop gives every live atom the velocity [vec * velocity],
    [vec] being what the sampler returned for that atom. *)
Lemma setvelocity_loop (velocity : D) (u u' : universe_t D) (w w' : world X) :
  for_loop (atom_nb u) 0 (setvelocity_atom X velocity) (u, w) = Ok (u', w') ->
  forall i, (i < atom_nb u)%nat ->
    exists a0 wi,
      atom u !! i = Some a0 /\
      atom u' !! i
        = Some (set_vel a0 (vec3d_mul (fst (vec3d_marsaglia X wi)) velocity)).
Proof.
  intros Hrun.
  pose (P := fun (k : nat) (st : universe_t D * world X) =>
    length (atom (fst st)) = length (atom u) /\
    (forall i, (k <= i)%nat -> atom (fst st) !! i = atom u !! i) /\
    (forall i, (i < k)%nat -> exists a0 wi,
        atom u !! i = Some a0 /\
        atom (fst st) !! i
          = Some (set_vel a0 (vec3d_mul (fst (vec3d_marsaglia X wi)) velocity)))).
  enough (HP : P (0 + atom_nb u)%nat (u', w')) by (apply HP).
  eapply (for_loop_inv P); [exact Hrun | |].
  - unfold P. simpl. repeat split. intros i Hi. lia.
  - intros k [t wt] [t' wt'] _ (Hlen & Hrest & Hdone) Hb. simpl in *.
    unfold setvelocity_atom in Hb.
    destruct (vec3d_marsaglia X wt) as [vec w1] eqn:Hs.
    destruct (atom t !! k) as [a|] eqn:Ha; [|discriminate].
    injection Hb as <- <-. unfold P. simpl.
    assert (Hk : (k < length (atom t))%nat) by (eapply lookup_lt_Some; eauto).
    split; [now rewrite length_insert|]. split.
    + intros i Hi. rewrite list_lookup_insert_ne by lia. apply Hrest. lia.
    + intros i Hi. destruct (decide (i = k)) as [->|Hne].
      * rewrite list_lookup_insert_eq by exact Hk.
        exists a, wt. rewrite Hs. simpl. split; [|reflexivity].
        rewrite <- Ha. symmetry. apply Hrest. lia.
      * rewrite list_lookup_insert_ne by congruence. apply Hdone. lia.
Qed.

End Setvelocity.

(** In exact arithmetic, scaling a unit vector by a non-negative factor
    gives a vector of that magnitude. *)
Lemma vec3d_mag_mul_unit (v : vec3d_t R) (s : R) :
  vec3d_mag v = 1%R -> (0 <= s)%R -> vec3d_mag (vec3d_mul v s) = s.
Proof.
  destruct v as [a b c]. unfold vec3d_mag, vec3d_mul. simpl. intros Hu Hs.
  replace (a * s * (a * s) + b * s * (b * s) + c * s * (c * s))%R
    with ((s * s) * (a * a + b * b + c * c))%R by ring.
  rewrite sqrt_mult_alt by (apply Rle_0_sqr).
  rewrite Hu, sqrt_square by exact Hs. ring.
Qed.

(** The velocity that [universe_setvelocity] gives to a live atom, in any
    arithmetic. *)
Lemma setvelocity_velocities {D : Type} {DD : Double D} (X : externals D)
    (u u' : universe_t D) (w w' : world X) :
  universe_setvelocity X u w = Ok (u', w') ->
  forall i, (i < atom_nb u)%nat ->
    exists a wi,
      atom u' !! i = Some a /\
      vel a = vec3d_mul (fst (vec3d_marsaglia X wi))
                (dsqrt (ddiv (dmul (dmul d3 (C_BOLTZMANN X)) (temperature u))
                             (molecular_mass X u))).
Proof.
  intros Hrun i Hi. unfold universe_setvelocity in Hrun.
  apply obind_Ok in Hrun as (m & Hm & Hrun).
  apply mass_mol_of_sum in Hm. subst m.
  destruct (setvelocity_loop X _ u u' w w' Hrun i Hi) as (a0 & wi & _ & Ha).
  eexists _, wi. split; [exact Ha|]. now destruct a0.
Qed.




(** In exact arithmetic, which is not the arithmetic of the program, the
    sampler returning unit vectors: the speed of every live atom is
    [v]. *)
Lemma setvelocity_speed_exact (X : externals R) (u u' : universe_t R)
    (w w' : world X) :
  (forall w, vec3d_mag (fst (vec3d_marsaglia X w)) = 1%R) ->
  universe_setvelocity X u w = Ok (u', w') ->
  forall i, (i < atom_nb u)%nat ->
    exists a,
      atom u' !! i = Some a /\
      vec3d_mag (vel a)
        = sqrt (3 * C_BOLTZMANN X * temperature u / molecular_mass X u).
Proof.
  intros Hunit Hrun i Hi.
  destruct (setvelocity_velocities X u u' w w' Hrun i Hi) as (a & wi & Ha & Hv).
  exists a. split; [exact Ha|].
  rewrite Hv. apply vec3d_mag_mul_unit; [apply Hunit|]. apply sqrt_pos.
Qed.

(** Two atoms of mass 1 at temperature 300 with a Boltzmann constant of
    1, the vectors drawn lying along x. *)
Example setvelocity_speed_exact_gas :
  exists st a,
    universe_setvelocity DemoR.env DemoR.gas 0%nat = Ok st /\
    atom (fst st) !! 1%nat = Some a /\
    vec3d_mag (vel a)
      = sqrt (3 * 1 * 300 / molecular_mass DemoR.env DemoR.gas).
Proof.
  assert (Hunit : forall w, vec3d_mag (fst (vec3d_marsaglia DemoR.env w)) = 1%R).
  { intros w. unfold vec3d_mag. simpl.
    replace (1 * 1 + 0 * 0 + 0 * 0)%R with 1%R by ring. apply sqrt_1. }
  eexists.
  assert (Hrun : universe_setvelocity DemoR.env DemoR.gas 0%nat = Ok (_, _))
    by reflexivity.
  destruct (setvelocity_speed_exact DemoR.env DemoR.gas _ 0%nat _ Hunit Hrun
              1%nat ltac:(simpl; lia)) as (a & Ha & Hm).
  exists a. split; [exact Hrun|]. split; [exact Ha|exact Hm].
Qed.

(** ** Populating the box *)

Lemma idx_u64_of_nat (n : nat) : Z.of_nat n < 2 ^ 64 -> idx (u64 (Z.of_nat n)) = n.
Proof.
  intros H. unfold idx, u64. rewrite Z.mod_small by lia. apply Nat2Z.id.
Qed.

Section Populate.
Context {D : Type} {DD : Double D} (X : externals D).

(** The loop that loads the bond information of one duplicate. *)
Lemma populate_bonds_loop (reference : atom_t D) (offset : Z) (dup d : atom_t D) :
  forall n,
    bond dup = replicate n None ->
    bond_strength dup = replicate n None ->
    for_loop n 0 (populate_bond reference offset) dup = Ok d ->
    d = set_bond_strength
          (set_bond dup (map (fmap (fun p => u64 (p + offset)))
                             (take n (bond reference))))
          (take n (bond_strength reference)).
Proof.
  intros n Hb Hs Hrun.
  pose (P := fun (k : nat) (t : atom_t D) =>
    (k <= n)%nat /\
    t = set_bond_strength
          (set_bond dup (map (fmap (fun p => u64 (p + offset)))
                             (take k (bond reference))
                         ++ replicate (n - k) None))
          (take k (bond_strength reference) ++ replicate (n - k) None)).
  assert (HP : P (0 + n)%nat d).
  { eapply (for_loop_inv P); [exact Hrun | |].
    - unfold P. split; [lia|]. rewrite !take_0, Nat.sub_0_r. simpl.
      rewrite <- Hb, <- Hs. now destruct dup.
    - intros k t t' Hk [_ ->] Hbody. unfold populate_bond in Hbody.
      destruct (bond reference !! k) as [b|] eqn:Hbk; [|discriminate].
      destruct (bond_strength reference !! k) as [s|] eqn:Hsk; [|discriminate].
      injection Hbody as <-. unfold P. split; [lia|]. simpl.
      assert (Hlb : length (take k (bond reference)) = k).
      { rewrite length_take. apply lookup_lt_Some in Hbk. lia. }
      assert (Hls : length (take k (bond_strength reference)) = k).
      { rewrite length_take. apply lookup_lt_Some in Hsk. lia. }
      replace (n - k)%nat with (S (n - S k)) by lia. simpl.
      unfold set_bond_strength, set_bond. simpl. f_equal.
      + rewrite (take_S_r _ _ _ Hbk), map_app. simpl.
        rewrite <- app_assoc. simpl.
        rewrite insert_app_r_alt by (rewrite length_map; lia).
        rewrite length_map, Hlb, Nat.sub_diag. reflexivity.
      + rewrite (take_S_r _ _ _ Hsk), <- app_assoc. simpl.
        rewrite insert_app_r_alt by lia.
        rewrite Hls, Nat.sub_diag. reflexivity. }
  destruct HP as [_ ->]. simpl. rewrite Nat.sub_diag. simpl.
  now rewrite !app_nil_r.
Qed.

(** One reference atom copied into copy [i]. *)
Lemma populate_atom_spec (i : nat) (pos_offset : vec3d_t D) (ii : nat)
    (u u' : universe_t D) (w w' : world X) :
  Z.of_nat (i * ref_atom_nb u + ii) < 2 ^ 64 ->
  populate_atom X i pos_offset ii (u, w) = Ok (u', w') ->
  exists reference duplicate,
    ref_atom u !! ii = Some reference /\
    atom u !! (i * ref_atom_nb u + ii)%nat = Some duplicate /\
    u' = set_atom u
           (<[(i * ref_atom_nb u + ii)%nat :=
                duplicate_of i (ref_atom_nb u) pos_offset reference duplicate]>
              (atom u)).
Proof.
  intros Hsmall. unfold populate_atom.
  replace (Z.of_nat i * Z.of_nat (ref_atom_nb u) + Z.of_nat ii)
    with (Z.of_nat (i * ref_atom_nb u + ii)) by lia.
  rewrite idx_u64_of_nat by exact Hsmall.
  destruct (ref_atom u !! ii) as [reference|]; [|discriminate].
  destruct (atom u !! (i * ref_atom_nb u + ii)%nat) as [duplicate|]; [|discriminate].
  intros H. apply obind_Ok in H as (w1 & _ & H).
  apply obind_Ok in H as (w2 & _ & H).
  apply obind_Ok in H as (d & Hloop & H). injection H as <- <-.
  exists reference, duplicate. repeat split.
  apply populate_bonds_loop in Hloop; [|reflexivity|reflexivity].
  subst d. reflexivity.
Qed.

Lemma flat_index_inj (r i ii i' ii' : nat) :
  (ii < r)%nat -> (ii' < r)%nat ->
  (i * r + ii = i' * r + ii')%nat -> i = i' /\ ii = ii'.
Proof.
  intros H H' He. destruct (Nat.lt_trichotomy i i') as [Hlt|[->|Hlt]].
  - assert (S i * r <= i' * r)%nat by (apply Nat.mul_le_mono_r; lia).
    simpl in *. lia.
  - lia.
  - assert (S i' * r <= i * r)%nat by (apply Nat.mul_le_mono_r; lia).
    simpl in *. lia.
Qed.

Lemma populate_copy_spec (i : nat) (u t t' : universe_t D) (w w' : world X) :
  Z.of_nat (copy_nb u * ref_atom_nb u) < 2 ^ 64 ->
  (i < copy_nb u)%nat ->
  populated_below u (i * ref_atom_nb u) t ->
  populate_copy X i (t, w) = Ok (t', w') ->
  populated_below u (S i * ref_atom_nb u) t'.
Proof.
  intros Hsmall Hi Ht. unfold populate_copy.
  destruct (vec3d_marsaglia X w) as [v w1]. destruct (rand X w1) as [r w2].
  set (off := vec3d_mul v _). intros Hrun.
  assert (Href : ref_atom_nb t = ref_atom_nb u)
    by (destruct Ht as [-> _]; reflexivity).
  rewrite Href in Hrun.
  pose (P := fun (k : nat) (st : universe_t D * world X) =>
              populated_below u (i * ref_atom_nb u + k) (fst st)).
  enough (HP : P (0 + ref_atom_nb u)%nat (t', w')).
  { unfold P in HP. simpl in HP.
    replace (S i * ref_atom_nb u)%nat with (i * ref_atom_nb u + ref_atom_nb u)%nat
      by lia. exact HP. }
  eapply (for_loop_inv P); [exact Hrun | |].
  - unfold P. simpl. now rewrite Nat.add_0_r.
  - intros k [s ws] [s' ws'] Hk Hs Hbody. unfold P in *. simpl in *.
    destruct Hs as (Hframe & Hlen & Hrest & Hdone).
    assert (Hrs : ref_atom_nb s = ref_atom_nb u) by (rewrite Hframe; reflexivity).
    assert (Hra : ref_atom s = ref_atom u) by (rewrite Hframe; reflexivity).
    apply populate_atom_spec in Hbody; [|rewrite Hrs; nia].
    destruct Hbody as (reference & duplicate & Hr & Hd & ->).
    rewrite Hrs in *. rewrite Hra in Hr.
    assert (Hlt : (i * ref_atom_nb u + k < length (atom s))%nat)
      by (eapply lookup_lt_Some; eauto).
    split; [rewrite Hframe; reflexivity|]. simpl.
    split; [now rewrite length_insert|]. split.
    + intros j Hj. rewrite list_lookup_insert_ne by lia. apply Hrest. lia.
    + intros i' ii' Hii' Hbelow.
      destruct (decide (i' * ref_atom_nb u + ii' = i * ref_atom_nb u + k)%nat)
        as [Heq|Hne].
      * apply flat_index_inj in Heq as [-> ->]; [|lia|lia].
        rewrite list_lookup_insert_eq by exact Hlt.
        exists off, reference, duplicate. repeat split; [exact Hr|].
        rewrite <- Hd. symmetry. apply Hrest. lia.
      * rewrite list_lookup_insert_ne by congruence. apply Hdone; [exact Hii'|lia].
Qed.

(** [universe_populate] puts, at index [i·R + ii], the duplicate of
    reference atom [ii] for copy [i]. *)
Lemma universe_populate_spec (u u' : universe_t D) (w w' : world X) :
  Z.of_nat (copy_nb u * ref_atom_nb u) < 2 ^ 64 ->
  universe_populate X u w = Ok (u', w') ->
  forall i ii, (i < copy_nb u)%nat -> (ii < ref_atom_nb u)%nat ->
    exists pos_offset reference duplicate,
      ref_atom u !! ii = Some reference /\
      atom u !! (i * ref_atom_nb u + ii)%nat = Some duplicate /\
      atom u' !! (i * ref_atom_nb u + ii)%nat
        = Some (duplicate_of i (ref_atom_nb u) pos_offset reference duplicate).
Proof.
  intros Hsmall Hrun i ii Hi Hii. unfold universe_populate in Hrun.
  pose (P := fun (k : nat) (st : universe_t D * world X) =>
              populated_below u (k * ref_atom_nb u) (fst st)).
  assert (HP : P (0 + copy_nb u)%nat (u', w')).
  { eapply (for_loop_inv P); [exact Hrun | |].
    - unfold P. simpl. split; [apply set_atom_id|]. split; [reflexivity|].
      split; [reflexivity|]. intros ? ? _ H. lia.
    - intros k [s ws] [s' ws'] Hk Hs Hbody. unfold P in *. simpl in *.
      eapply populate_copy_spec; try eassumption. lia. }
  destruct HP as (_ & _ & _ & Hdone). simpl in Hdone.
  apply Hdone; [exact Hii|]. nia.
Qed.

End Populate.

Lemma translate_in_copy (i r : nat) (p : Z) :
  Z.of_nat (S i * r) <= 2 ^ 64 -> 0 <= p < Z.of_nat r ->
  translate i r p = p + Z.of_nat i * Z.of_nat r /\
  copy_of r (translate i r p) = Z.of_nat i.
Proof.
  intros Hsmall Hp. unfold translate, copy_of, u64.
  assert (Hir : 0 <= Z.of_nat i * Z.of_nat r) by lia.
  assert (Hlt : p + Z.of_nat i * Z.of_nat r < 2 ^ 64) by nia.
  rewrite (Z.mod_small (Z.of_nat i * Z.of_nat r)) by lia.
  rewrite Z.mod_small by lia. split; [reflexivity|].
  rewrite Z.div_add by lia. rewrite Z.div_small by lia. lia.
Qed.

(** C7 (copy isomorphism).  After [universe_populate] has returned the
    universe, the live atom at index [i·R + ii] has the bond count of
    reference atom [ii], its partners each translated by [i·R], and its
    stiffness values unchanged.  Consequently, the partners of the
    reference atoms being reference indices, every partner of a live atom
    belongs to the copy of that atom: no bond joins two copies. *)
Theorem populate_copies_bonds {D : Type} {DD : Double D} (X : externals D)
    (u u' : universe_t D) (w w' : world X) :
  Z.of_nat (copy_nb u * ref_atom_nb u) < 2 ^ 64 ->
  universe_populate X u w = Ok (u', w') ->
  forall i ii, (i < copy_nb u)%nat -> (ii < ref_atom_nb u)%nat ->
    exists reference d,
      ref_atom u !! ii = Some reference /\
      atom u' !! (i * ref_atom_nb u + ii)%nat = Some d /\
      bond_nb d = bond_nb reference /\
      bond d = map (fmap (translate i (ref_atom_nb u)))
                   (take (bond_nb reference) (bond reference)) /\
      bond_strength d = take (bond_nb reference) (bond_strength reference) /\
      (ref_bonds_in_range u ->
       forall iii q, bond d !! iii = Some (Some q) ->
         exists p, bond reference !! iii = Some (Some p) /\
                   q = p + Z.of_nat i * Z.of_nat (ref_atom_nb u) /\
                   copy_of (ref_atom_nb u) q = Z.of_nat i).
Proof.
  intros Hsmall Hrun i ii Hi Hii.
  destruct (universe_populate_spec X u u' w w' Hsmall Hrun i ii Hi Hii)
    as (off & reference & duplicate & Hr & _ & Hd).
  exists reference, (duplicate_of i (ref_atom_nb u) off reference duplicate).
  split; [exact Hr|]. split; [exact Hd|]. simpl. repeat split.
  intros Hrange iii q Hq.
  rewrite list_lookup_fmap in Hq.
  destruct (take (bond_nb reference) (bond reference) !! iii) as [o|] eqn:Ho;
    [|discriminate].
  apply lookup_take_Some in Ho as [Ho Hiii].
  destruct o as [p|]; [|discriminate]. simpl in Hq. injection Hq as <-.
  exists p. split; [exact Ho|].
  destruct (translate_in_copy i (ref_atom_nb u) p) as [Ht Hc]; [nia| |].
  - eapply Hrange; eassumption.
  - rewrite Hc, Ht. split; reflexivity.
Qed.

Lemma dimer_box_in_range : ref_bonds_in_range Demo.dimer_box.
Proof.
  intros ii reference iii p Hr Hiii Hp.
  destruct ii as [|[|ii]]; simpl in Hr; try discriminate;
    injection Hr as <-; simpl in *;
    (destruct iii as [|iii]; [|lia]); simpl in Hp; injection Hp as <-; lia.
Defined.

(** The second atom of the second copy of the dimer: index 3, bonded to
    atom 2. *)
Lemma populate_copies_bonds_witness :
  exists st reference d,
    universe_populate Demo.slope_env Demo.dimer_box 0%nat = Ok st /\
    ref_atom Demo.dimer_box !! 1%nat = Some reference /\
    atom (fst st) !! 3%nat = Some d /\
    bond_nb d = bond_nb reference /\
    bond d = map (fmap (translate 1 2)) (take (bond_nb reference) (bond reference)) /\
    bond_strength d = take (bond_nb reference) (bond_strength reference) /\
    bond d = [Some 2] /\
    (forall iii q, bond d !! iii = Some (Some q) ->
       exists p, bond reference !! iii = Some (Some p) /\
                 q = p + 1 * 2 /\ copy_of 2 q = 1).
Proof.
  eexists.
  assert (Hrun : universe_populate Demo.slope_env Demo.dimer_box 0%nat = Ok (_, _))
    by (vm_compute; reflexivity).
  destruct (populate_copies_bonds Demo.slope_env Demo.dimer_box _ 0%nat _
              ltac:(simpl; lia) Hrun 1%nat 1%nat ltac:(simpl; lia) ltac:(simpl; lia))
    as (reference & d & Hr & Hd & Hn & Hb & Hs & Hedges).
  exists reference, d.
  split; [exact Hrun|]. split; [exact Hr|]. split; [exact Hd|].
  split; [exact Hn|]. split; [exact Hb|]. split; [exact Hs|].
  split; [|exact (Hedges dimer_box_in_range)].
  simpl in Hr. injection Hr as <-. exact Hb.
Defined.

(** C8 (kinematics of a duplicate).  [universe_populate] writes the
    velocity of a duplicate in its x component only: assigned from the x,
    then the y, then the z component of the reference velocity, it ends
    equal to the z component; the y and z components are those the
    duplicate had on entry (the values [atom_init] gave them in
    [universe_init]).  Likewise for the acceleration and the force. *)
Theorem populate_kinematics {D : Type} {DD : Double D} (X : externals D)
    (u u' : universe_t D) (w w' : world X) :
  Z.of_nat (copy_nb u * ref_atom_nb u) < 2 ^ 64 ->
  universe_populate X u w = Ok (u', w') ->
  forall i ii, (i < copy_nb u)%nat -> (ii < ref_atom_nb u)%nat ->
    exists reference duplicate d,
      ref_atom u !! ii = Some reference /\
      atom u !! (i * ref_atom_nb u + ii)%nat = Some duplicate /\
      atom u' !! (i * ref_atom_nb u + ii)%nat = Some d /\
      vel d = Vec3d (z (vel reference)) (y (vel duplicate)) (z (vel duplicate)) /\
      acc d = Vec3d (z (acc reference)) (y (acc duplicate)) (z (acc duplicate)) /\
      frc d = Vec3d (z (frc reference)) (y (frc duplicate)) (z (frc duplicate)) /\
      set_x (set_x (set_x (vel duplicate) (x (vel reference)))
                   (y (vel reference))) (z (vel reference)) = vel d.
Proof.
  intros Hsmall Hrun i ii Hi Hii.
  destruct (universe_populate_spec X u u' w w' Hsmall Hrun i ii Hi Hii)
    as (off & reference & duplicate & Hr & Hd0 & Hd).
  exists reference, duplicate,
    (duplicate_of i (ref_atom_nb u) off reference duplicate).
  repeat split; assumption.
Qed.

(** The first atom of the second copy of the dimer: the reference drifts
    with velocity (1, 2, 3), the duplicate gets (3, 0, 0). *)
Lemma populate_kinematics_witness :
  exists st d,
    universe_populate Demo.slope_env Demo.dimer_box 0%nat = Ok st /\
    atom (fst st) !! 2%nat = Some d /\
    vel d = Vec3d 3%float 0%float 0%float.
Proof.
  eexists.
  assert (Hrun : universe_populate Demo.slope_env Demo.dimer_box 0%nat = Ok (_, _))
    by (vm_compute; reflexivity).
  destruct (populate_kinematics Demo.slope_env Demo.dimer_box _ 0%nat _
              ltac:(simpl; lia) Hrun 1%nat 0%nat ltac:(simpl; lia) ltac:(simpl; lia))
    as (reference & duplicate & d & Hr & Hd0 & Hd & Hv & _).
  exists d. split; [exact Hrun|]. split; [exact Hd|].
  simpl in Hr, Hd0. injection Hr as <-. injection Hd0 as <-. exact Hv.
Defined.

(** ** Loading the bond table *)

Section Load.
Context {D : Type} {DD : Double D} (X : externals D).

Lemma fresh_block_lookup (w : world X) (n j : nat) :
  (j < n)%nat -> fresh_block X w n !! j = Some (u8 (heap_byte X w j)).
Proof.
  intros Hj. unfold fresh_block.
  rewrite list_lookup_fmap, lookup_seq_lt by exact Hj. reflexivity.
Qed.

(** What [memset] leaves in the counter block: zero in the first
    [ref_bond_nb] bytes, the content of the heap in the others. *)
Lemma bond_index_init_spec (w : world X) (r b : nat) (bond_index : list Z) :
  bond_index_init X w r b = Ok bond_index ->
  (forall j, (j < b)%nat -> bond_index !! j = Some 0) /\
  (forall j, (b <= j < 8 * r)%nat ->
             bond_index !! j = Some (u8 (heap_byte X w j))).
Proof.
  unfold bond_index_init, memset_zero.
  assert (Hlen : length (fresh_block X w (8 * r)) = (8 * r)%nat)
    by (unfold fresh_block; now rewrite length_map, length_seq).
  rewrite Hlen. destruct (decide (b <= 8 * r)%nat) as [Hb|]; [|discriminate].
  intros H. injection H as <-. split.
  - intros j Hj. rewrite lookup_app_l by (rewrite length_replicate; lia).
    apply lookup_replicate_2. exact Hj.
  - intros j Hj. rewrite lookup_app_r by (rewrite length_replicate; lia).
    rewrite length_replicate, lookup_drop.
    replace (b + (j - b))%nat with j by lia.
    apply fresh_block_lookup. lia.
Qed.


End Load.



(** C6 on the dimer.  With a heap that holds zeroes the bond table is
    loaded symmetrically; with a heap that holds ones
    the counter of the second atom, which [memset] does not reach, reads
    1, and the entry of the second atom is stored past the end of its
    one-entry table. *)
Lemma load_dimer_heap_dependent :
  universe_load Demo.dirty_env Demo.blank Demo.dimer 0%nat = Undef /\
  exists st a0 a1,
    universe_load Demo.slope_env Demo.blank Demo.dimer 0%nat = Ok st /\
    ref_atom (fst st) = [a0; a1] /\
    bond a0 = [Some 1] /\ bond_strength a0 = [Some 500%float] /\
    bond a1 = [Some 0] /\ bond_strength a1 = [Some 500%float].
Proof.
  split; [vm_compute; reflexivity|].
  eexists _, _, _. split; [vm_compute; reflexivity|].
  repeat split.
Qed.

(** ** The bond table on a zeroed counter block *)

Section Load_symmetric.
Context {D : Type} {DD : Double D} (X : externals D) (inp : input_t D).
Hypothesis well_formed : bonds_well_formed inp.

Lemma mentions_snoc (k : nat) (ls : list (bond_line D)) (l : bond_line D) :
  mentions k (ls ++ [l])
  = (mentions k ls + (if mentions_atom k l then 1 else 0))%nat.
Proof.
  unfold mentions. rewrite List.filter_app, length_app. simpl.
  now destruct (mentions_atom k l).
Qed.

Lemma mentions_take_le (k i : nat) (ls : list (bond_line D)) :
  (mentions k (take i ls) <= mentions k ls)%nat.
Proof.
  unfold mentions. rewrite <- (take_drop i ls) at 2.
  rewrite List.filter_app, length_app. lia.
Qed.

Lemma bond_block_turn (i : nat) (l : bond_line D) :
  (i < in_bond_nb inp)%nat -> in_bonds inp !! i = Some l ->
  bond_block inp !! i = Some l /\
  take (S i) (bond_block inp) = take i (bond_block inp) ++ [l].
Proof.
  intros Hi Hl. assert (H : bond_block inp !! i = Some l).
  { unfold bond_block. now rewrite lookup_take_lt. }
  split; [exact H|]. now apply take_S_r.
Qed.

(** The two atoms of a well-formed bond line. *)
Lemma bond_line_atoms (i : nat) (l : bond_line D) :
  bond_block inp !! i = Some l ->
  (bond_first l < in_atom_nb inp)%nat /\
  (bond_second l < in_atom_nb inp)%nat /\
  bond_first l <> bond_second l /\
  u64 (bl_a1 l - 1) = bl_a1 l - 1 /\
  u64 (bl_a2 l - 1) = bl_a2 l - 1.
Proof.
  destruct well_formed as (Hr & Hl & _). intros H.
  destruct (Hl i l H) as (H1 & H2 & Hne).
  unfold bond_first, bond_second, idx, u64.
  rewrite !Z.mod_small by lia. repeat split; lia.
Qed.

Lemma bump_bond_nb_spec (ref ref' : list (atom_t D)) (a : Z) :
  bump_bond_nb ref a = Ok ref' ->
  length ref' = length ref /\
  forall k r, ref !! k = Some r ->
    exists r', ref' !! k = Some r' /\
      bond_nb r' = (bond_nb r + if (idx (u64 (a - 1)) =? k)%nat then 1 else 0)%nat.
Proof.
  unfold bump_bond_nb. destruct (ref !! idx (u64 (a - 1))) as [r0|] eqn:H0;
    [|discriminate].
  intros H. injection H as <-. split; [apply length_insert|].
  intros k r Hk. destruct (Nat.eqb_spec (idx (u64 (a - 1))) k) as [<-|Hne].
  - rewrite list_lookup_insert_eq by (eapply lookup_lt_Some; eauto).
    rewrite H0 in Hk. injection Hk as <-. eexists. split; [reflexivity|].
    simpl. lia.
  - rewrite list_lookup_insert_ne by exact Hne. exists r. split; [exact Hk|lia].
Qed.

(** After the counting loop, [bond_nb] is the number of bond lines that
    mention the atom. *)
Lemma load_count_loop (ref ref' : list (atom_t D)) :
  length ref = in_atom_nb inp ->
  (forall k r, ref !! k = Some r -> bond_nb r = 0%nat) ->
  for_loop (in_bond_nb inp) 0 (load_count_bonds inp) ref = Ok ref' ->
  length ref' = in_atom_nb inp /\
  forall k, (k < in_atom_nb inp)%nat ->
    exists r, ref' !! k = Some r /\ bond_nb r = mentions k (bond_block inp).
Proof.
  intros Hlen Hzero Hrun.
  pose (P := fun (i : nat) (t : list (atom_t D)) =>
    length t = in_atom_nb inp /\
    forall k, (k < in_atom_nb inp)%nat ->
      exists r, t !! k = Some r /\
                bond_nb r = mentions k (take i (bond_block inp))).
  assert (HP : P (0 + in_bond_nb inp)%nat ref').
  { eapply (for_loop_inv P); [exact Hrun | |].
    - split; [exact Hlen|]. intros k Hk.
      destruct (lookup_lt_is_Some_2 ref k) as [r Hr]; [lia|].
      exists r. split; [exact Hr|]. rewrite take_0. now apply (Hzero k).
    - intros i t t' Hi [Hl Hcount] Hbody. unfold load_count_bonds in Hbody.
      destruct (in_bonds inp !! i) as [l|] eqn:Hline; [|discriminate].
      destruct (bond_block_turn i l ltac:(lia) Hline) as [Hblock Htake].
      destruct (bond_line_atoms i l Hblock) as (_ & _ & Hne & _).
      apply obind_Ok in Hbody as (t1 & Hb1 & Hb2).
      apply bump_bond_nb_spec in Hb1 as [Hl1 Hb1].
      apply bump_bond_nb_spec in Hb2 as [Hl2 Hb2].
      split; [lia|]. intros k Hk.
      destruct (Hcount k Hk) as (r & Hr & Hn).
      destruct (Hb1 k r Hr) as (r1 & Hr1 & Hn1).
      destruct (Hb2 k r1 Hr1) as (r2 & Hr2 & Hn2).
      exists r2. split; [exact Hr2|].
      rewrite Htake, mentions_snoc, Hn2, Hn1, Hn.
      unfold mentions_atom. fold (bond_first l) (bond_second l).
      destruct (Nat.eqb_spec (bond_first l) k), (Nat.eqb_spec (bond_second l) k);
        simpl; lia. }
  destruct HP as [Hl HP]. split; [exact Hl|].
  intros k Hk. destruct (HP k Hk) as (r & Hr & Hn). exists r. split; [exact Hr|].
  rewrite Hn. simpl. unfold bond_block. now rewrite take_idemp.
Qed.

(** After the allocation loop, every atom has [bond_nb] unwritten slots
    in each of its two tables. *)
Lemma load_alloc_loop (ref ref' : list (atom_t D)) (w w' : world X) :
  for_loop (length ref) 0 (load_alloc_bonds X) (ref, w) = Ok (ref', w') ->
  length ref' = length ref /\
  forall k r, ref !! k = Some r ->
    exists r', ref' !! k = Some r' /\
      bond_nb r' = bond_nb r /\
      bond r' = replicate (bond_nb r) None /\
      bond_strength r' = replicate (bond_nb r) None.
Proof.
  intros Hrun.
  pose (P := fun (i : nat) (st : list (atom_t D) * world X) =>
    length (fst st) = length ref /\
    forall k r, ref !! k = Some r ->
      exists r', fst st !! k = Some r' /\
        bond_nb r' = bond_nb r /\
        ((i <= k)%nat -> r' = r) /\
        ((k < i)%nat -> bond r' = replicate (bond_nb r) None /\
                        bond_strength r' = replicate (bond_nb r) None)).
  assert (HP : P (0 + length ref)%nat (ref', w')).
  { eapply (for_loop_inv P); [exact Hrun | |].
    - split; [reflexivity|]. intros k r Hr. exists r.
      repeat split; [exact Hr | lia | lia].
    - intros i [t wt] [t' wt'] Hi [Hl Hdone] Hbody. unfold P. simpl in *.
      destruct (t !! i) as [ri|] eqn:Hri; [|discriminate].
      apply obind_Ok in Hbody as (w1 & _ & Hbody).
      apply obind_Ok in Hbody as (w2 & _ & Hbody).
      injection Hbody as <- <-. split; [now rewrite length_insert|].
      intros k r Hr. destruct (Hdone k r Hr) as (r' & Hr' & Hn & Hsame & Halloc).
      destruct (decide (k = i)) as [->|Hne].
      + rewrite list_lookup_insert_eq by (eapply lookup_lt_Some; eauto).
        rewrite Hri in Hr'. injection Hr' as <-.
        rewrite (Hsame ltac:(lia)). eexists. split; [reflexivity|].
        simpl. repeat split; lia.
      + rewrite list_lookup_insert_ne by congruence.
        exists r'. split; [exact Hr'|]. split; [exact Hn|].
        split; intros ?; [apply Hsame|apply Halloc]; lia. }
  destruct HP as [Hl HP]. split; [exact Hl|].
  intros k r Hr. destruct (HP k r Hr) as (r' & Hr' & Hn & _ & Halloc).
  exists r'. split; [exact Hr'|]. split; [exact Hn|].
  apply Halloc. simpl. eapply lookup_lt_Some; eauto.
Qed.

Lemma store_bond_effect (ref ref' : list (atom_t D)) (k slot : nat)
    (partner : Z) (strength : D) :
  store_bond ref k (Z.of_nat slot) partner strength = Ok ref' ->
  exists a,
    ref !! k = Some a /\
    (slot < length (bond a))%nat /\
    (slot < length (bond_strength a))%nat /\
    ref' = <[k := set_bond_strength
                    (set_bond a (<[slot := Some partner]> (bond a)))
                    (<[slot := Some strength]> (bond_strength a))]> ref.
Proof.
  unfold store_bond, idx. rewrite Nat2Z.id.
  destruct (ref !! k) as [r|]; [|discriminate].
  destruct (decide (slot < length (bond r))%nat) as [Hb|]; [|discriminate].
  simpl. destruct (decide (slot < length (bond_strength r))%nat) as [Hs|];
    [|discriminate].
  intros H. injection H as <-. exists r. repeat split; assumption.
Qed.

(** A store in slot [slot] of atom [k0] keeps the entries that sit below
    [slot], and those of the other atoms. *)
Lemma has_bond_below_store (ref : list (atom_t D)) (k0 : nat) (a : atom_t D)
    (slot : nat) (p0 : Z) (s0 : D) (k bound bound' : nat) (p : Z) (s : D) :
  ref !! k0 = Some a ->
  (k = k0 -> bound <= slot)%nat ->
  (bound <= bound')%nat ->
  has_bond_below ref k bound p s ->
  has_bond_below
    (<[k0 := set_bond_strength (set_bond a (<[slot := Some p0]> (bond a)))
                               (<[slot := Some s0]> (bond_strength a))]> ref)
    k bound' p s.
Proof.
  intros Ha Hslot Hle (r & sl & Hr & Hsl & Hb & Hs).
  destruct (decide (k = k0)) as [->|Hne].
  - rewrite Ha in Hr. injection Hr as <-. eexists _, sl.
    split; [apply list_lookup_insert_eq; eapply lookup_lt_Some; eauto|].
    specialize (Hslot eq_refl). split; [lia|]. simpl.
    rewrite !list_lookup_insert_ne by lia. now split.
  - exists r, sl. rewrite list_lookup_insert_ne by congruence.
    repeat split; try assumption. lia.
Qed.

Lemma has_bond_below_new (ref : list (atom_t D)) (k0 : nat) (a : atom_t D)
    (slot : nat) (p0 : Z) (s0 : D) (bound' : nat) :
  ref !! k0 = Some a ->
  (slot < length (bond a))%nat -> (slot < length (bond_strength a))%nat ->
  (slot < bound')%nat ->
  has_bond_below
    (<[k0 := set_bond_strength (set_bond a (<[slot := Some p0]> (bond a)))
                               (<[slot := Some s0]> (bond_strength a))]> ref)
    k0 bound' p0 s0.
Proof.
  intros Ha Hb Hs Hlt. eexists _, slot.
  split; [apply list_lookup_insert_eq; eapply lookup_lt_Some; eauto|].
  split; [exact Hlt|]. simpl. split; apply list_lookup_insert_eq; assumption.
Qed.

Lemma mentions_turn (i : nat) (l : bond_line D) (k : nat) :
  bond_block inp !! i = Some l ->
  mentions k (take (S i) (bond_block inp))
  = (mentions k (take i (bond_block inp))
     + if mentions_atom k l then 1 else 0)%nat.
Proof. intros H. now rewrite (take_S_r _ _ _ H), mentions_snoc. Qed.

(** One turn of the loading loop keeps the invariant. *)
Lemma load_fill_turn (i : nat) (ref ref' : list (atom_t D)) (c c' : list Z) :
  (i < in_bond_nb inp)%nat ->
  fill_invariant inp i ref c ->
  load_fill_bonds inp i (ref, c) = Ok (ref', c') ->
  fill_invariant inp (S i) ref' c'.
Proof.
  intros Hi (HA & HB & HC). unfold load_fill_bonds.
  destruct (in_bonds inp !! i) as [l|] eqn:Hline; [|discriminate].
  destruct (bond_block_turn i l Hi Hline) as [Hblock _].
  destruct (bond_line_atoms i l Hblock) as (Hf & Hs & Hne & Hu1 & Hu2).
  fold (bond_first l) (bond_second l). rewrite Hu1, Hu2.
  rewrite (HB _ Hf). intros H.
  apply obind_Ok in H as (t1 & Hst1 & H).
  apply store_bond_effect in Hst1 as (af & Haf & Hbf & Hsf & ->).
  rewrite (HB _ Hs) in H.
  apply obind_Ok in H as (t2 & Hst2 & H).
  apply store_bond_effect in Hst2 as (as_ & Has & Hbs & Hss & ->).
  rewrite list_lookup_insert_ne in Has by exact Hne.
  rewrite list_lookup_insert_ne in H by exact Hne.
  rewrite (HB _ Hs) in H. injection H as <- <-.
  set (mf := mentions (bond_first l) (take i (bond_block inp))) in *.
  set (ms := mentions (bond_second l) (take i (bond_block inp))) in *.
  assert (Hmf : mentions (bond_first l) (take (S i) (bond_block inp)) = S mf).
  { rewrite (mentions_turn i l _ Hblock). unfold mentions_atom.
    rewrite Nat.eqb_refl. simpl. subst mf. lia. }
  assert (Hms : mentions (bond_second l) (take (S i) (bond_block inp)) = S ms).
  { rewrite (mentions_turn i l _ Hblock). unfold mentions_atom.
    rewrite Nat.eqb_refl, orb_true_r. subst ms. lia. }
  destruct well_formed as (_ & _ & Hsmall).
  assert (Hmf' : (S mf <= 255)%nat).
  { rewrite <- Hmf. pose proof (mentions_take_le (bond_first l) (S i) (bond_block inp)).
    specialize (Hsmall (bond_first l)). lia. }
  assert (Hms' : (S ms <= 255)%nat).
  { rewrite <- Hms. pose proof (mentions_take_le (bond_second l) (S i) (bond_block inp)).
    specialize (Hsmall (bond_second l)). lia. }
  assert (Hu8 : forall m : nat, (S m <= 255)%nat -> u8 (Z.of_nat m + 1) = Z.of_nat (S m)).
  { intros m Hm. unfold u8. rewrite Z.mod_small by lia. lia. }
  rewrite (Hu8 mf Hmf'), (Hu8 ms Hms').
  split; [|split].
  - (* the tables keep their extent *)
    intros k Hk. destruct (HA k Hk) as (a & Ha & Hn & Hlb & Hls).
    destruct (decide (k = bond_second l)) as [->|Hks].
    + rewrite list_lookup_insert_eq
        by (rewrite length_insert; eapply lookup_lt_Some; eauto).
      eexists. split; [reflexivity|]. simpl. rewrite !length_insert.
      rewrite Has in Ha. injection Ha as <-. now repeat split.
    + rewrite list_lookup_insert_ne by congruence.
      destruct (decide (k = bond_first l)) as [->|Hkf].
      * rewrite list_lookup_insert_eq by (eapply lookup_lt_Some; eauto).
        eexists. split; [reflexivity|]. simpl. rewrite !length_insert.
        rewrite Haf in Ha. injection Ha as <-. now repeat split.
      * rewrite list_lookup_insert_ne by congruence. eauto.
  - (* the counters *)
    intros k Hk. rewrite (mentions_turn i l k Hblock). unfold mentions_atom.
    assert (Hlc : length c = length c) by reflexivity.
    pose proof (lookup_lt_Some _ _ _ (HB _ Hf)) as Hcf.
    pose proof (lookup_lt_Some _ _ _ (HB _ Hs)) as Hcs.
    destruct (Nat.eqb_spec (bond_second l) k) as [<-|Hks].
    + rewrite list_lookup_insert_eq by (rewrite length_insert; exact Hcs).
      destruct (Nat.eqb_spec (bond_first l) (bond_second l)); [congruence|].
      simpl. f_equal. subst ms. lia.
    + rewrite list_lookup_insert_ne by exact Hks.
      destruct (Nat.eqb_spec (bond_first l) k) as [<-|Hkf].
      * rewrite list_lookup_insert_eq by exact Hcf. simpl. f_equal. subst mf. lia.
      * rewrite list_lookup_insert_ne by exact Hkf. simpl.
        rewrite Nat.add_0_r. apply HB. exact Hk.
  - (* the entries *)
    assert (Hkeep : forall k bound p s,
      has_bond_below ref k bound p s ->
      (bound <= mentions k (take i (bond_block inp)))%nat ->
      has_bond_below
        (<[bond_second l :=
             set_bond_strength
               (set_bond as_ (<[ms := Some (bl_a1 l - 1)]> (bond as_)))
               (<[ms := Some (bl_strength l)]> (bond_strength as_))]>
           (<[bond_first l :=
                set_bond_strength
                  (set_bond af (<[mf := Some (bl_a2 l - 1)]> (bond af)))
                  (<[mf := Some (bl_strength l)]> (bond_strength af))]> ref))
        k (mentions k (take (S i) (bond_block inp))) p s).
    { intros k bound p s Hhb Hbound.
      apply has_bond_below_store with (bound := mentions k (take i (bond_block inp))).
      - rewrite list_lookup_insert_ne by exact Hne. exact Has.
      - intros ->. subst ms. lia.
      - rewrite (mentions_turn i l k Hblock). lia.
      - apply has_bond_below_store with (bound := bound); try assumption.
        intros ->. subst mf. lia. }
    intros j l' Hj Hl'. destruct (decide (j = i)) as [->|Hji].
    + rewrite Hblock in Hl'. injection Hl' as <-. split.
      * apply has_bond_below_store with (bound := S mf).
        -- rewrite list_lookup_insert_ne by exact Hne. exact Has.
        -- intros Heq. congruence.
        -- lia.
        -- apply has_bond_below_new; try assumption. lia.
      * rewrite Hms. apply has_bond_below_new; try lia.
        rewrite list_lookup_insert_ne by exact Hne. exact Has.
    + destruct (HC j l' ltac:(lia) Hl') as [H1 H2].
      split; (eapply Hkeep; [eassumption|lia]).
Qed.

(** After the loading loop on zeroed counters, each bond line has its two
    entries and every atom as many slots as lines that mention it. *)
Lemma load_fill_loop (ref ref' : list (atom_t D)) (c c' : list Z) :
  fill_invariant inp 0 ref c ->
  for_loop (in_bond_nb inp) 0 (load_fill_bonds inp) (ref, c) = Ok (ref', c') ->
  fill_invariant inp (in_bond_nb inp) ref' c'.
Proof.
  intros H0 Hrun.
  apply (for_loop_inv
           (fun i (st : list (atom_t D) * list Z) =>
              fill_invariant inp i (fst st) (snd st))
           (load_fill_bonds inp) (in_bond_nb inp) 0 (ref, c) (ref', c') Hrun).
  - exact H0.
  - intros i [t ct] [t' ct'] Hi Ht Hbody. simpl in *.
    eapply load_fill_turn; [lia | exact Ht | exact Hbody].
Qed.

(** The atom block is read into atoms that still have no bond. *)
Lemma load_atom_loop (ref' : list (atom_t D)) :
  for_loop (in_atom_nb inp) 0 (load_atom_block inp)
           (replicate (in_atom_nb inp) atom_init) = Ok ref' ->
  length ref' = in_atom_nb inp /\
  forall k r, ref' !! k = Some r -> bond_nb r = 0%nat.
Proof.
  intros Hrun.
  apply (for_loop_inv
           (fun (_ : nat) (t : list (atom_t D)) =>
              length t = in_atom_nb inp /\
              forall k r, t !! k = Some r -> bond_nb r = 0%nat)) in Hrun.
  - exact Hrun.
  - split; [apply length_replicate|].
    intros k r Hr. apply lookup_replicate in Hr as [-> _]. reflexivity.
  - intros i t t' _ [Hl Hz] Hbody. unfold load_atom_block in Hbody.
    destruct (in_atoms inp !! i) as [l|]; [|discriminate].
    destruct (t !! i) as [a|] eqn:Ha; [|discriminate].
    injection Hbody as <-. split; [now rewrite length_insert|].
    intros k r Hr. destruct (decide (k = i)) as [->|Hne].
    + rewrite list_lookup_insert_eq in Hr by (eapply lookup_lt_Some; eauto).
      injection Hr as <-. simpl. now apply (Hz i).
    + rewrite list_lookup_insert_ne in Hr by congruence. now apply (Hz k).
Qed.

(** On a heap that hands out zeroed memory, [universe_load] gives a
    well-formed bond block a symmetric bond table: each bond line
    (a1, a2, k) puts a2 - 1 in the list of atom a1 - 1 and a1 - 1 in the
    list of atom a2 - 1, both with stiffness k, and the list of an atom
    is as long as the number of bond lines that mention it. *)
Lemma universe_load_symmetric (u u' : universe_t D) (w w' : world X) :
  (forall w j, u8 (heap_byte X w j) = 0) ->
  universe_load X u inp w = Ok (u', w') ->
  (forall i l, bond_block inp !! i = Some l ->
     has_bond (ref_atom u') (bond_first l) (bl_a2 l - 1) (bl_strength l) /\
     has_bond (ref_atom u') (bond_second l) (bl_a1 l - 1) (bl_strength l)) /\
  (forall k, (k < in_atom_nb inp)%nat ->
     exists a, ref_atom u' !! k = Some a /\
       bond_nb a = mentions k (bond_block inp) /\
       length (bond a) = bond_nb a).
Proof.
  intros Hheap. unfold universe_load. intros H.
  do 4 (apply obind_Ok in H as (? & _ & H)).
  apply obind_Ok in H as (ref1 & Hatoms & H).
  do 4 (apply obind_Ok in H as (? & _ & H)).
  apply obind_Ok in H as (c0 & Hinit & H).
  apply obind_Ok in H as (ref2 & Hcount & H).
  apply obind_Ok in H as ([ref3 w3] & Halloc & H).
  apply obind_Ok in H as ([ref4 c4] & Hfill & H).
  injection H as <- <-. simpl.
  apply load_atom_loop in Hatoms as [Hl1 Hz1].
  apply (load_count_loop _ _ Hl1 Hz1) in Hcount as [Hl2 Hn2].
  rewrite <- Hl2 in Halloc. apply load_alloc_loop in Halloc as [Hl3 Ha3].
  destruct (bond_index_init_spec X _ _ _ _ Hinit) as [Hc0 Hc1].
  assert (Hstart : fill_invariant inp 0 ref3 c0).
  { split; [|split].
    - intros k Hk. destruct (Hn2 k Hk) as (r & Hr & Hn).
      destruct (Ha3 k r Hr) as (r' & Hr' & Hn' & Hb & Hs).
      exists r'. split; [exact Hr'|]. rewrite Hb, Hs, !length_replicate.
      repeat split; congruence.
    - intros k Hk. rewrite take_0. change (mentions k []) with 0%nat.
      destruct (decide (k < in_bond_nb inp)%nat) as [Hlt|Hge].
      + now apply Hc0.
      + rewrite Hc1 by lia. now rewrite Hheap.
    - intros j l Hj. lia. }
  apply (load_fill_loop _ _ _ _ Hstart) in Hfill as (HA & _ & HC).
  assert (Hall : take (in_bond_nb inp) (bond_block inp) = bond_block inp)
    by (unfold bond_block; apply take_idemp).
  rewrite Hall in HC. split.
  - intros i l Hl.
    assert (Hi : (i < in_bond_nb inp)%nat).
    { unfold bond_block in Hl. apply lookup_take_Some in Hl. lia. }
    destruct (bond_line_atoms i l Hl) as (Hf & Hs & _).
    destruct (HC i l Hi Hl) as [H1 H2].
    destruct (HA _ Hf) as (af & Haf & Hnf & _).
    destruct (HA _ Hs) as (as_ & Has & Hns & _).
    split; [exists af|exists as_]; (split; [assumption|]); congruence.
  - intros k Hk. destruct (HA k Hk) as (a & Ha & Hn & Hlb & _). eauto.
Qed.

End Load_symmetric.

Lemma dimer_well_formed : bonds_well_formed Demo.dimer.
Proof.
  split; [simpl; lia|]. split.
  - intros i l Hl. destruct i as [|i]; simpl in Hl; [|discriminate].
    injection Hl as <-. simpl. lia.
  - intros k. unfold mentions. simpl.
    destruct (mentions_atom k _); simpl; lia.
Qed.

(** The dimer on a zeroed heap: atom 0 has atom 1 in its list, atom 1 has
    atom 0, both with stiffness 500. *)
Example universe_load_symmetric_dimer :
  exists st,
    universe_load Demo.slope_env Demo.blank Demo.dimer 0%nat = Ok st /\
    has_bond (ref_atom (fst st)) 0 1 500%float /\
    has_bond (ref_atom (fst st)) 1 0 500%float.
Proof.
  eexists.
  assert (Hrun : universe_load Demo.slope_env Demo.blank Demo.dimer 0%nat
                 = Ok (_, _)) by (vm_compute; reflexivity).
  split; [exact Hrun|].
  apply (proj1 (universe_load_symmetric Demo.slope_env Demo.dimer
                  dimer_well_formed Demo.blank _ 0%nat _ (fun _ _ => eq_refl) Hrun)
           0%nat (BondRec 1 2 500%float) eq_refl).
Qed.

(** * The rest of the kernel *)

(** ** What [universe_printstate] writes *)

Section Printstate_trace.
Context {D : Type} {DD : Double D} (X : externals D).

Lemma set_output_file_id (u : universe_t D) :
  u = set_output_file u (output_file u ++ []).
Proof. rewrite app_nil_r. now destruct u. Qed.

(** Whatever the writes do: the lines that reach the file are lines of the
    frame, in order, after what the file held; one write is attempted for
    the header and one per atom. *)
Lemma universe_printstate_trace (u u' : universe_t D) (w w' : world X) :
  universe_printstate X u w = Ok (u', w') ->
  exists new,
    u' = set_output_file u (output_file u ++ new) /\
    sublist new (frame_of X u) /\
    w' = Nat.iter (S (atom_nb u)) (fun w => snd (fprintf X w)) w /\
    atoms_allocated u.
Proof.
  unfold universe_printstate. intros Hrun.
  pose (P := fun (k : nat) (st : universe_t D * world X) =>
    exists new,
      fst st = set_output_file u (output_file u ++ new) /\
      sublist new (Header (atom_nb u) (iterations u)
                   :: map (atom_out_line X) (take k (atom u))) /\
      snd st = Nat.iter (S k) (fun w => snd (fprintf X w)) w /\
      (k <= length (atom u))%nat).
  assert (HP : P (0 + atom_nb u)%nat (u', w')).
  { eapply (for_loop_inv P); [exact Hrun | |].
    - unfold P, emit. destruct (fprintf X w) as [[] w1] eqn:Hw; simpl.
      + exists [Header (atom_nb u) (iterations u)].
        repeat split; [reflexivity | now rewrite Hw | lia].
      + exists []. split; [apply set_output_file_id|].
        split; [apply sublist_nil_l|]. split; [now rewrite Hw | lia].
    - intros k [t wt] [t' wt'] _ (new & Ht & Hsub & Hw & Hk) Hbody.
      unfold P in *. cbn [fst snd] in *. unfold printstate_atom in Hbody.
      cbn [fst] in Hbody.
      destruct (atom t !! k) as [a|] eqn:Ha; [|discriminate].
      assert (Ha' : atom u !! k = Some a) by (rewrite Ht in Ha; exact Ha).
      assert (Hb : emit X (atom_out_line X a) (t, wt) = (t', wt')) by congruence.
      unfold emit in Hb. rewrite (take_S_r _ _ _ Ha'), map_app. simpl.
      destruct (fprintf X wt) as [[] w1] eqn:Hf; injection Hb as <- <-.
      + exists (new ++ [atom_out_line X a]). rewrite Ht. simpl.
        split; [now rewrite app_assoc|].
        split; [rewrite app_comm_cons; now apply sublist_app|].
        split; [rewrite Hw in Hf; simpl in Hf |- *; now rewrite Hf|].
        apply lookup_lt_Some in Ha'. lia.
      + exists new. split; [exact Ht|].
        split; [rewrite app_comm_cons; now apply sublist_inserts_r|].
        split; [rewrite Hw in Hf; simpl in Hf |- *; now rewrite Hf|].
        apply lookup_lt_Some in Ha'. lia. }
  destruct HP as (new & Ht & Hsub & Hw & Hk). exists new.
  repeat split; assumption.
Qed.

End Printstate_trace.

(** X1.  [universe_printstate] only ever appends: what the file held stays, the
    lines added are lines of the frame of the universe in frame order (a
    failed write drops its line), exactly [1 + atom_nb] writes are
    attempted, and nothing else in the universe changes.  It returns the
    universe exactly when [atom] holds [atom_nb] atoms. *)
Theorem universe_printstate_appends {D : Type} {DD : Double D} (X : externals D)
    (u : universe_t D) (w : world X) :
  (forall u' w',
     universe_printstate X u w = Ok (u', w') ->
     exists new,
       u' = set_output_file u (output_file u ++ new) /\
       sublist new (frame_of X u) /\
       w' = Nat.iter (S (atom_nb u)) (fun w => snd (fprintf X w)) w) /\
  ((exists st, universe_printstate X u w = Ok st) <-> atoms_allocated u).
Proof.
  split.
  - intros u' w' Hrun.
    destruct (universe_printstate_trace X u u' w w' Hrun) as (new & H1 & H2 & H3 & _).
    eauto.
  - split.
    + intros [[u' w'] Hrun].
      now destruct (universe_printstate_trace X u u' w w' Hrun) as (_ & _ & _ & _ & H).
    + intros Hu. destruct (universe_printstate_returns X u w Hu) as (u' & w' & H & _).
      eauto.
Qed.

(** The lossy environment drops the first atom line: two of the three
    lines of the frame reach the file, three writes are attempted. *)
Lemma universe_printstate_appends_witness :
  exists st new,
    universe_printstate Demo.lossy_env (Demo.gas 2) 0%nat = Ok st /\
    fst st = set_output_file (Demo.gas 2) (output_file (Demo.gas 2) ++ new) /\
    sublist new (frame_of Demo.lossy_env (Demo.gas 2)) /\
    snd st = 3%nat /\ length (output_file (fst st)) = 2%nat.
Proof.
  eexists.
  assert (Hrun : universe_printstate Demo.lossy_env (Demo.gas 2) 0%nat = Ok (_, _))
    by (vm_compute; reflexivity).
  destruct (proj1 (universe_printstate_appends Demo.lossy_env (Demo.gas 2) 0%nat)
              _ _ Hrun) as (new & Hu & Hsub & Hw).
  exists new. split; [exact Hrun|]. split; [exact Hu|]. split; [exact Hsub|].
  split; [exact Hw|]. vm_compute. reflexivity.
Defined.

(** ** Whole frames *)

Section Whole_frames.
Context {D : Type} {DD : Double D}.

Lemma whole_frames_S (fuel : nat) :
  forall out : list (out_line D),
    whole_frames fuel out = true -> whole_frames (S fuel) out = true.
Proof.
  induction fuel as [|fuel IH]; intros out; [discriminate|].
  destruct out as [|[n i|] rest]; try (intros; assumption || reflexivity).
  cbn [whole_frames]. intros H.
  apply andb_prop in H as [H Hrest]. rewrite H. apply IH in Hrest.
  exact Hrest.
Qed.

Lemma whole_frames_le (fuel fuel' : nat) (out : list (out_line D)) :
  (fuel <= fuel')%nat ->
  whole_frames fuel out = true -> whole_frames fuel' out = true.
Proof.
  induction 1 as [|fuel' _ IH]; [trivial|].
  intros H. apply whole_frames_S, IH, H.
Qed.

(** A whole frame after whole frames. *)
Lemma whole_frames_snoc (n : nat) (i : Z) (lines : list (out_line D)) :
  length lines = n -> forallb is_atom_line lines = true ->
  forall fuel out,
    whole_frames fuel out = true ->
    whole_frames (S fuel) (out ++ Header n i :: lines) = true.
Proof.
  intros Hlen Hlines. induction fuel as [|fuel IH]; intros out; [discriminate|].
  destruct out as [|[m j|] rest]; try discriminate.
  - intros _. cbn [app whole_frames].
    rewrite take_ge, drop_ge by lia. rewrite Hlines, Hlen, Nat.eqb_refl.
    reflexivity.
  - cbn [whole_frames]. intros H.
    apply andb_prop in H as [H Hrest]. apply andb_prop in H as [Hl Hm].
    apply Nat.eqb_eq in Hm.
    assert (Hle : (m <= length rest)%nat).
    { rewrite length_take in Hm. lia. }
    change ((Header m j :: rest) ++ Header n i :: lines)
      with (Header m j :: (rest ++ Header n i :: lines)).
    cbn [whole_frames].
    rewrite take_app_le, drop_app_le by exact Hle.
    rewrite Hl, Hm, Nat.eqb_refl. simpl. now apply IH.
Qed.

Lemma well_framed_snoc (n : nat) (i : Z) (lines out : list (out_line D)) :
  length lines = n -> forallb is_atom_line lines = true ->
  well_framed out = true -> well_framed (out ++ Header n i :: lines) = true.
Proof.
  intros Hlen Hlines Hout. unfold well_framed in *.
  eapply whole_frames_le; [|apply whole_frames_snoc; eassumption].
  rewrite length_app. simpl. lia.
Qed.

Lemma atom_lines_only (X : externals D) (l : list (atom_t D)) :
  forallb is_atom_line (map (atom_out_line X) l) = true.
Proof. induction l as [|a l IH]; simpl; [reflexivity|exact IH]. Qed.

(** The frame of a universe whose atoms are there is whole. *)
Lemma well_framed_frame_of (X : externals D) (u : universe_t D)
    (out : list (out_line D)) :
  atoms_allocated u -> well_framed out = true ->
  well_framed (out ++ frame_of X u) = true.
Proof.
  intros Hu Hout. unfold frame_of. apply well_framed_snoc; [| |exact Hout].
  - rewrite length_map, length_take. unfold atoms_allocated in Hu. lia.
  - apply atom_lines_only.
Qed.

Lemma simulate_loop_whole_frames (X : externals D) (args : args_t D) :
  (forall w, fst (fprintf X w) = true) ->
  forall (fuel : nat) (frame_nb : Z) (u u' : universe_t D) (w w' : world X),
    well_framed (output_file u) = true ->
    simulate_loop X fuel args frame_nb u w = Ok (u', w') ->
    well_framed (output_file u') = true.
Proof.
  intros Hw. induction fuel as [|fuel IH]; intros frame_nb u u' w w' Hout Hrun;
    simpl in Hrun; [discriminate|].
  destruct (dltb (time u) (max_time args)); [|now injection Hrun as <- <-].
  apply obind_Ok in Hrun as ([[u1 w1] fn1] & Hf & Hrun).
  apply obind_Ok in Hrun as (u2 & Hi & Hrun).
  destruct (simulate_turn X Hw _ _ _ _ _ _ _ _ Hf Hi) as (_ & _ & Hnew).
  eapply IH; [|exact Hrun].
  unfold simulate_frame in Hf. destruct (frame_nb =? 0).
  - destruct Hnew as [-> _].
    apply obind_Ok in Hf as ([u1' w1'] & Hp & _).
    apply universe_printstate_trace in Hp as (_ & _ & _ & _ & Hu).
    now apply well_framed_frame_of.
  - destruct Hnew as [-> _]. exact Hout.
Qed.

End Whole_frames.

(** X2.  When every write succeeds, the trajectory stays made of whole frames:
    [universe_simulate] turns a file of whole frames into a file of whole
    frames, each header followed by as many atom lines as it announces. *)
Theorem simulate_whole_frames {D : Type} {DD : Double D} (X : externals D)
    (args : args_t D) (fuel : nat) (u u' : universe_t D) (w w' : world X) :
  (forall w, fst (fprintf X w) = true) ->
  well_framed (output_file u) = true ->
  universe_simulate X fuel u args w = Ok (u', w') ->
  well_framed (output_file u') = true.
Proof.
  intros Hw Hout Hrun. unfold universe_simulate in Hrun.
  eapply simulate_loop_whole_frames; eassumption.
Qed.

Lemma simulate_whole_frames_witness :
  exists st,
    universe_simulate Demo.slope_env 21 (Demo.gas 2) Demo.twenty_steps 0%nat
      = Ok st /\
    length (output_file (fst st)) = 12%nat /\
    well_framed (output_file (fst st)) = true.
Proof.
  eexists.
  assert (Hrun : universe_simulate Demo.slope_env 21 (Demo.gas 2)
                   Demo.twenty_steps 0%nat = Ok (_, _))
    by (vm_compute; reflexivity).
  split; [exact Hrun|]. split; [vm_compute; reflexivity|].
  exact (simulate_whole_frames Demo.slope_env Demo.twenty_steps 21 (Demo.gas 2)
           _ 0%nat _ (fun _ => eq_refl) eq_refl Hrun).
Defined.

(** ** The stride of the frames *)

Section Stride.
Variable s : nat.
Hypothesis s_small : Z.of_nat s < 2 ^ 64.

Lemma u64_small (n : Z) : 0 <= n < 2 ^ 64 -> u64 n = n.
Proof. intros H. unfold u64. now apply Z.mod_small. Qed.

(** A countdown standing at [c] lets [c] turns pass without a frame. *)
Lemma frame_schedule_countdown :
  forall (c n : nat) (it : Z),
    (c <= s)%nat -> 0 <= it -> it + Z.of_nat n < 2 ^ 64 ->
    frame_schedule (Z.of_nat s) n (Z.of_nat c) it
    = if decide (n <= c)%nat then []
      else frame_schedule (Z.of_nat s) (n - c) 0 (it + Z.of_nat c).
Proof.
  induction c as [|c IH]; intros n it Hc Hit Hn.
  - destruct (decide (n <= 0)%nat) as [Hle|Hgt].
    + replace n with 0%nat by lia. reflexivity.
    + rewrite Nat.sub_0_r. simpl. now rewrite Z.add_0_r.
  - destruct n as [|n]; [reflexivity|].
    cbn [frame_schedule].
    destruct (Z.eqb_spec (Z.of_nat (S c)) 0) as [Hz|_]; [lia|].
    rewrite (u64_small (Z.of_nat (S c) - 1)), (u64_small (it + 1)) by lia.
    replace (Z.of_nat (S c) - 1) with (Z.of_nat c) by lia.
    rewrite IH by lia.
    destruct (decide (n <= c)%nat), (decide (S n <= S c)%nat); try lia;
      [reflexivity|].
    replace (S n - S c)%nat with (n - c)%nat by lia.
    f_equal. lia.
Qed.

(** From a countdown at zero, [n] turns print the iterations
    [it], [it + (s+1)], [it + 2(s+1)], ... below [it + n]. *)
Lemma frame_schedule_stride :
  forall (n : nat) (it : Z),
    0 <= it -> it + Z.of_nat n < 2 ^ 64 ->
    frame_schedule (Z.of_nat s) n 0 it
    = map (fun j => it + Z.of_nat j * (Z.of_nat s + 1))
          (seq 0 ((n + s) / S s)).
Proof.
  induction n as [n IH] using lt_wf_ind. intros it Hit Hn.
  destruct n as [|n].
  - rewrite Nat.div_small by lia. reflexivity.
  - cbn [frame_schedule]. rewrite Z.eqb_refl.
    rewrite (u64_small (Z.of_nat s)), (u64_small (it + 1)) by lia.
    rewrite frame_schedule_countdown by lia.
    destruct (decide (n <= s)%nat) as [Hle|Hgt].
    + replace ((S n + s) / S s)%nat with 1%nat.
      * simpl. f_equal. lia.
      * apply (Nat.div_unique _ _ 1 n); lia.
    + rewrite IH by lia.
      replace ((S n + s) / S s)%nat with (S ((n - s + s) / S s)).
      * cbn [seq map]. f_equal; [lia|].
        rewrite <- fmap_S_seq. rewrite <- list_fmap_compose.
        apply list_fmap_ext. intros _ j _. simpl. lia.
      * replace (S n + s)%nat with ((n - s + s) + 1 * S s)%nat by lia.
        rewrite Nat.div_add by lia. lia.
Qed.

End Stride.

(** X3.  With frameskip [s], the frames that [universe_simulate] writes carry
    the iteration indices [it], [it + (s+1)], [it + 2(s+1)], ...: one turn
    in [s + 1] prints, starting with the first, so [n] turns write
    [ceil (n / (s+1))] frames ([it] is the counter on entry, every write
    succeeding). *)
Theorem simulate_frame_stride {D : Type} {DD : Double D} (X : externals D)
    (args : args_t D) (s fuel : nat) (u u' : universe_t D) (w w' : world X) :
  (forall w, fst (fprintf X w) = true) ->
  frameskip args = Z.of_nat s -> Z.of_nat s < 2 ^ 64 ->
  0 <= iterations u -> iterations u + Z.of_nat fuel < 2 ^ 64 ->
  universe_simulate X fuel u args w = Ok (u', w') ->
  exists (n : nat) (new : list (out_line D)),
    runs_for args n (time u) = true /\
    output_file u' = output_file u ++ new /\
    frame_indices new
    = map (fun j => iterations u + Z.of_nat j * (Z.of_nat s + 1))
          (seq 0 ((n + s) / S s)).
Proof.
  intros Hw Hs Hsmall Hit Hfuel Hrun. unfold universe_simulate in Hrun.
  destruct (simulate_loop_turns X args _ _ _ _ _ _ Hrun) as (n & Hn & Hruns).
  destruct (simulate_loop_trace X Hw args n fuel 0 u u' w w' Hruns Hrun)
    as (new & Ho & Hidx & _).
  exists n, new. split; [exact Hruns|]. split; [exact Ho|].
  rewrite Hidx, Hs. apply frame_schedule_stride; [exact Hsmall|exact Hit|lia].
Qed.

(** Twenty steps with frameskip 4: frames 0, 5, 10, 15. *)
Lemma simulate_frame_stride_witness :
  exists st (n : nat) new,
    universe_simulate Demo.slope_env 21 (Demo.gas 2) Demo.twenty_steps 0%nat
      = Ok st /\
    runs_for Demo.twenty_steps n (time (Demo.gas 2)) = true /\
    output_file (fst st) = output_file (Demo.gas 2) ++ new /\
    frame_indices new
    = map (fun j => 0 + Z.of_nat j * (Z.of_nat 4 + 1)) (seq 0 ((n + 4) / 5)).
Proof.
  eexists.
  assert (Hrun : universe_simulate Demo.slope_env 21 (Demo.gas 2)
                   Demo.twenty_steps 0%nat = Ok (_, _))
    by (vm_compute; reflexivity).
  destruct (simulate_frame_stride Demo.slope_env Demo.twenty_steps 4 21
              (Demo.gas 2) _ 0%nat _ (fun _ => eq_refl) eq_refl
              ltac:(simpl; lia) ltac:(simpl; lia) ltac:(simpl; lia) Hrun)
    as (n & new & H).
  exists n, new. split; [exact Hrun|exact H].
Defined.

(** ** The clock of the driver *)

Section Clock.
Context {D : Type} {DD : Double D} (X : externals D).

(** One turn of the loop, whatever the writes do: the clock advances by a
    timestep and the counter by one. *)
Lemma simulate_turn_clock (args : args_t D) (frame_nb : Z)
    (u u1 u2 : universe_t D) (w w1 : world X) (frame_nb1 : Z) :
  simulate_frame X args frame_nb u w = Ok (u1, w1, frame_nb1) ->
  universe_iterate X u1 args = Ok u2 ->
  time (tick args u2) = dadd (time u) (timestep args) /\
  iterations (tick args u2) = u64 (iterations u + 1).
Proof.
  unfold simulate_frame. intros Hf Hi. apply universe_iterate_frame in Hi.
  destruct (frame_nb =? 0).
  - apply obind_Ok in Hf as ([u1' w1'] & Hp & Hf). injection Hf as <- <- <-.
    apply universe_printstate_trace in Hp as (new & Hp & _).
    rewrite Hi, Hp. split; reflexivity.
  - injection Hf as <- <- <-. rewrite Hi. split; reflexivity.
Qed.

Lemma simulate_loop_clock (args : args_t D) :
  forall (n fuel : nat) (frame_nb : Z) (u u' : universe_t D) (w w' : world X),
    runs_for args n (time u) = true ->
    simulate_loop X fuel args frame_nb u w = Ok (u', w') ->
    time u' = Nat.iter n (fun t => dadd t (timestep args)) (time u).
Proof.
  induction n as [|n IH]; intros fuel frame_nb u u' w w' Hn Hrun;
    destruct fuel as [|fuel]; simpl in Hrun; try discriminate; simpl in Hn.
  - destruct (dltb (time u) (max_time args)); [discriminate|].
    now injection Hrun as <- <-.
  - apply andb_prop in Hn as [Hlt Hn]. rewrite Hlt in Hrun.
    apply obind_Ok in Hrun as ([[u1 w1] fn1] & Hf & Hrun).
    apply obind_Ok in Hrun as (u2 & Hi & Hrun).
    destruct (simulate_turn_clock _ _ _ _ _ _ _ _ Hf Hi) as (Ht & _).
    rewrite <- Ht in Hn. rewrite (IH _ _ _ _ _ _ Hn Hrun), Ht.
    now rewrite Nat.iter_succ_r.
Qed.

(** A clock that a timestep does not move never passes the loop test. *)
Lemma runs_for_stalled (args : args_t D) (t : D) :
  dltb t (max_time args) = true -> dadd t (timestep args) = t ->
  forall n, runs_for args n t = false.
Proof.
  intros Hlt Hstall. induction n as [|n IH]; simpl.
  - now rewrite Hlt.
  - now rewrite Hstall, IH, andb_false_r.
Qed.

End Clock.

(** X4.  A stalled clock.  When the clock is below [max_time] and adding the
    timestep leaves it where it is (a zero timestep, or one that binary64
    absorbs), [universe_simulate] never returns the universe: it runs on,
    or fails in an integration step. *)
Theorem simulate_stalled_clock {D : Type} {DD : Double D} (X : externals D)
    (args : args_t D) (u : universe_t D) :
  dltb (time u) (max_time args) = true ->
  dadd (time u) (timestep args) = time u ->
  forall fuel w st, universe_simulate X fuel u args w <> Ok st.
Proof.
  intros Hlt Hstall fuel w [u' w'] Hrun. unfold universe_simulate in Hrun.
  destruct (simulate_loop_turns X args _ _ _ _ _ _ Hrun) as (n & _ & Hruns).
  now rewrite (runs_for_stalled args (time u) Hlt Hstall n) in Hruns.
Qed.

(** On binary64, 1 + 1e-17 = 1: from a clock at 1 s, a timestep of 1e-17 s
    never reaches max_time = 2 s. *)
Lemma simulate_stalled_clock_witness :
  PrimFloat.ltb (time Demo2.late) (max_time Demo2.tiny_steps) = true /\
  PrimFloat.add (time Demo2.late) (timestep Demo2.tiny_steps) = time Demo2.late /\
  universe_simulate Demo.slope_env 1000 Demo2.late Demo2.tiny_steps 0%nat
    = Timeout.
Proof.
  assert (H1 : PrimFloat.ltb (time Demo2.late) (max_time Demo2.tiny_steps) = true)
    by (vm_compute; reflexivity).
  assert (H2 : PrimFloat.add (time Demo2.late) (timestep Demo2.tiny_steps)
               = time Demo2.late) by (vm_compute; reflexivity).
  split; [exact H1|]. split; [exact H2|].
  pose proof (simulate_stalled_clock Demo.slope_env Demo2.tiny_steps Demo2.late
                H1 H2 1000%nat 0%nat) as Hnever.
  destruct (universe_simulate Demo.slope_env 1000 Demo2.late Demo2.tiny_steps 0%nat)
    as [st| | |] eqn:Hrun.
  - exfalso. exact (Hnever st eq_refl).
  - exfalso. revert Hrun. apply simulate_loop_not_Null.
    apply universe_iterate_not_Null, demo_routines_succeed.
  - exfalso. vm_compute in Hrun. discriminate.
  - reflexivity.
Defined.

(** The counter of the driver, turn after turn. *)
Lemma simulate_loop_counter {D : Type} {DD : Double D} (X : externals D)
    (args : args_t D) :
  forall (n fuel : nat) (frame_nb : Z) (u u' : universe_t D) (w w' : world X),
    runs_for args n (time u) = true ->
    simulate_loop X fuel args frame_nb u w = Ok (u', w') ->
    iterations u' = Nat.iter n (fun j => u64 (j + 1)) (iterations u).
Proof.
  induction n as [|n IH]; intros fuel frame_nb u u' w w' Hn Hrun;
    destruct fuel as [|fuel]; simpl in Hrun; try discriminate; simpl in Hn.
  - destruct (dltb (time u) (max_time args)); [discriminate|].
    now injection Hrun as <- <-.
  - apply andb_prop in Hn as [Hlt Hn]. rewrite Hlt in Hrun.
    apply obind_Ok in Hrun as ([[u1 w1] fn1] & Hf & Hrun).
    apply obind_Ok in Hrun as (u2 & Hi & Hrun).
    destruct (simulate_turn_clock X _ _ _ _ _ _ _ _ Hf Hi) as (Ht & Hit).
    rewrite <- Ht in Hn. rewrite (IH _ _ _ _ _ _ Hn Hrun), Hit.
    now rewrite Nat.iter_succ_r.
Qed.

(** What [runs_for] says of the clock values: the first [n] pass the loop
    test, the next one does not. *)
Lemma runs_for_clock {D : Type} {DD : Double D} (args : args_t D) :
  forall (n : nat) (t : D),
    runs_for args n t = true ->
    dltb (Nat.iter n (fun t => dadd t (timestep args)) t) (max_time args)
    = false /\
    forall k, (k < n)%nat ->
      dltb (Nat.iter k (fun t => dadd t (timestep args)) t) (max_time args)
      = true.
Proof.
  induction n as [|n IH]; intros t H; simpl in H.
  - apply negb_true_iff in H. split; [exact H|]. intros k Hk. lia.
  - apply andb_prop in H as [Hlt Hn]. apply IH in Hn as [Hexit Hbelow].
    split; [now rewrite Nat.iter_succ_r|].
    intros [|k] Hk; [exact Hlt|].
    rewrite Nat.iter_succ_r. apply Hbelow. lia.
Qed.

(** X5.  The clock on which [universe_simulate] stops, in the arithmetic of
    the program.  A run entered below [max_time] makes [n >= 1] turns: the
    final clock is the entry clock with the timestep added [n] times, one
    addition after the other; it is the first of these values that is not
    below [max_time]; the counter has been incremented [n] times.  On
    binary64 this bounds no overshoot: the sum is rounded at every
    turn. *)
Theorem simulate_exit_clock {D : Type} {DD : Double D} (X : externals D)
    (args : args_t D) (fuel : nat) (u u' : universe_t D) (w w' : world X) :
  dltb (time u) (max_time args) = true ->
  universe_simulate X fuel u args w = Ok (u', w') ->
  exists n,
    (0 < n < fuel)%nat /\
    time u' = Nat.iter n (fun t => dadd t (timestep args)) (time u) /\
    iterations u' = Nat.iter n (fun j => u64 (j + 1)) (iterations u) /\
    dltb (time u') (max_time args) = false /\
    forall k, (k < n)%nat ->
      dltb (Nat.iter k (fun t => dadd t (timestep args)) (time u))
           (max_time args) = true.
Proof.
  intros Hlt Hrun. unfold universe_simulate in Hrun.
  destruct (simulate_loop_turns X args _ _ _ _ _ _ Hrun) as (n & Hfuel & Hruns).
  pose proof (simulate_loop_clock X args n _ _ _ _ _ _ Hruns Hrun) as Ht.
  pose proof (simulate_loop_counter X args n _ _ _ _ _ _ Hruns Hrun) as Hit.
  destruct (runs_for_clock args n (time u) Hruns) as [Hexit Hbelow].
  exists n. split.
  - split; [|exact Hfuel]. destruct n as [|n]; [|lia].
    simpl in Hexit. congruence.
  - split; [exact Ht|]. split; [exact Hit|]. split; [|exact Hbelow].
    rewrite Ht. exact Hexit.
Qed.

(** On binary64, from a clock at 0 with max_time = 1 and a timestep of
    1e17: one turn, and the run stops at 1e17, which is not below
    max_time + timestep (1 + 1e17 rounds to 1e17). *)
Lemma simulate_exit_clock_witness :
  PrimFloat.ltb (time (Demo.gas 1)) (max_time Demo2.huge_step) = true /\
  exists u' w',
    universe_simulate Demo.slope_env 5 (Demo.gas 1) Demo2.huge_step 0%nat
      = Ok (u', w') /\
    time u' = 1e17%float /\ iterations u' = 1 /\
    PrimFloat.ltb (time u') (max_time Demo2.huge_step) = false /\
    PrimFloat.ltb (time u')
      (max_time Demo2.huge_step + timestep Demo2.huge_step)%float = false.
Proof.
  assert (Hlt : dltb (time (Demo.gas 1)) (max_time Demo2.huge_step) = true)
    by (vm_compute; reflexivity).
  split; [exact Hlt|]. eexists. eexists.
  assert (Hrun : universe_simulate Demo.slope_env 5 (Demo.gas 1)
                   Demo2.huge_step 0%nat = Ok (_, _))
    by (vm_compute; reflexivity).
  split; [exact Hrun|].
  destruct (simulate_exit_clock Demo.slope_env Demo2.huge_step 5 (Demo.gas 1)
              _ 0%nat _ Hlt Hrun) as (n & _ & _ & _ & Hexit & _).
  split; [vm_compute; reflexivity|]. split; [vm_compute; reflexivity|].
  split; [exact Hexit|]. vm_compute; reflexivity.
Defined.

(** *** In exact arithmetic *)

Lemma Rltb_true (a b : R) : Rltb a b = true <-> (a < b)%R.
Proof. unfold Rltb. destruct (Rlt_dec a b); split; intros; congruence || lra. Qed.

Lemma Rltb_false (a b : R) : Rltb a b = false <-> (b <= a)%R.
Proof. unfold Rltb. destruct (Rlt_dec a b); split; intros; congruence || lra. Qed.

Lemma runs_for_overshoot (args : args_t R) :
  forall (n : nat) (t : R),
    runs_for args (S n) t = true ->
    (max_time args
     <= Nat.iter (S n) (fun t => t + timestep args) t
     < max_time args + timestep args)%R.
Proof.
  induction n as [|n IH]; intros t H.
  - simpl in H. apply andb_prop in H as [H1 H2].
    apply Rltb_true in H1. apply negb_true_iff, Rltb_false in H2.
    simpl. lra.
  - change (runs_for args (S (S n)) t)
      with (dltb t (max_time args) && runs_for args (S n) (dadd t (timestep args)))
      in H.
    apply andb_prop in H as [_ H]. apply IH in H.
    rewrite Nat.iter_succ_r. exact H.
Qed.

(** In exact arithmetic, which is not the arithmetic of the program, the
    final time is at least [max_time] and overshoots it by less than one
    timestep. *)
Lemma simulate_overshoot_exact (X : externals R) (args : args_t R) (fuel : nat)
    (u u' : universe_t R) (w w' : world X) :
  (time u < max_time args)%R ->
  universe_simulate X fuel u args w = Ok (u', w') ->
  (max_time args <= time u' < max_time args + timestep args)%R.
Proof.
  intros Hlt Hrun. unfold universe_simulate in Hrun.
  destruct (simulate_loop_turns X args _ _ _ _ _ _ Hrun) as (n & _ & Hruns).
  rewrite (simulate_loop_clock X args n _ _ _ _ _ _ Hruns Hrun).
  destruct n as [|n].
  - simpl in Hruns. apply negb_true_iff, Rltb_false in Hruns. lra.
  - now apply runs_for_overshoot.
Qed.

(** ** The minimiser *)

(** *** Not a number *)

Lemma SFcompare_refl_nan (a : spec_float) :
  SFeqb a a = false -> a = S754_nan.
Proof.
  unfold SFeqb. destruct a as [s|s| |s m e]; simpl; try discriminate; try reflexivity.
  - destruct s; discriminate.
  - rewrite Z.compare_refl, Pos.compare_cont_refl. destruct s; discriminate.
Qed.

Lemma float_ltb_nan_r (q p : float) :
  PrimFloat.is_nan p = true -> PrimFloat.ltb q p = false.
Proof.
  unfold PrimFloat.is_nan. intros H. apply negb_true_iff in H.
  rewrite FloatAxioms.eqb_spec in H. apply SFcompare_refl_nan in H.
  rewrite ltb_spec, H. unfold SFltb. now destruct (Prim2SF q).
Qed.

Lemma float_ltb_not_nan (q p : float) :
  PrimFloat.ltb q p = true ->
  PrimFloat.is_nan q = false /\ PrimFloat.is_nan p = false.
Proof.
  intros H. split.
  - destruct (PrimFloat.is_nan q) eqn:Hq; [|reflexivity].
    unfold PrimFloat.is_nan in Hq. apply negb_true_iff in Hq.
    rewrite FloatAxioms.eqb_spec in Hq. apply SFcompare_refl_nan in Hq.
    rewrite ltb_spec, Hq in H. discriminate.
  - destruct (PrimFloat.is_nan p) eqn:Hp; [|reflexivity].
    now rewrite (float_ltb_nan_r q p Hp) in H.
Qed.

Lemma montecarlo_try_nan (X : externals float) (part_id : nat) (potential : float) :
  PrimFloat.is_nan potential = true ->
  forall fuel tries mag u w st,
    montecarlo_try X fuel part_id potential tries mag u w <> Ok st.
Proof.
  intros Hnan. induction fuel as [|fuel IH]; intros tries mag u w st; simpl;
    [discriminate|].
  destruct (montecarlo_refine tries mag) as [tries1 mag1].
  destruct (atom u !! part_id) as [a|]; [|discriminate].
  destruct (montecarlo_propose X part_id mag1 u w) as [[[u1 p1] w1]| | |];
    simpl; try discriminate.
  change (dltb p1 potential) with (PrimFloat.ltb p1 potential).
  rewrite (float_ltb_nan_r p1 potential Hnan). apply IH.
Qed.

(** X6.  A potential that is not a number.  When the total potential of the
    universe it is given evaluates to NaN and there is an atom,
    [universe_montecarlo] never returns the universe: no proposal compares
    below NaN, so the loop of the first atom runs on (or fails in a
    callee). *)
Theorem montecarlo_nan_never_returns (X : externals float) (u : universe_t float)
    (potential : float) :
  universe_energy_potential X u = Ok potential ->
  PrimFloat.is_nan potential = true ->
  (0 < atom_nb u)%nat ->
  forall fuel w st, universe_montecarlo X fuel u w <> Ok st.
Proof.
  intros Hp Hnan Hn fuel w st. unfold universe_montecarlo.
  destruct (atom_nb u) as [|n]; [lia|]. cbn [for_loop].
  unfold montecarlo_atom at 1. rewrite Hp. cbn [obind].
  pose proof (montecarlo_try_nan X 0 potential Hnan fuel 0 d1em9 u w) as Htry.
  destruct (montecarlo_try X fuel 0 potential 0 d1em9 u w) as [st1| | |];
    simpl; try discriminate.
  exfalso. exact (Htry st1 eq_refl).
Qed.

Lemma montecarlo_nan_never_returns_witness :
  universe_energy_potential Demo3.nan_env (Demo.gas 2) = Ok PrimFloat.nan /\
  PrimFloat.is_nan PrimFloat.nan = true /\
  universe_montecarlo Demo3.nan_env 500 (Demo.gas 2) 0%nat = Timeout.
Proof.
  assert (Hp : universe_energy_potential Demo3.nan_env (Demo.gas 2)
               = Ok PrimFloat.nan) by (vm_compute; reflexivity).
  split; [exact Hp|]. split; [reflexivity|].
  pose proof (montecarlo_nan_never_returns Demo3.nan_env (Demo.gas 2) PrimFloat.nan
                Hp eq_refl ltac:(simpl; lia) 500%nat 0%nat) as Hnever.
  destruct (universe_montecarlo Demo3.nan_env 500 (Demo.gas 2) 0%nat)
    as [st| | |] eqn:Hrun.
  - exfalso. exact (Hnever st eq_refl).
  - exfalso. vm_compute in Hrun. discriminate.
  - exfalso. vm_compute in Hrun. discriminate.
  - reflexivity.
Defined.

(** *** Strictly lower *)

(** X7.  With at least one atom, what [universe_montecarlo] returns has a total
    potential strictly below the one it was given, in the order of
    binary64; in particular neither potential is NaN. *)
Theorem montecarlo_strictly_lower (X : externals float) (fuel : nat)
    (u u' : universe_t float) (w w' : world X) :
  (0 < atom_nb u)%nat ->
  universe_montecarlo X fuel u w = Ok (u', w') ->
  exists U_initial U_final,
    universe_energy_potential X u = Ok U_initial /\
    universe_energy_potential X u' = Ok U_final /\
    PrimFloat.ltb U_final U_initial = true /\
    PrimFloat.is_nan U_initial = false /\
    PrimFloat.is_nan U_final = false.
Proof.
  unfold universe_montecarlo. intros Hn.
  destruct (atom_nb u) as [|n]; [lia|]. cbn [for_loop]. intros H.
  apply obind_Ok in H as ([u1 w1] & Hfirst & Hrest).
  apply montecarlo_atom_exit in Hfirst as (p0 & p1 & Hp0 & Hp1 & Hlt).
  assert (HP : exists p, universe_energy_potential X u' = Ok p /\
                         PrimFloat.ltb p p0 = true).
  { apply (for_loop_inv
             (fun (_ : nat) (st : universe_t float * world X) =>
                exists p, universe_energy_potential X (fst st) = Ok p /\
                          PrimFloat.ltb p p0 = true)
             _ _ _ _ _ Hrest).
    - exists p1. now split.
    - intros k [uk wk] [uk' wk'] _ (p & Hp & Hpp0) Hbody.
      apply montecarlo_atom_exit in Hbody as (q & q' & Hq & Hq' & Hqq).
      simpl in Hp. rewrite Hp in Hq. injection Hq as <-.
      exists q'. split; [exact Hq'|]. eapply float_ltb_trans; eassumption. }
  destruct HP as (p & Hp & Hpp0). exists p0, p.
  destruct (float_ltb_not_nan p p0 Hpp0) as [Hn1 Hn0].
  repeat split; assumption.
Qed.

Lemma montecarlo_strictly_lower_witness :
  exists st U_initial U_final,
    universe_montecarlo Demo.slope_env 2 (Demo.gas 2) 0%nat = Ok st /\
    universe_energy_potential Demo.slope_env (Demo.gas 2) = Ok U_initial /\
    universe_energy_potential Demo.slope_env (fst st) = Ok U_final /\
    PrimFloat.ltb U_final U_initial = true /\
    PrimFloat.is_nan U_initial = false /\
    PrimFloat.is_nan U_final = false.
Proof.
  eexists.
  assert (Hrun : universe_montecarlo Demo.slope_env 2 (Demo.gas 2) 0%nat = Ok (_, _))
    by (vm_compute; reflexivity).
  destruct (montecarlo_strictly_lower Demo.slope_env 2 (Demo.gas 2) _ 0%nat _
              ltac:(simpl; lia) Hrun) as (Ui & Uf & H).
  exists Ui, Uf. split; [exact Hrun|exact H].
Defined.

(** *** Only positions move *)

Section Moves_proofs.
Context {D : Type} {DD : Double D} (X : externals D).

Lemma set_pos_id (a : atom_t D) : set_pos a (pos a) = a.
Proof. now destruct a. Qed.

Lemma set_pos_set_pos (a : atom_t D) (p q : vec3d_t D) :
  set_pos (set_pos a p) q = set_pos a q.
Proof. reflexivity. Qed.

Lemma moved_only_refl (u : universe_t D) : moved_only u u.
Proof.
  split; [apply set_atom_id|]. split; [reflexivity|].
  intros i a Ha. exists (pos a). now rewrite set_pos_id.
Qed.

Lemma moved_only_trans (u t v : universe_t D) :
  moved_only u t -> moved_only t v -> moved_only u v.
Proof.
  intros (Ht & Hlt & Hat) (Hv & Hlv & Hav). split; [|split].
  - rewrite Hv, Ht. reflexivity.
  - congruence.
  - intros i a Ha. destruct (Hat i a Ha) as (p & Hp).
    destruct (Hav i _ Hp) as (q & Hq). exists q. exact Hq.
Qed.

(** Writing a position in place of atom [i]. *)
Lemma moved_only_insert (u : universe_t D) (i : nat) (a : atom_t D)
    (p : vec3d_t D) :
  atom u !! i = Some a ->
  moved_only u (set_atom u (<[i := set_pos a p]> (atom u))).
Proof.
  intros Ha. split; [reflexivity|]. simpl. split; [apply length_insert|].
  intros j b Hb. destruct (decide (j = i)) as [->|Hne].
  - rewrite list_lookup_insert_eq by (eapply lookup_lt_Some; eauto).
    rewrite Ha in Hb. injection Hb as <-. eauto.
  - rewrite list_lookup_insert_ne by congruence.
    exists (pos b). now rewrite set_pos_id.
Qed.

Lemma set_atom_pos_moved (u : universe_t D) (i : nat) (p : vec3d_t D) :
  moved_only u (set_atom_pos u i p).
Proof.
  unfold set_atom_pos. destruct (atom u !! i) as [a|] eqn:Ha.
  - now apply moved_only_insert.
  - apply moved_only_refl.
Qed.

Lemma enforce_pbc_pass_moved (i : nat) (u u' : universe_t D) :
  enforce_pbc_pass X i u = Ok u' -> moved_only u u'.
Proof.
  unfold enforce_pbc_pass. destruct (atom u !! i) as [a|] eqn:Ha; [|discriminate].
  destruct (atom_enforce_pbc X u i) as [p|]; [|discriminate].
  intros H. injection H as <-. now apply moved_only_insert.
Qed.

Lemma montecarlo_propose_moved part_id mag (u u' : universe_t D) (w w' : world X) p :
  montecarlo_propose X part_id mag u w = Ok (u', p, w') -> moved_only u u'.
Proof.
  unfold montecarlo_propose. destruct (atom u !! part_id) as [a|]; [|discriminate].
  destruct (vec3d_marsaglia X w) as [o w1]. intros H.
  apply obind_Ok in H as (u1 & Hpbc & H).
  apply obind_Ok in H as (p1 & _ & H). injection H as <- _ _.
  eapply moved_only_trans; [apply set_atom_pos_moved|].
  eapply enforce_pbc_pass_moved; exact Hpbc.
Qed.

Lemma montecarlo_try_moved fuel part_id potential :
  forall tries mag (u u' : universe_t D) (w w' : world X),
    montecarlo_try X fuel part_id potential tries mag u w = Ok (u', w') ->
    moved_only u u'.
Proof.
  induction fuel as [|fuel IH]; intros tries mag u u' w w'; simpl; [discriminate|].
  destruct (montecarlo_refine tries mag) as [tries1 mag1].
  destruct (atom u !! part_id) as [a|]; [|discriminate].
  intros H. apply obind_Ok in H as ([[u1 p1] w1] & Hprop & H).
  apply montecarlo_propose_moved in Hprop.
  destruct (dltb p1 potential).
  - now injection H as <- <-.
  - apply IH in H. eapply moved_only_trans; [exact Hprop|].
    eapply moved_only_trans; [apply set_atom_pos_moved|exact H].
Qed.

Lemma universe_montecarlo_moved fuel (u u' : universe_t D) (w w' : world X) :
  universe_montecarlo X fuel u w = Ok (u', w') -> moved_only u u'.
Proof.
  unfold universe_montecarlo. intros Hrun.
  apply (for_loop_inv (fun _ (st : universe_t D * world X) => moved_only u (fst st))
           _ _ _ _ _ Hrun).
  - apply moved_only_refl.
  - intros k [t wt] [t' wt'] _ Ht Hbody. simpl in *.
    unfold montecarlo_atom in Hbody.
    apply obind_Ok in Hbody as (p & _ & Hbody).
    apply montecarlo_try_moved in Hbody.
    eapply moved_only_trans; eassumption.
Qed.

End Moves_proofs.

(** X8.  [universe_montecarlo] moves atoms and does nothing else: the universe
    it returns has the same atoms in the same places of the array, each
    one differing from the original in its position at most (species,
    charge, bonds, velocity, acceleration and force are kept), and the
    clock, the counters, the reference molecule and the file are
    untouched. *)
Theorem montecarlo_moves_only {D : Type} {DD : Double D} (X : externals D)
    (fuel : nat) (u u' : universe_t D) (w w' : world X) :
  universe_montecarlo X fuel u w = Ok (u', w') ->
  u' = set_atom u (atom u') /\
  length (atom u') = length (atom u) /\
  forall i a, atom u !! i = Some a ->
    exists p, atom u' !! i = Some (set_pos a p).
Proof. intros Hrun. exact (universe_montecarlo_moved X fuel u u' w w' Hrun). Qed.

Lemma montecarlo_moves_only_witness :
  exists st p,
    universe_montecarlo Demo.slope_env 2 (Demo.gas 2) 0%nat = Ok st /\
    atom (fst st) !! 1%nat = Some (set_pos Demo.hydrogen p) /\
    time (fst st) = time (Demo.gas 2).
Proof.
  eexists.
  assert (Hrun : universe_montecarlo Demo.slope_env 2 (Demo.gas 2) 0%nat = Ok (_, _))
    by (vm_compute; reflexivity).
  destruct (montecarlo_moves_only Demo.slope_env 2 (Demo.gas 2) _ 0%nat _ Hrun)
    as (Hframe & _ & Hatoms).
  destruct (Hatoms 1%nat Demo.hydrogen eq_refl) as (p & Hp).
  exists p. split; [exact Hrun|]. split; [exact Hp|]. reflexivity.
Defined.

(** *** The refinement of the step *)


(** ** Energies *)

Section Energy_proofs.
Context {D : Type} {DD : Double D} (X : externals D).

(** The loop of [universe_energy_potential] as a traversal: the first
    failing [potential_total] makes it NULL, otherwise it adds the
    potentials to the accumulator from left to right. *)
Lemma energy_potential_loop (u : universe_t D) :
  forall (n start : nat) (energy : D),
    for_loop n start (energy_potential_step X u) energy
    = match mapM (potential_total X u) (seq start n) with
      | Some ps => Ok (foldl dadd energy ps)
      | None => Null
      end.
Proof.
  induction n as [|n IH]; intros start energy; [reflexivity|].
  cbn [for_loop seq mapM]. unfold energy_potential_step at 1.
  destruct (potential_total X u start) as [p|]; [|reflexivity].
  cbn [obind]. rewrite IH. simpl.
  destruct (mapM (potential_total X u) (seq (S start) n)); reflexivity.
Qed.

(** The loop of [universe_energy_kinetic] over atoms that are there. *)
Lemma energy_kinetic_loop (POW2 : D -> D) (u : universe_t D) :
  forall (n : nat),
    (n <= length (atom u))%nat ->
    for_loop n 0 (energy_kinetic_step X POW2 u) dzero
    = Ok (foldl (fun e a =>
                   dadd e (dmul (dmul d0p5 (POW2 (vec3d_mag (vel a))))
                                (model_mass X (element a))))
                dzero (take n (atom u))).
Proof.
  intros n Hn.
  destruct (for_loop_returns
              (fun _ : D => True) (energy_kinetic_step X POW2 u) n 0 dzero I)
    as (e & He & _).
  { intros k t Hk _. unfold energy_kinetic_step.
    destruct (lookup_lt_is_Some_2 (atom u) k) as [a Ha]; [lia|].
    rewrite Ha. eauto. }
  rewrite He. f_equal.
  apply (for_loop_inv
           (fun k e => e = foldl (fun e a =>
                   dadd e (dmul (dmul d0p5 (POW2 (vec3d_mag (vel a))))
                                (model_mass X (element a))))
                dzero (take k (atom u))) _ _ _ _ _ He).
  - reflexivity.
  - intros k t t' _ -> Hb. unfold energy_kinetic_step in Hb.
    destruct (atom u !! k) as [a|] eqn:Ha; [|discriminate].
    injection Hb as <-. now rewrite (take_S_r _ _ _ Ha), foldl_app.
Qed.

End Energy_proofs.

(** X10.  [universe_energy_potential] returns NULL exactly when
    [potential_total] fails for one of the live atoms; otherwise it
    returns the potentials of atoms 0, 1, ... added to 0.0 in that order.
    It has no other outcome. *)
Theorem universe_energy_potential_cases {D : Type} {DD : Double D}
    (X : externals D) (u : universe_t D) :
  (universe_energy_potential X u = Null <->
   exists i, (i < atom_nb u)%nat /\ potential_total X u i = None) /\
  (forall e, universe_energy_potential X u = Ok e ->
     exists ps,
       Forall2 (fun i p => potential_total X u i = Some p)
               (seq 0 (atom_nb u)) ps /\
       e = foldl dadd dzero ps) /\
  ((forall i, (i < atom_nb u)%nat -> potential_total X u i <> None) ->
   exists e, universe_energy_potential X u = Ok e).
Proof.
  unfold universe_energy_potential. rewrite energy_potential_loop.
  destruct (mapM (potential_total X u) (seq 0 (atom_nb u))) as [ps|] eqn:Hm.
  - apply mapM_Some in Hm. split; [|split].
    + split; [discriminate|]. intros (i & Hi & Hnone). exfalso.
      destruct (Forall2_lookup_l _ _ _ i i Hm) as (p & _ & Hp);
        [now apply lookup_seq_lt|]. congruence.
    + intros e He. injection He as <-. eauto.
    + eauto.
  - apply mapM_None in Hm. apply Exists_exists in Hm as (i & Hi & Hnone).
    apply elem_of_seq in Hi. split; [|split].
    + split; [|reflexivity]. intros _. exists i. split; [lia|exact Hnone].
    + discriminate.
    + intros Hall. exfalso. apply (Hall i); [lia|exact Hnone].
Qed.

(** Two atoms, the potential of the second cannot be computed. *)
Lemma universe_energy_potential_cases_witness :
  universe_energy_potential Demo3.failing_env (Demo.gas 2) = Null /\
  (exists i, (i < atom_nb (Demo.gas 2))%nat /\
             potential_total Demo3.failing_env (Demo.gas 2) i = None) /\
  exists e ps,
    universe_energy_potential Demo.slope_env (Demo.gas 2) = Ok e /\
    Forall2 (fun i p => potential_total Demo.slope_env (Demo.gas 2) i = Some p)
            (seq 0 (atom_nb (Demo.gas 2))) ps /\
    e = foldl dadd dzero ps.
Proof.
  destruct (universe_energy_potential_cases Demo3.failing_env (Demo.gas 2))
    as ([Hnull _] & _ & _).
  assert (H : universe_energy_potential Demo3.failing_env (Demo.gas 2) = Null)
    by (vm_compute; reflexivity).
  split; [exact H|]. split; [exact (Hnull H)|].
  destruct (universe_energy_potential_cases Demo.slope_env (Demo.gas 2))
    as (_ & Hok & _).
  assert (He : universe_energy_potential Demo.slope_env (Demo.gas 2) = Ok _)
    by (vm_compute; reflexivity).
  destruct (Hok _ He) as (ps & Hps & Hsum).
  eexists _, ps. split; [exact He|]. split; [exact Hps|exact Hsum].
Defined.

(** X11.  On a universe whose atoms are there, [universe_energy_kinetic] always
    returns: the terms [0.5 * POW2(|v|) * m] of atoms 0, 1, ... added to
    0.0 in that order.  [universe_energy_total] then returns that sum plus
    the potential energy, and NULL exactly when
    [universe_energy_potential] returns NULL. *)
Theorem universe_energy_total_cases {D : Type} {DD : Double D}
    (X : externals D) (POW2 : D -> D) (u : universe_t D) :
  atoms_allocated u ->
  exists kinetic,
    universe_energy_kinetic X POW2 u = Ok kinetic /\
    kinetic = foldl (fun e a =>
                       dadd e (dmul (dmul d0p5 (POW2 (vec3d_mag (vel a))))
                                    (model_mass X (element a))))
                    dzero (take (atom_nb u) (atom u)) /\
    (forall potential,
       universe_energy_potential X u = Ok potential ->
       universe_energy_total X POW2 u = Ok (dadd kinetic potential)) /\
    (universe_energy_total X POW2 u = Null <->
     universe_energy_potential X u = Null).
Proof.
  intros Hu. unfold universe_energy_total, universe_energy_kinetic.
  rewrite (energy_kinetic_loop X POW2 u (atom_nb u) Hu).
  eexists. split; [reflexivity|]. split; [reflexivity|]. cbn [obind]. split.
  - intros p ->. reflexivity.
  - destruct (universe_energy_potential X u); simpl; split;
      intros; congruence.
Qed.

Lemma universe_energy_total_cases_witness :
  atoms_allocated (Demo.gas 2) /\
  universe_energy_total Demo.slope_env (fun v => v * v)%float (Demo.gas 2)
    = Ok 0%float /\
  universe_energy_total Demo3.failing_env (fun v => v * v)%float (Demo.gas 2)
    = Null.
Proof.
  split; [apply demo_gas_allocated|].
  destruct (universe_energy_total_cases Demo.slope_env (fun v => v * v)%float
              (Demo.gas 2) (demo_gas_allocated 2)) as (k & Hk & _ & Hok & _).
  destruct (universe_energy_total_cases Demo3.failing_env (fun v => v * v)%float
              (Demo.gas 2) (demo_gas_allocated 2)) as (k' & _ & _ & _ & Hnull).
  split.
  - rewrite (Hok 0%float) by (vm_compute; reflexivity).
    vm_compute in Hk. injection Hk as <-. vm_compute. reflexivity.
  - apply Hnull. vm_compute. reflexivity.
Defined.

(** ** What [universe_load] reads *)

Section Load_atoms.
Context {D : Type} {DD : Double D} (X : externals D) (inp : input_t D).

Lemma same_particle_refl (a : atom_t D) : same_particle a a.
Proof. now repeat split. Qed.

Lemma same_particle_trans (a b c : atom_t D) :
  same_particle a b -> same_particle b c -> same_particle a c.
Proof. unfold same_particle. intuition congruence. Qed.

Lemma same_particles_refl (t : list (atom_t D)) : same_particles t t.
Proof. split; [reflexivity|]. intros k a Ha. exists a. split; [exact Ha|apply same_particle_refl]. Qed.

Lemma same_particles_trans (t t' t'' : list (atom_t D)) :
  same_particles t t' -> same_particles t' t'' -> same_particles t t''.
Proof.
  intros [Hl H] [Hl' H']. split; [congruence|].
  intros k a Ha. destruct (H k a Ha) as (a' & Ha' & Hp).
  destruct (H' k a' Ha') as (a'' & Ha'' & Hp'). exists a''.
  split; [exact Ha''|]. eapply same_particle_trans; eassumption.
Qed.

Lemma same_particles_insert (t : list (atom_t D)) (k : nat) (r r' : atom_t D) :
  t !! k = Some r -> same_particle r r' ->
  same_particles t (<[k := r']> t).
Proof.
  intros Hr Hp. split; [apply length_insert|].
  intros j a Ha. destruct (decide (j = k)) as [->|Hne].
  - rewrite list_lookup_insert_eq by (eapply lookup_lt_Some; eauto).
    rewrite Hr in Ha. injection Ha as <-. eauto.
  - rewrite list_lookup_insert_ne by congruence.
    exists a. split; [exact Ha|apply same_particle_refl].
Qed.

Lemma bump_bond_nb_particles (ref ref' : list (atom_t D)) (a : Z) :
  bump_bond_nb ref a = Ok ref' -> same_particles ref ref'.
Proof.
  unfold bump_bond_nb. destruct (ref !! idx (u64 (a - 1))) as [r|] eqn:Hr;
    [|discriminate].
  intros H. injection H as <-. apply same_particles_insert with (r := r);
    [exact Hr|now repeat split].
Qed.

Lemma store_bond_particles (ref ref' : list (atom_t D)) (k : nat)
    (slot partner : Z) (strength : D) :
  store_bond ref k slot partner strength = Ok ref' -> same_particles ref ref'.
Proof.
  unfold store_bond. destruct (ref !! k) as [r|] eqn:Hr; [|discriminate].
  destruct (decide _); [|discriminate]. simpl.
  destruct (decide _); [|discriminate].
  intros H. injection H as <-. apply same_particles_insert with (r := r);
    [exact Hr|now repeat split].
Qed.

Lemma load_count_particles (ref ref' : list (atom_t D)) :
  for_loop (in_bond_nb inp) 0 (load_count_bonds inp) ref = Ok ref' ->
  same_particles ref ref'.
Proof.
  intros Hrun.
  apply (for_loop_inv (fun _ t => same_particles ref t) _ _ _ _ _ Hrun).
  - apply same_particles_refl.
  - intros k t t' _ Ht Hb. unfold load_count_bonds in Hb.
    destruct (in_bonds inp !! k); [|discriminate].
    apply obind_Ok in Hb as (t1 & H1 & H2).
    apply bump_bond_nb_particles in H1, H2.
    eapply same_particles_trans; [exact Ht|].
    eapply same_particles_trans; eassumption.
Qed.

Lemma load_alloc_particles (n : nat) (ref ref' : list (atom_t D)) (w w' : world X) :
  for_loop n 0 (load_alloc_bonds X) (ref, w) = Ok (ref', w') ->
  same_particles ref ref'.
Proof.
  intros Hrun.
  apply (for_loop_inv
           (fun _ (st : list (atom_t D) * world X) => same_particles ref (fst st))
           _ _ _ _ _ Hrun).
  - apply same_particles_refl.
  - intros k [t wt] [t' wt'] _ Ht Hb. simpl in *.
    destruct (t !! k) as [r|] eqn:Hr; [|discriminate].
    apply obind_Ok in Hb as (w1 & _ & Hb).
    apply obind_Ok in Hb as (w2 & _ & Hb). injection Hb as <- <-.
    eapply same_particles_trans; [exact Ht|].
    apply same_particles_insert with (r := r); [exact Hr|now repeat split].
Qed.

Lemma load_fill_particles (ref ref' : list (atom_t D)) (c c' : list Z) :
  for_loop (in_bond_nb inp) 0 (load_fill_bonds inp) (ref, c) = Ok (ref', c') ->
  same_particles ref ref'.
Proof.
  intros Hrun.
  apply (for_loop_inv
           (fun _ (st : list (atom_t D) * list Z) => same_particles ref (fst st))
           _ _ _ _ _ Hrun).
  - apply same_particles_refl.
  - intros k [t ct] [t' ct'] _ Ht Hb. simpl in *.
    destruct (in_bonds inp !! k) as [l|]; [|discriminate].
    destruct (ct !! idx (u64 (bl_a1 l - 1))) as [c1|]; [|discriminate].
    apply obind_Ok in Hb as (t1 & H1 & Hb).
    destruct (ct !! idx (u64 (bl_a2 l - 1))) as [c2|]; [|discriminate].
    apply obind_Ok in Hb as (t2 & H2 & Hb).
    destruct (_ !! idx (u64 (bl_a2 l - 1))) in Hb; [|discriminate].
    injection Hb as <- _.
    apply store_bond_particles in H1, H2.
    eapply same_particles_trans; [exact Ht|].
    eapply same_particles_trans; eassumption.
Qed.

(** The atom block: atom [i] is atom line [i] read into a fresh atom. *)
Lemma load_atom_loop_values (ref' : list (atom_t D)) :
  for_loop (in_atom_nb inp) 0 (load_atom_block inp)
           (replicate (in_atom_nb inp) atom_init) = Ok ref' ->
  length ref' = in_atom_nb inp /\
  forall i, (i < in_atom_nb inp)%nat ->
    exists l, in_atoms inp !! i = Some l /\
              ref' !! i = Some (load_atom_line l atom_init).
Proof.
  intros Hrun.
  pose (P := fun (k : nat) (t : list (atom_t D)) =>
    length t = in_atom_nb inp /\
    (forall i, (i < k)%nat ->
       exists l, in_atoms inp !! i = Some l /\
                 t !! i = Some (load_atom_line l atom_init)) /\
    (forall i, (k <= i < in_atom_nb inp)%nat -> t !! i = Some atom_init)).
  assert (HP : P (0 + in_atom_nb inp)%nat ref').
  { eapply (for_loop_inv P); [exact Hrun | |].
    - split; [apply length_replicate|]. split; [intros i Hi; lia|].
      intros i Hi. apply lookup_replicate_2. lia.
    - intros k t t' Hk (Hl & Hdone & Hrest) Hb. unfold load_atom_block in Hb.
      destruct (in_atoms inp !! k) as [l|] eqn:Hline; [|discriminate].
      destruct (t !! k) as [a|] eqn:Ha; [|discriminate].
      injection Hb as <-.
      rewrite (Hrest k ltac:(lia)) in Ha. injection Ha as <-.
      split; [now rewrite length_insert|]. split.
      + intros i Hi. destruct (decide (i = k)) as [->|Hne].
        * exists l. split; [exact Hline|].
          apply list_lookup_insert_eq. lia.
        * rewrite list_lookup_insert_ne by congruence. apply Hdone. lia.
      + intros i Hi. rewrite list_lookup_insert_ne by lia. apply Hrest. lia. }
  destruct HP as (Hl & Hdone & _). split; [exact Hl|].
  intros i Hi. apply Hdone. lia.
Qed.

(** The structure of a successful load. *)
Lemma universe_load_phases (u u' : universe_t D) (w w' : world X) :
  universe_load X u inp w = Ok (u', w') ->
  exists ref1 ref2 ref3 c0 c4 w3 w4,
    for_loop (in_atom_nb inp) 0 (load_atom_block inp)
             (replicate (in_atom_nb inp) atom_init) = Ok ref1 /\
    bond_index_init X w4 (in_atom_nb inp) (in_bond_nb inp) = Ok c0 /\
    for_loop (in_bond_nb inp) 0 (load_count_bonds inp) ref1 = Ok ref2 /\
    for_loop (in_atom_nb inp) 0 (load_alloc_bonds X) (ref2, w3) = Ok (ref3, w') /\
    for_loop (in_bond_nb inp) 0 (load_fill_bonds inp) (ref3, c0)
      = Ok (ref_atom u', c4) /\
    u' = set_ref_atom
           (set_header u (in_name inp) (in_author inp) (in_comment inp)
                       (in_atom_nb inp) (in_bond_nb inp))
           (ref_atom u').
Proof.
  unfold universe_load. intros H.
  do 4 (apply obind_Ok in H as (? & _ & H)).
  apply obind_Ok in H as (ref1 & Hatoms & H).
  do 3 (apply obind_Ok in H as (? & _ & H)).
  apply obind_Ok in H as (w3 & _ & H).
  apply obind_Ok in H as (c0 & Hinit & H).
  apply obind_Ok in H as (ref2 & Hcount & H).
  apply obind_Ok in H as ([ref3 w5] & Halloc & H).
  apply obind_Ok in H as ([ref4 c4] & Hfill & H).
  injection H as <- <-. simpl.
  exists ref1, ref2, ref3, c0, c4, w3. eexists.
  repeat split; eassumption.
Qed.

End Load_atoms.

(** What a load that returns has read. *)
Lemma universe_load_values {D : Type} {DD : Double D} (X : externals D)
    (u u' : universe_t D) (inp : input_t D) (w w' : world X) :
  universe_load X u inp w = Ok (u', w') ->
  u' = set_ref_atom
         (set_header u (in_name inp) (in_author inp) (in_comment inp)
                     (in_atom_nb inp) (in_bond_nb inp))
         (ref_atom u') /\
  length (ref_atom u') = in_atom_nb inp /\
  forall i, (i < in_atom_nb inp)%nat ->
    exists l a,
      in_atoms inp !! i = Some l /\ ref_atom u' !! i = Some a /\
      element a = al_element l /\ charge a = al_charge l /\
      epsilon a = al_epsilon l /\ sigma a = al_sigma l /\
      pos a = vec3d_mul (Vec3d (al_x l) (al_y l) (al_z l)) d1em10 /\
      vel a = vec3d_zero /\ acc a = vec3d_zero /\ frc a = vec3d_zero.
Proof.
  intros Hrun.
  destruct (universe_load_phases X inp u u' w w' Hrun)
    as (ref1 & ref2 & ref3 & c0 & c4 & w3 & w4 &
        Hatoms & _ & Hcount & Halloc & Hfill & Hu).
  apply load_atom_loop_values in Hatoms as [Hl1 Hvals].
  apply load_count_particles in Hcount.
  apply load_alloc_particles in Halloc.
  apply load_fill_particles in Hfill.
  pose proof (same_particles_trans _ _ _ Hcount
                (same_particles_trans _ _ _ Halloc Hfill)) as [Hlen Hsame].
  split; [exact Hu|]. split; [congruence|].
  intros i Hi. destruct (Hvals i Hi) as (l & Hline & Hr1).
  destruct (Hsame i _ Hr1) as (a & Ha & He & Hc & Hep & Hs & Hp & Hv & Hac & Hf).
  exists l, a. rewrite He, Hc, Hep, Hs, Hp, Hv, Hac, Hf.
  repeat split; assumption.
Qed.

(** X12.  After [universe_load] has returned the universe: the metadata and the
    two counts are those of the file, and reference atom [i] carries the
    species, charge and Lennard-Jones parameters of atom line [i], the
    position of that line scaled by 1E-10 (Angstroms to metres), and a
    zero velocity, acceleration and force.  The other fields of the
    universe are as they were. *)
Theorem universe_load_atoms {D : Type} {DD : Double D} (X : externals D)
    (u u' : universe_t D) (inp : input_t D) (w w' : world X) :
  universe_load X u inp w = Ok (u', w') ->
  u' = set_ref_atom
         (set_header u (in_name inp) (in_author inp) (in_comment inp)
                     (in_atom_nb inp) (in_bond_nb inp))
         (ref_atom u') /\
  length (ref_atom u') = in_atom_nb inp /\
  forall i, (i < in_atom_nb inp)%nat ->
    exists l a,
      in_atoms inp !! i = Some l /\ ref_atom u' !! i = Some a /\
      element a = al_element l /\ charge a = al_charge l /\
      epsilon a = al_epsilon l /\ sigma a = al_sigma l /\
      pos a = vec3d_mul (Vec3d (al_x l) (al_y l) (al_z l)) d1em10 /\
      vel a = vec3d_zero /\ acc a = vec3d_zero /\ frc a = vec3d_zero.
Proof. exact (universe_load_values X u u' inp w w'). Qed.

(** The dimer: the second atom sits 0.74 Angstroms, that is 7.4e-11 m,
    along x. *)
Lemma universe_load_atoms_witness :
  exists st a,
    universe_load Demo.slope_env Demo.blank Demo.dimer 0%nat = Ok st /\
    ref_atom_nb (fst st) = 2%nat /\ ref_bond_nb (fst st) = 1%nat /\
    meta_name (fst st) = "H2"%string /\
    ref_atom (fst st) !! 1%nat = Some a /\
    element a = 1 /\
    pos a = vec3d_mul (Vec3d 0.74%float 0%float 0%float) 1e-10%float /\
    vel a = vec3d_zero /\ acc a = vec3d_zero /\ frc a = vec3d_zero.
Proof.
  eexists.
  assert (Hrun : universe_load Demo.slope_env Demo.blank Demo.dimer 0%nat
                 = Ok (_, _)) by (vm_compute; reflexivity).
  destruct (universe_load_atoms Demo.slope_env Demo.blank _ Demo.dimer 0%nat _ Hrun)
    as (Hu & _ & Hatoms).
  destruct (Hatoms 1%nat ltac:(simpl; lia))
    as (l & a & Hl & Ha & He & _ & _ & _ & Hp & Hv & Hac & Hf).
  simpl in Hl. injection Hl as <-.
  exists a. split; [exact Hrun|].
  repeat split; try assumption; reflexivity.
Defined.

(** ** What [universe_load] does not check *)

Lemma obind_returns_or_undefined {A B} (o : outcome A) (k : A -> outcome B) :
  returns_or_undefined o -> (forall a, returns_or_undefined (k a)) ->
  returns_or_undefined (obind o k).
Proof. intros [->|[a ->]] Hk; simpl; [now left|apply Hk]. Qed.

Lemma for_loop_returns_or_undefined {S : Type} (body : nat -> S -> outcome S) :
  (forall k t, returns_or_undefined (body k t)) ->
  forall n start s, returns_or_undefined (for_loop n start body s).
Proof.
  intros Hbody. induction n as [|n IH]; intros start s; simpl.
  - right. eauto.
  - apply obind_returns_or_undefined; [apply Hbody|]. intros a. apply IH.
Qed.

(** The invariant rule of [for_loop], for a loop that is shown to
    return. *)
Lemma for_loop_returns_inv {S : Type} (P : nat -> S -> Prop)
    (body : nat -> S -> outcome S) :
  forall (n start : nat) (s : S),
    P start s ->
    (forall k t, (start <= k < start + n)%nat -> P k t ->
                 exists t', body k t = Ok t' /\ P (Datatypes.S k) t') ->
    exists s', for_loop n start body s = Ok s' /\ P (start + n)%nat s'.
Proof.
  induction n as [|n IH]; intros start s Hs Hbody; simpl.
  - rewrite Nat.add_0_r. eauto.
  - destruct (Hbody start s) as (t & Hb & Ht); [lia|exact Hs|].
    rewrite Hb. simpl.
    replace (start + Datatypes.S n)%nat with (Datatypes.S start + n)%nat by lia.
    apply IH; [exact Ht|]. intros k t0 Hk. apply Hbody. lia.
Qed.

Section Load_unchecked.
Context {D : Type} {DD : Double D} (X : externals D) (inp : input_t D).

Lemma bump_bond_nb_unchecked (ref : list (atom_t D)) (a : Z) :
  returns_or_undefined (bump_bond_nb ref a).
Proof.
  unfold bump_bond_nb. destruct (ref !! _); [right; eauto|now left].
Qed.

Lemma store_bond_unchecked (ref : list (atom_t D)) (k : nat) (slot partner : Z)
    (strength : D) :
  returns_or_undefined (store_bond ref k slot partner strength).
Proof.
  unfold store_bond. destruct (ref !! k); [|now left].
  destruct (decide _); [|now left]. simpl.
  destruct (decide _); [right; eauto|now left].
Qed.

Lemma load_fill_bonds_unchecked (i : nat) (st : list (atom_t D) * list Z) :
  returns_or_undefined (load_fill_bonds inp i st).
Proof.
  destruct st as [ref c]. unfold load_fill_bonds.
  destruct (in_bonds inp !! i) as [l|]; [|now left].
  destruct (c !! idx (u64 (bl_a1 l - 1))); [|now left].
  apply obind_returns_or_undefined; [apply store_bond_unchecked|]. intros t1.
  destruct (c !! idx (u64 (bl_a2 l - 1))); [|now left].
  apply obind_returns_or_undefined; [apply store_bond_unchecked|]. intros t2.
  destruct (_ !! idx (u64 (bl_a2 l - 1))); [right; eauto|now left].
Qed.

Section Allocations_succeed.
Hypothesis allocations_succeed : forall w : world X, fst (malloc X w) = true.

Lemma try_malloc_succeeds (w : world X) : try_malloc X w = Ok (snd (malloc X w)).
Proof.
  unfold try_malloc. specialize (allocations_succeed w).
  destruct (malloc X w) as [ok w1]. simpl in *. now subst ok.
Qed.

Lemma universe_load_unchecked (u : universe_t D) (w : world X) :
  returns_or_undefined (universe_load X u inp w).
Proof.
  unfold universe_load. repeat (rewrite try_malloc_succeeds; cbn [obind]).
  apply obind_returns_or_undefined.
  { apply for_loop_returns_or_undefined. intros k t. unfold load_atom_block.
    destruct (in_atoms inp !! k); [|now left].
    destruct (t !! k); [right; eauto|now left]. }
  intros ref1. repeat (rewrite try_malloc_succeeds; cbn [obind]).
  apply obind_returns_or_undefined.
  { unfold bond_index_init, memset_zero.
    destruct (decide _); [right; eauto|now left]. }
  intros c0. apply obind_returns_or_undefined.
  { apply for_loop_returns_or_undefined. intros k t. unfold load_count_bonds.
    destruct (in_bonds inp !! k); [|now left].
    apply obind_returns_or_undefined; [apply bump_bond_nb_unchecked|].
    intros t1. apply bump_bond_nb_unchecked. }
  intros ref2. apply obind_returns_or_undefined.
  { apply for_loop_returns_or_undefined. intros k [t wt]. simpl.
    destruct (t !! k); [|now left].
    repeat (rewrite try_malloc_succeeds; cbn [obind]).
    right. eauto. }
  intros [ref3 w3]. apply obind_returns_or_undefined.
  { apply for_loop_returns_or_undefined. apply load_fill_bonds_unchecked. }
  intros [ref4 c4]. right. eauto.
Qed.

End Allocations_succeed.

Lemma bump_bond_nb_in_range (ref ref' : list (atom_t D)) (a : Z) :
  bump_bond_nb ref a = Ok ref' ->
  length ref' = length ref /\ (idx (u64 (a - 1)) < length ref)%nat.
Proof.
  unfold bump_bond_nb. destruct (ref !! idx (u64 (a - 1))) as [r|] eqn:Hr;
    [|discriminate].
  intros H. injection H as <-. split; [apply length_insert|].
  eapply lookup_lt_Some; eauto.
Qed.

(** A load that returns has read an input whose lines are all there and
    whose bond lines name atoms of the molecule. *)
Lemma universe_load_in_range (u u' : universe_t D) (w w' : world X) :
  universe_load X u inp w = Ok (u', w') -> input_in_range inp.
Proof.
  intros Hrun.
  destruct (universe_load_phases X inp u u' w w' Hrun)
    as (ref1 & ref2 & ref3 & c0 & c4 & w3 & w4 &
        Hatoms & Hinit & Hcount & _).
  apply load_atom_loop_values in Hatoms as [Hl1 Hvals].
  split; [|split].
  - intros i Hi. destruct (Hvals i Hi) as (l & Hl & _). now exists l.
  - unfold bond_index_init, memset_zero in Hinit.
    destruct (decide _) as [Hb|]; [|discriminate].
    unfold fresh_block in Hb. now rewrite length_map, length_seq in Hb.
  - pose (P := fun (k : nat) (t : list (atom_t D)) =>
      length t = in_atom_nb inp /\
      forall i, (i < k)%nat ->
        exists l, in_bonds inp !! i = Some l /\
                  (bond_first l < in_atom_nb inp)%nat /\
                  (bond_second l < in_atom_nb inp)%nat).
    assert (HP : P (0 + in_bond_nb inp)%nat ref2).
    { eapply (for_loop_inv P); [exact Hcount | |].
      - split; [exact Hl1|]. intros i Hi. lia.
      - intros k t t' Hk [Hl Hdone] Hb. unfold load_count_bonds in Hb.
        destruct (in_bonds inp !! k) as [l|] eqn:Hline; [|discriminate].
        apply obind_Ok in Hb as (t1 & H1 & H2).
        apply bump_bond_nb_in_range in H1 as [Hl1' Hf].
        apply bump_bond_nb_in_range in H2 as [Hl2' Hs].
        split; [congruence|]. intros i Hi.
        destruct (decide (i = k)) as [->|Hne]; [|apply Hdone; lia].
        exists l. split; [exact Hline|].
        unfold bond_first, bond_second. split; [lia|]. rewrite <- Hl, <- Hl1'. exact Hs. }
    exact (proj2 HP).
Qed.

End Load_unchecked.

(** X13.  [universe_load] validates nothing that it reads.  While the
    allocations succeed it has no failing return: either it returns the
    universe, or it has run into undefined behaviour. *)
Theorem universe_load_never_fails {D : Type} {DD : Double D} (X : externals D)
    (u : universe_t D) (inp : input_t D) (w : world X) :
  (forall w : world X, fst (malloc X w) = true) ->
  universe_load X u inp w = Undef \/
  exists u' w', universe_load X u inp w = Ok (u', w').
Proof.
  intros Hm. destruct (universe_load_unchecked X inp Hm u w) as [H|[[u' w'] H]].
  - now left.
  - right. eauto.
Qed.

Lemma universe_load_never_fails_witness :
  universe_load Demo.slope_env Demo.blank Demo4.zero_based_dimer 0%nat = Undef \/
  exists u' w',
    universe_load Demo.slope_env Demo.blank Demo4.zero_based_dimer 0%nat
    = Ok (u', w').
Proof.
  apply (universe_load_never_fails Demo.slope_env). intros w. reflexivity.
Defined.

(** X14.  An input that is out of range is undefined behaviour, not an error:
    when an announced atom or bond line is missing, when a bond line names
    an atom that is not in the molecule (atom 0 included: [a - 1] wraps),
    or when there are more bond lines than the [8 * ref_atom_nb] bytes of
    the counter block, [universe_load] reads or writes outside an array
    although every allocation succeeds. *)
Theorem universe_load_out_of_range {D : Type} {DD : Double D} (X : externals D)
    (u : universe_t D) (inp : input_t D) (w : world X) :
  (forall w : world X, fst (malloc X w) = true) ->
  ~ input_in_range inp ->
  universe_load X u inp w = Undef.
Proof.
  intros Hm Hbad.
  destruct (universe_load_unchecked X inp Hm u w) as [H|[[u' w'] H]];
    [exact H|].
  destruct Hbad. eapply universe_load_in_range. exact H.
Qed.

Lemma zero_based_dimer_out_of_range : ~ input_in_range Demo4.zero_based_dimer.
Proof.
  intros (_ & _ & H). destruct (H 0%nat) as (l & Hl & Hf & _); [simpl; lia|].
  simpl in Hl. injection Hl as <-.
  change (Z.to_nat ((0 - 1) mod 2 ^ 64) < 2)%nat in Hf.
  assert (E : (0 - 1) mod 2 ^ 64 = 18446744073709551615) by reflexivity.
  rewrite E in Hf. lia.
Qed.

Lemma nine_bonds_out_of_range : ~ input_in_range Demo4.nine_bonds.
Proof. intros (_ & H & _). simpl in H. lia. Qed.

Lemma universe_load_out_of_range_witness :
  universe_load Demo.slope_env Demo.blank Demo4.zero_based_dimer 0%nat = Undef /\
  universe_load Demo.slope_env Demo.blank Demo4.nine_bonds 0%nat = Undef.
Proof.
  split.
  - apply (universe_load_out_of_range Demo.slope_env);
      [intros w; reflexivity | exact zero_based_dimer_out_of_range].
  - apply (universe_load_out_of_range Demo.slope_env);
      [intros w; reflexivity | exact nine_bonds_out_of_range].
Defined.

(** ** A load that returns *)

Section Load_returns.
Context {D : Type} {DD : Double D} (X : externals D) (inp : input_t D).
Hypothesis allocations_succeed : forall w : world X, fst (malloc X w) = true.
Hypothesis well_formed : bonds_well_formed inp.
Hypothesis in_range : input_in_range inp.

Lemma store_bond_returns (ref : list (atom_t D)) (k slot : nat) (a : atom_t D)
    (partner : Z) (strength : D) :
  ref !! k = Some a ->
  (slot < length (bond a))%nat -> (slot < length (bond_strength a))%nat ->
  store_bond ref k (Z.of_nat slot) partner strength
  = Ok (<[k := set_bond_strength
                 (set_bond a (<[slot := Some partner]> (bond a)))
                 (<[slot := Some strength]> (bond_strength a))]> ref).
Proof.
  intros Ha Hb Hs. unfold store_bond, idx. rewrite Nat2Z.id, Ha.
  destruct (decide _); [|contradiction]. simpl.
  destruct (decide _); [reflexivity|contradiction].
Qed.

Lemma load_atom_loop_returns :
  exists ref1,
    for_loop (in_atom_nb inp) 0 (load_atom_block inp)
             (replicate (in_atom_nb inp) atom_init) = Ok ref1.
Proof.
  destruct (for_loop_returns
              (fun t : list (atom_t D) => length t = in_atom_nb inp)
              (load_atom_block inp) (in_atom_nb inp) 0
              (replicate (in_atom_nb inp) atom_init)) as (ref1 & H & _).
  - apply length_replicate.
  - intros k t Hk Hl. unfold load_atom_block.
    destruct (proj1 in_range k ltac:(lia)) as [l ->].
    destruct (lookup_lt_is_Some_2 t k ltac:(lia)) as [a ->].
    eexists. split; [reflexivity|]. now rewrite length_insert.
  - eauto.
Qed.

Lemma load_count_loop_returns (ref : list (atom_t D)) :
  length ref = in_atom_nb inp ->
  exists ref2, for_loop (in_bond_nb inp) 0 (load_count_bonds inp) ref = Ok ref2.
Proof.
  intros Hlen.
  destruct (for_loop_returns
              (fun t : list (atom_t D) => length t = in_atom_nb inp)
              (load_count_bonds inp) (in_bond_nb inp) 0 ref Hlen)
    as (ref2 & H & _); [|eauto].
  intros k t Hk Hl. unfold load_count_bonds.
  destruct (proj2 (proj2 in_range) k ltac:(lia)) as (l & Hline & Hf & Hs).
  rewrite Hline. unfold bump_bond_nb. fold (bond_first l) (bond_second l).
  destruct (lookup_lt_is_Some_2 t (bond_first l) ltac:(lia)) as [a ->].
  cbn [obind].
  destruct (lookup_lt_is_Some_2 (<[bond_first l := set_bond_nb a (S (bond_nb a))]> t)
              (bond_second l) ltac:(rewrite length_insert; lia)) as [b ->].
  eexists. split; [reflexivity|]. now rewrite !length_insert.
Qed.

Lemma load_alloc_loop_returns (ref : list (atom_t D)) (w : world X) :
  exists st, for_loop (length ref) 0 (load_alloc_bonds X) (ref, w) = Ok st.
Proof.
  destruct (for_loop_returns
              (fun st : list (atom_t D) * world X => length (fst st) = length ref)
              (load_alloc_bonds X) (length ref) 0 (ref, w) eq_refl)
    as (st & H & _); [|eauto].
  intros k [t wt] Hk Hl. simpl in *.
  destruct (lookup_lt_is_Some_2 t k ltac:(lia)) as [a ->].
  repeat (rewrite (try_malloc_succeeds X allocations_succeed); cbn [obind]).
  eexists. split; [reflexivity|]. simpl. now rewrite length_insert.
Qed.

(** On counters that read the mentions so far, a turn of the loading loop
    stores its two entries inside the tables. *)
Lemma load_fill_turn_returns (i : nat) (ref : list (atom_t D)) (c : list Z) :
  (i < in_bond_nb inp)%nat ->
  fill_invariant inp i ref c ->
  exists st, load_fill_bonds inp i (ref, c) = Ok st.
Proof.
  intros Hi (HA & HB & _).
  destruct (proj2 (proj2 in_range) i Hi) as (l & Hline & _).
  destruct (bond_block_turn inp i l Hi Hline) as [Hblock _].
  destruct (bond_line_atoms inp well_formed i l Hblock) as (Hf & Hs & Hne & Hu1 & Hu2).
  unfold load_fill_bonds. rewrite Hline.
  fold (bond_first l) (bond_second l). rewrite Hu1, Hu2.
  rewrite (HB _ Hf).
  destruct (HA _ Hf) as (af & Haf & Hnf & Hlf & Hsf).
  destruct (HA _ Hs) as (as_ & Has & Hns & Hls & Hss).
  pose proof (mentions_take_le (bond_first l) (S i) (bond_block inp)) as Hmf.
  pose proof (mentions_take_le (bond_second l) (S i) (bond_block inp)) as Hms.
  rewrite (mentions_turn inp i l _ Hblock) in Hmf.
  rewrite (mentions_turn inp i l _ Hblock) in Hms.
  unfold mentions_atom in Hmf, Hms.
  rewrite Nat.eqb_refl in Hmf. rewrite Nat.eqb_refl, orb_true_r in Hms.
  simpl in Hmf.
  rewrite (store_bond_returns _ _ _ af) by (assumption || lia).
  cbn [obind]. rewrite (HB _ Hs).
  rewrite (store_bond_returns _ _ _ as_)
    by (try (rewrite list_lookup_insert_ne by exact Hne; exact Has); lia).
  cbn [obind]. rewrite list_lookup_insert_ne by exact Hne.
  rewrite (HB _ Hs). eauto.
Qed.

(** The state in which the loading loop starts, on a heap that hands out
    zeroed memory. *)
Lemma load_fill_start (ref1 ref2 ref3 : list (atom_t D)) (c0 : list Z)
    (w w3 w' : world X) :
  (forall w j, u8 (heap_byte X w j) = 0) ->
  for_loop (in_atom_nb inp) 0 (load_atom_block inp)
           (replicate (in_atom_nb inp) atom_init) = Ok ref1 ->
  bond_index_init X w (in_atom_nb inp) (in_bond_nb inp) = Ok c0 ->
  for_loop (in_bond_nb inp) 0 (load_count_bonds inp) ref1 = Ok ref2 ->
  for_loop (in_atom_nb inp) 0 (load_alloc_bonds X) (ref2, w3) = Ok (ref3, w') ->
  fill_invariant inp 0 ref3 c0.
Proof.
  intros Hheap Hatoms Hinit Hcount Halloc.
  apply load_atom_loop in Hatoms as [Hl1 Hz1].
  apply (load_count_loop inp well_formed _ _ Hl1 Hz1) in Hcount as [Hl2 Hn2].
  rewrite <- Hl2 in Halloc. apply load_alloc_loop in Halloc as [Hl3 Ha3].
  destruct (bond_index_init_spec X _ _ _ _ Hinit) as [Hc0 Hc1].
  split; [|split].
  - intros k Hk. destruct (Hn2 k Hk) as (r & Hr & Hn).
    destruct (Ha3 k r Hr) as (r' & Hr' & Hn' & Hb & Hs).
    exists r'. split; [exact Hr'|]. rewrite Hb, Hs, !length_replicate.
    repeat split; congruence.
  - intros k Hk. rewrite take_0. change (mentions k []) with 0%nat.
    destruct (decide (k < in_bond_nb inp)%nat) as [Hlt|Hge].
    + now apply Hc0.
    + rewrite Hc1 by lia. now rewrite Hheap.
  - intros j l Hj. lia.
Qed.

Lemma universe_load_returns (u : universe_t D) (w : world X) :
  (forall w j, u8 (heap_byte X w j) = 0) ->
  exists u' w', universe_load X u inp w = Ok (u', w').
Proof.
  intros Hheap. unfold universe_load.
  repeat (rewrite (try_malloc_succeeds X allocations_succeed); cbn [obind]).
  destruct load_atom_loop_returns as [ref1 Hatoms]. rewrite Hatoms. cbn [obind].
  repeat (rewrite (try_malloc_succeeds X allocations_succeed); cbn [obind]).
  pose proof (load_atom_loop inp _ Hatoms) as [Hl1 _].
  match goal with |- context [bond_index_init X ?w0 ?r ?b] =>
    assert (Hinit : exists c0, bond_index_init X w0 r b = Ok c0) end.
  { unfold bond_index_init, memset_zero, fresh_block.
    rewrite length_map, length_seq.
    destruct (decide _) as [|Hn]; [eauto|].
    destruct Hn. exact (proj1 (proj2 in_range)). }
  destruct Hinit as [c0 Hinit]. rewrite Hinit. cbn [obind].
  destruct (load_count_loop_returns ref1 Hl1) as [ref2 Hcount].
  rewrite Hcount. cbn [obind].
  assert (Hl2 : length ref2 = in_atom_nb inp).
  { apply (for_loop_inv (fun _ (t : list (atom_t D)) => length t = in_atom_nb inp)
                        _ _ _ _ _ Hcount); [exact Hl1|].
    intros k t t' _ Hl Hb. unfold load_count_bonds in Hb.
    destruct (in_bonds inp !! k); [|discriminate].
    apply obind_Ok in Hb as (t1 & H1 & H2).
    apply bump_bond_nb_in_range in H1 as [H1 _].
    apply bump_bond_nb_in_range in H2 as [H2 _]. congruence. }
  match goal with |- context [for_loop _ 0 (load_alloc_bonds X) (ref2, ?w0)] =>
    destruct (load_alloc_loop_returns ref2 w0) as [[ref3 w3] Halloc] end.
  rewrite Hl2 in Halloc. rewrite Halloc. cbn [obind].
  pose proof (load_fill_start _ _ _ _ _ _ _ Hheap Hatoms Hinit Hcount Halloc)
    as Hstart.
  destruct (for_loop_returns_inv
              (fun i (st : list (atom_t D) * list Z) =>
                 fill_invariant inp i (fst st) (snd st))
              (load_fill_bonds inp) (in_bond_nb inp) 0 (ref3, c0) Hstart)
    as ([ref4 c4] & Hfill & _).
  { intros k [t ct] Hk Hinv. simpl in Hinv.
    destruct (load_fill_turn_returns k t ct ltac:(lia) Hinv) as [[t' ct'] Hb].
    exists (t', ct'). split; [exact Hb|]. simpl.
    eapply load_fill_turn; [exact well_formed | | exact Hinv | exact Hb]. lia. }
  rewrite Hfill. cbn [obind]. eauto.
Qed.

End Load_returns.

Lemma dimer_in_range : input_in_range Demo.dimer.
Proof.
  split; [|split].
  - intros i Hi. simpl in Hi.
    destruct i as [|[|i]]; simpl; eauto; lia.
  - simpl. lia.
  - intros i Hi. simpl in Hi. assert (i = 0%nat) as -> by lia.
    eexists. split; [reflexivity|]. vm_compute. lia.
Qed.

(** X15.  On a heap that hands out zeroed memory, and while the allocations
    succeed, [universe_load] returns the universe for every input whose
    announced lines are there and whose bond lines name two distinct atoms
    of the molecule (fewer than 256 lines for any one atom); the bond
    table that it has built is symmetric: a bond line (a1, a2, k) puts
    a2 - 1 in the list of atom a1 - 1 and a1 - 1 in the list of atom
    a2 - 1, both with stiffness k, and each atom has as many bonds as there
    are lines that mention it. *)
Theorem universe_load_total_symmetric {D : Type} {DD : Double D}
    (X : externals D) (u : universe_t D) (inp : input_t D) (w : world X) :
  (forall w : world X, fst (malloc X w) = true) ->
  (forall w j, u8 (heap_byte X w j) = 0) ->
  bonds_well_formed inp ->
  input_in_range inp ->
  exists u' w',
    universe_load X u inp w = Ok (u', w') /\
    (forall i l, bond_block inp !! i = Some l ->
       has_bond (ref_atom u') (bond_first l) (bl_a2 l - 1) (bl_strength l) /\
       has_bond (ref_atom u') (bond_second l) (bl_a1 l - 1) (bl_strength l)) /\
    (forall k, (k < in_atom_nb inp)%nat ->
       exists a, ref_atom u' !! k = Some a /\
         bond_nb a = mentions k (bond_block inp) /\
         length (bond a) = bond_nb a).
Proof.
  intros Hm Hheap Hwf Hrange.
  destruct (universe_load_returns X inp Hm Hwf Hrange u w Hheap)
    as (u' & w' & Hrun).
  exists u', w'. split; [exact Hrun|].
  exact (universe_load_symmetric X inp Hwf u u' w w' Hheap Hrun).
Qed.

Lemma universe_load_total_symmetric_witness :
  exists u' w',
    universe_load Demo.slope_env Demo.blank Demo.dimer 0%nat = Ok (u', w') /\
    has_bond (ref_atom u') 0 1 500%float /\
    has_bond (ref_atom u') 1 0 500%float.
Proof.
  destruct (universe_load_total_symmetric Demo.slope_env Demo.blank Demo.dimer
              0%nat (fun _ => eq_refl) (fun _ _ => eq_refl)
              dimer_well_formed dimer_in_range)
    as (u' & w' & Hrun & Hsym & _).
  exists u', w'. split; [exact Hrun|].
  exact (Hsym 0%nat (BondRec 1 2 500%float) eq_refl).
Defined.

(** ** The copies are rigid translations of the reference molecule *)

Section Populate_copies.
Context {D : Type} {DD : Double D} (X : externals D).

Lemma try_malloc_Ok (w w' : world X) :
  try_malloc X w = Ok w' -> w' = snd (malloc X w).
Proof.
  unfold try_malloc. destruct (malloc X w) as [[|] w1]; [|discriminate].
  intros H. now injection H as <-.
Qed.

Lemma populate_atom_world (i : nat) (pos_offset : vec3d_t D) (ii : nat)
    (u u' : universe_t D) (w w' : world X) :
  populate_atom X i pos_offset ii (u, w) = Ok (u', w') ->
  w' = snd (malloc X (snd (malloc X w))).
Proof.
  unfold populate_atom.
  destruct (ref_atom u !! ii) as [reference|]; [|discriminate].
  destruct (atom u !! _) as [duplicate|]; [|discriminate].
  intros H. apply obind_Ok in H as (w1 & H1 & H).
  apply obind_Ok in H as (w2 & H2 & H).
  apply obind_Ok in H as (d & _ & H). injection H as _ <-.
  apply try_malloc_Ok in H1, H2. congruence.
Qed.

(** The turn of one copy. *)
Lemma populate_copy_offset (i : nat) (u t t' : universe_t D) (w w' : world X) :
  Z.of_nat (copy_nb u * ref_atom_nb u) < 2 ^ 64 ->
  (i < copy_nb u)%nat ->
  t = set_atom u (atom t) ->
  length (atom t) = length (atom u) ->
  populate_copy X i (t, w) = Ok (t', w') ->
  w' = copy_world X u w /\
  copy_placed_below X u t
    (snd (rand X (snd (vec3d_marsaglia X w)))) i (ref_atom_nb u)
    (copy_offset X u w) (t', w').
Proof.
  intros Hsmall Hi Hframe Hlen. unfold populate_copy, copy_world, copy_offset.
  assert (Hsize : size t = size u) by (rewrite Hframe; reflexivity).
  assert (Href : ref_atom_nb t = ref_atom_nb u) by (rewrite Hframe; reflexivity).
  destruct (vec3d_marsaglia X w) as [v w1]. cbn [snd].
  destruct (rand X w1) as [r w2]. cbn [snd].
  rewrite Hsize, Href. set (off := vec3d_mul v _). intros Hrun.
  assert (HP : copy_placed_below X u t w2 i (0 + ref_atom_nb u) off (t', w')).
  { eapply (for_loop_inv (fun k st => copy_placed_below X u t w2 i k off st));
      [exact Hrun | |].
    - split; [exact Hframe|]. split; [exact Hlen|]. split; [reflexivity|].
      split; [reflexivity|]. intros ii Hii. lia.
    - intros k [s ws] [s' ws'] Hk (Hfs & Hls & Hws & Hout & Hin) Hbody.
      cbn [fst snd] in Hfs, Hls, Hws, Hout, Hin.
      assert (Hrs : ref_atom_nb s = ref_atom_nb u) by (rewrite Hfs; reflexivity).
      assert (Hra : ref_atom s = ref_atom u) by (rewrite Hfs; reflexivity).
      pose proof (populate_atom_world _ _ _ _ _ _ _ Hbody) as Hw'.
      assert (Hws' : ws' = Nat.iter (2 * S k) (fun w => snd (malloc X w)) w2).
      { rewrite Hw', Hws. replace (2 * S k)%nat with (S (S (2 * k))) by lia.
        reflexivity. }
      apply populate_atom_spec in Hbody; [|rewrite Hrs; nia].
      destruct Hbody as (reference & duplicate & Hr & Hd & ->).
      rewrite Hrs in *. rewrite Hra in Hr.
      assert (Hlt : (i * ref_atom_nb u + k < length (atom s))%nat)
        by (eapply lookup_lt_Some; eauto).
      split; [simpl; rewrite Hfs; reflexivity|]. simpl.
      split; [now rewrite length_insert|]. split.
      { exact Hws'. }
      split.
      + intros j Hj. rewrite list_lookup_insert_ne by lia. apply Hout. lia.
      + intros ii Hii. destruct (decide (ii = k)) as [->|Hne].
        * rewrite list_lookup_insert_eq by exact Hlt.
          exists reference, duplicate. split; [exact Hr|]. split; [|reflexivity].
          rewrite <- Hd. symmetry. apply Hout. lia.
        * rewrite list_lookup_insert_ne by lia. apply Hin. lia. }
  split; [|exact HP].
  destruct HP as (_ & _ & Hw' & _). simpl in Hw'. exact Hw'.
Qed.

Lemma universe_populate_copies (u u' : universe_t D) (w w' : world X) :
  Z.of_nat (copy_nb u * ref_atom_nb u) < 2 ^ 64 ->
  universe_populate X u w = Ok (u', w') ->
  copies_placed X u w (copy_nb u) (u', w').
Proof.
  intros Hsmall Hrun. unfold universe_populate in Hrun.
  apply (for_loop_inv (copies_placed X u w) _ _ _ _ _ Hrun).
  - split; [|split; [reflexivity|intros i ii Hi; lia]].
    simpl. split; [apply set_atom_id|]. split; [reflexivity|].
    split; [reflexivity|]. intros ? ? _ H. lia.
  - intros n [s ws] [s' ws'] Hn (Hbelow & Hws & Hdone) Hbody.
    simpl in Hbelow, Hws, Hdone.
    pose proof (populate_copy_spec X n u s s' ws ws' Hsmall ltac:(lia) Hbelow Hbody)
      as Hbelow'.
    destruct Hbelow as (Hfs & Hls & Hrest & _).
    destruct (populate_copy_offset n u s s' ws ws' Hsmall ltac:(lia) Hfs Hls Hbody)
      as (Hw' & _ & _ & _ & Hout & Hin).
    simpl in Hout, Hin.
    split; [exact Hbelow'|]. split; [simpl; rewrite Hw', Hws; reflexivity|].
    simpl. intros i ii Hi Hii. destruct (decide (i = n)) as [->|Hne].
    + destruct (Hin ii Hii) as (reference & duplicate & Hr & Hd & Hd').
      exists reference, duplicate. split; [exact Hr|].
      rewrite Hrest in Hd by lia. split; [exact Hd|].
      rewrite Hd', Hws. reflexivity.
    + destruct (Hdone i ii ltac:(lia) Hii) as (reference & duplicate & Hr & Hd & Hd').
      exists reference, duplicate. split; [exact Hr|]. split; [exact Hd|].
      rewrite Hout; [exact Hd'|]. left.
      assert (S i * ref_atom_nb u <= n * ref_atom_nb u)%nat
        by (apply Nat.mul_le_mono_r; lia).
      simpl in *. lia.
Qed.

End Populate_copies.

(** X16.  [universe_populate] moves each copy rigidly: every atom of copy [i]
    is its reference atom displaced by one and the same offset, the random
    unit vector drawn at the start of the turn of that copy scaled by
    [cos(rand())*size]; it has the species, the charge and the
    Lennard-Jones parameters of its reference atom.  Each turn draws one
    vector and one random number and allocates twice for each atom. *)
Theorem populate_rigid_copies {D : Type} {DD : Double D} (X : externals D)
    (u u' : universe_t D) (w w' : world X) :
  Z.of_nat (copy_nb u * ref_atom_nb u) < 2 ^ 64 ->
  universe_populate X u w = Ok (u', w') ->
  w' = Nat.iter (copy_nb u) (copy_world X u) w /\
  forall i ii, (i < copy_nb u)%nat -> (ii < ref_atom_nb u)%nat ->
    exists reference d,
      ref_atom u !! ii = Some reference /\
      atom u' !! (i * ref_atom_nb u + ii)%nat = Some d /\
      pos d = vec3d_add (pos reference)
                (copy_offset X u (Nat.iter i (copy_world X u) w)) /\
      element d = element reference /\ charge d = charge reference /\
      epsilon d = epsilon reference /\ sigma d = sigma reference.
Proof.
  intros Hsmall Hrun.
  destruct (universe_populate_copies X u u' w w' Hsmall Hrun) as (_ & Hw & Hdone).
  split; [exact Hw|]. intros i ii Hi Hii.
  destruct (Hdone i ii Hi Hii) as (reference & duplicate & Hr & _ & Hd).
  exists reference, (duplicate_of i (ref_atom_nb u)
                       (copy_offset X u (Nat.iter i (copy_world X u) w))
                       reference duplicate).
  repeat split; assumption.
Qed.

(** The two copies of the dimer, each displaced by 1e-9 along x: the atoms
    of a copy stay 7.4e-11 apart, and the run has consumed twelve states of
    the world (a vector, a number and four allocations for each copy). *)
Lemma populate_rigid_copies_witness :
  exists st a b c d,
    universe_populate Demo.slope_env Demo.dimer_box 0%nat = Ok st /\
    snd st = 12%nat /\
    atom (fst st) !! 0%nat = Some a /\ atom (fst st) !! 1%nat = Some b /\
    atom (fst st) !! 2%nat = Some c /\ atom (fst st) !! 3%nat = Some d /\
    pos a = Vec3d 1e-9%float 0%float 0%float /\
    pos b = Vec3d (7.4e-11 + 1e-9)%float 0%float 0%float /\
    pos c = Vec3d 1e-9%float 0%float 0%float /\
    pos d = Vec3d (7.4e-11 + 1e-9)%float 0%float 0%float.
Proof.
  eexists.
  assert (Hrun : universe_populate Demo.slope_env Demo.dimer_box 0%nat = Ok (_, _))
    by (vm_compute; reflexivity).
  destruct (populate_rigid_copies Demo.slope_env Demo.dimer_box _ 0%nat _
              ltac:(simpl; lia) Hrun) as [Hw Hcopies].
  destruct (Hcopies 0%nat 0%nat ltac:(simpl; lia) ltac:(simpl; lia))
    as (ra & a & Hra & Ha & Hpa & _).
  destruct (Hcopies 0%nat 1%nat ltac:(simpl; lia) ltac:(simpl; lia))
    as (rb & b & Hrb & Hb & Hpb & _).
  destruct (Hcopies 1%nat 0%nat ltac:(simpl; lia) ltac:(simpl; lia))
    as (rc & c & Hrc & Hc & Hpc & _).
  destruct (Hcopies 1%nat 1%nat ltac:(simpl; lia) ltac:(simpl; lia))
    as (rd & d & Hrd & Hd & Hpd & _).
  simpl in Hra, Hrb, Hrc, Hrd.
  injection Hra as <-. injection Hrb as <-. injection Hrc as <-. injection Hrd as <-.
  exists a, b, c, d. split; [exact Hrun|]. split; [exact Hw|].
  do 4 (split; [assumption|]).
  split; [rewrite Hpa; vm_compute; reflexivity|].
  split; [rewrite Hpb; vm_compute; reflexivity|].
  split; [rewrite Hpc; vm_compute; reflexivity|].
  rewrite Hpd; vm_compute; reflexivity.
Defined.

(** X17.  [universe_populate] writes the atoms of the copies and nothing else:
    the reference molecule, the counts, the clock and the trajectory are
    as they were, the atom array keeps its extent, and an atom whose index
    is not below [copy_nb*ref_atom_nb] is left as it was. *)
Theorem populate_frame {D : Type} {DD : Double D} (X : externals D)
    (u u' : universe_t D) (w w' : world X) :
  Z.of_nat (copy_nb u * ref_atom_nb u) < 2 ^ 64 ->
  universe_populate X u w = Ok (u', w') ->
  u' = set_atom u (atom u') /\
  length (atom u') = length (atom u) /\
  forall j, (copy_nb u * ref_atom_nb u <= j)%nat -> atom u' !! j = atom u !! j.
Proof.
  intros Hsmall Hrun.
  destruct (universe_populate_copies X u u' w w' Hsmall Hrun)
    as ((Hframe & Hlen & Hrest & _) & _).
  repeat split; assumption.
Qed.

(** A box with room for three dimers of which two are placed: the last
    two atoms are still fresh. *)
Lemma populate_frame_witness :
  exists st,
    universe_populate Demo.slope_env
      (set_atom Demo.dimer_box (replicate 6 atom_init)) 0%nat = Ok st /\
    ref_atom (fst st) = ref_atom Demo.dimer_box /\
    length (atom (fst st)) = 6%nat /\
    atom (fst st) !! 4%nat = Some atom_init /\
    atom (fst st) !! 5%nat = Some atom_init.
Proof.
  eexists.
  assert (Hrun : universe_populate Demo.slope_env
                   (set_atom Demo.dimer_box (replicate 6 atom_init)) 0%nat
                 = Ok (_, _)) by (vm_compute; reflexivity).
  destruct (populate_frame Demo.slope_env
              (set_atom Demo.dimer_box (replicate 6 atom_init)) _ 0%nat _
              ltac:(simpl; lia) Hrun)
    as (Hframe & Hlen & Hrest).
  split; [exact Hrun|]. split; [reflexivity|]. split; [exact Hlen|].
  split; [exact (Hrest 4%nat ltac:(simpl; lia))|exact (Hrest 5%nat ltac:(simpl; lia))].
Defined.

Section Populate_returns.
Context {D : Type} {DD : Double D} (X : externals D) (u : universe_t D).
Hypothesis allocations_succeed : forall w : world X, fst (malloc X w) = true.
Hypothesis small : Z.of_nat (copy_nb u * ref_atom_nb u) < 2 ^ 64.
Hypothesis room : (copy_nb u * ref_atom_nb u <= length (atom u))%nat.
Hypothesis allocated : reference_allocated u.

Lemma populate_bond_loop_returns (reference : atom_t D) (offset : Z) :
  forall n (duplicate : atom_t D),
    (n <= length (bond reference))%nat ->
    (n <= length (bond_strength reference))%nat ->
    exists d, for_loop n 0 (populate_bond reference offset) duplicate = Ok d.
Proof.
  intros n duplicate Hb Hs.
  destruct (for_loop_returns (fun _ : atom_t D => True)
              (populate_bond reference offset) n 0 duplicate I) as (d & H & _);
    [|eauto].
  intros k t Hk _. unfold populate_bond.
  destruct (lookup_lt_is_Some_2 (bond reference) k ltac:(lia)) as [b ->].
  destruct (lookup_lt_is_Some_2 (bond_strength reference) k ltac:(lia)) as [s ->].
  eauto.
Qed.

Lemma populate_atom_returns (i ii : nat) (pos_offset : vec3d_t D)
    (t : universe_t D) (w : world X) :
  (i < copy_nb u)%nat -> (ii < ref_atom_nb u)%nat ->
  t = set_atom u (atom t) -> length (atom t) = length (atom u) ->
  exists t' w',
    populate_atom X i pos_offset ii (t, w) = Ok (t', w') /\
    t' = set_atom u (atom t') /\ length (atom t') = length (atom u).
Proof.
  intros Hi Hii Hframe Hlen.
  assert (Hrs : ref_atom_nb t = ref_atom_nb u) by (rewrite Hframe; reflexivity).
  assert (Hra : ref_atom t = ref_atom u) by (rewrite Hframe; reflexivity).
  assert (Hflat : (i * ref_atom_nb u + ii < copy_nb u * ref_atom_nb u)%nat).
  { assert (S i * ref_atom_nb u <= copy_nb u * ref_atom_nb u)%nat
      by (apply Nat.mul_le_mono_r; lia).
    simpl in *. lia. }
  unfold populate_atom. rewrite Hrs, Hra.
  replace (Z.of_nat i * Z.of_nat (ref_atom_nb u) + Z.of_nat ii)
    with (Z.of_nat (i * ref_atom_nb u + ii)) by lia.
  rewrite idx_u64_of_nat by lia.
  destruct (allocated ii Hii) as (reference & -> & Hb & Hs).
  destruct (lookup_lt_is_Some_2 (atom t) (i * ref_atom_nb u + ii)%nat ltac:(lia))
    as [duplicate ->].
  repeat (rewrite (try_malloc_succeeds X allocations_succeed); cbn [obind]).
  match goal with |- context [for_loop ?n 0 ?body ?d0] =>
    destruct (populate_bond_loop_returns reference
                (u64 (Z.of_nat i * Z.of_nat (ref_atom_nb u))) n d0) as [d Hd]
  end; [exact Hb | exact Hs |].
  rewrite Hd. cbn [obind]. eexists _, _. split; [reflexivity|].
  split; [rewrite Hframe; reflexivity|]. simpl. now rewrite length_insert.
Qed.

Lemma universe_populate_returns (w : world X) :
  exists u' w', universe_populate X u w = Ok (u', w').
Proof.
  unfold universe_populate.
  pose (Q := fun st : universe_t D * world X =>
    fst st = set_atom u (atom (fst st)) /\
    length (atom (fst st)) = length (atom u)).
  destruct (for_loop_returns Q (populate_copy X) (copy_nb u) 0 (u, w))
    as ([u' w'] & H & _); [split; [apply set_atom_id|reflexivity] | | eauto].
  intros i [t wt] Hi [Hframe Hlen]. simpl in Hframe, Hlen.
  unfold populate_copy.
  destruct (vec3d_marsaglia X wt) as [v w1]. destruct (rand X w1) as [r w2].
  assert (Hrs : ref_atom_nb t = ref_atom_nb u) by (rewrite Hframe; reflexivity).
  rewrite Hrs. apply for_loop_returns; [split; assumption|].
  intros ii [s ws] Hii [Hfs Hls]. simpl in Hfs, Hls.
  destruct (populate_atom_returns i ii
              (vec3d_mul v (dmul (cos X (dofZ r)) (size t))) s ws
              ltac:(lia) ltac:(lia) Hfs Hls) as (s' & ws' & Hb & Hfs' & Hls').
  exists (s', ws'). split; [exact Hb|]. split; assumption.
Qed.

End Populate_returns.

Lemma dimer_box_allocated : reference_allocated Demo.dimer_box.
Proof.
  intros ii Hii. simpl in Hii.
  destruct ii as [|[|ii]]; [| |lia]; eexists; (split; [reflexivity|]); simpl; lia.
Qed.

(** X18.  While the allocations succeed, [universe_populate] returns the
    universe whenever the atom array has room for [copy_nb] copies of the
    reference molecule and every reference atom has its [bond_nb] bond
    entries. *)
Theorem populate_returns {D : Type} {DD : Double D} (X : externals D)
    (u : universe_t D) (w : world X) :
  (forall w : world X, fst (malloc X w) = true) ->
  Z.of_nat (copy_nb u * ref_atom_nb u) < 2 ^ 64 ->
  (copy_nb u * ref_atom_nb u <= length (atom u))%nat ->
  reference_allocated u ->
  exists u' w', universe_populate X u w = Ok (u', w').
Proof.
  intros Hm Hsmall Hroom Halloc.
  exact (universe_populate_returns X u Hm Hsmall Hroom Halloc w).
Qed.

Lemma populate_returns_witness :
  exists u' w', universe_populate Demo.slope_env Demo.dimer_box 0%nat = Ok (u', w').
Proof.
  apply (populate_returns Demo.slope_env Demo.dimer_box 0%nat).
  - intros w. reflexivity.
  - simpl. lia.
  - simpl. lia.
  - exact dimer_box_allocated.
Defined.

(** ** What [universe_setvelocity] writes *)

Lemma for_loop_app {S : Type} (body : nat -> S -> outcome S) :
  forall (n m start : nat) (s : S),
    for_loop (n + m) start body s
    = obind (for_loop n start body s) (for_loop m (start + n) body).
Proof.
  induction n as [|n IH]; intros m start s; simpl.
  - now rewrite Nat.add_0_r.
  - destruct (body start s) as [t| | |]; simpl; try reflexivity.
    rewrite IH. now replace (Datatypes.S start + n)%nat
                  with (start + Datatypes.S n)%nat by lia.
Qed.

Section Setvelocity_samples.
Context {D : Type} {DD : Double D} (X : externals D).

Lemma setvelocity_loop_samples (velocity : D) (n : nat) (u u' : universe_t D)
    (w w' : world X) :
  for_loop n 0 (setvelocity_atom X velocity) (u, w) = Ok (u', w') ->
  velocities_set_below X u w velocity n (u', w').
Proof.
  intros Hrun.
  apply (for_loop_inv (velocities_set_below X u w velocity) _ _ _ _ _ Hrun).
  - split; [apply set_atom_id|]. split; [reflexivity|]. split; [reflexivity|].
    split; [reflexivity|]. intros i Hi. lia.
  - intros k [t wt] [t' wt'] _ (Hframe & Hlen & Hw & Hrest & Hdone) Hb.
    cbn [fst snd] in *. unfold setvelocity_atom in Hb.
    destruct (vec3d_marsaglia X wt) as [vec w1] eqn:Hs.
    destruct (atom t !! k) as [a|] eqn:Ha; [|discriminate].
    injection Hb as <- <-.
    assert (Hk : (k < length (atom t))%nat) by (eapply lookup_lt_Some; eauto).
    split; [cbn [fst]; rewrite Hframe; reflexivity|]. cbn [fst snd atom set_atom].
    split; [simpl; now rewrite length_insert|]. split.
    { change (after_samples X (S k) w)
        with (snd (vec3d_marsaglia X (after_samples X k w))).
      rewrite <- Hw, Hs. reflexivity. }
    split.
    + intros i Hi. simpl. rewrite list_lookup_insert_ne by lia. apply Hrest. lia.
    + intros i Hi. simpl. destruct (decide (i = k)) as [->|Hne].
      * rewrite list_lookup_insert_eq by exact Hk.
        exists a. rewrite <- Hw, Hs. split; [|reflexivity].
        rewrite <- Ha. symmetry. apply Hrest. lia.
      * rewrite list_lookup_insert_ne by congruence. apply Hdone. lia.
Qed.

Lemma mass_mol_of_returns (u : universe_t D) :
  (ref_atom_nb u <= length (ref_atom u))%nat ->
  exists m, mass_mol_of X u = Ok m.
Proof.
  intros Hlen. unfold mass_mol_of.
  destruct (for_loop_returns (fun _ : D => True) (mass_mol_step X u)
              (ref_atom_nb u) 0 dzero I) as (m & H & _); [|eauto].
  intros k t Hk _. unfold mass_mol_step.
  destruct (lookup_lt_is_Some_2 (ref_atom u) k ltac:(lia)) as [r ->]. eauto.
Qed.

Lemma mass_mol_of_overrun (u : universe_t D) :
  (length (ref_atom u) < ref_atom_nb u)%nat -> mass_mol_of X u = Undef.
Proof.
  intros Hlen. unfold mass_mol_of.
  replace (ref_atom_nb u)
    with (length (ref_atom u) + S (ref_atom_nb u - S (length (ref_atom u))))%nat
    by lia.
  rewrite for_loop_app.
  destruct (for_loop_returns (fun _ : D => True) (mass_mol_step X u)
              (length (ref_atom u)) 0 dzero I) as (m & -> & _).
  { intros k t Hk _. unfold mass_mol_step.
    destruct (lookup_lt_is_Some_2 (ref_atom u) k ltac:(lia)) as [r ->]. eauto. }
  cbn [obind for_loop]. unfold mass_mol_step at 1.
  rewrite (lookup_ge_None_2 (ref_atom u) (0 + length (ref_atom u))) by lia.
  reflexivity.
Qed.

Lemma setvelocity_atom_returns (velocity : D) (u : universe_t D) (k : nat)
    (st : universe_t D * world X) :
  (k < length (atom u))%nat ->
  length (atom (fst st)) = length (atom u) ->
  exists st', setvelocity_atom X velocity k st = Ok st' /\
              length (atom (fst st')) = length (atom u).
Proof.
  destruct st as [t wt]. cbn [fst]. intros Hk Hl. unfold setvelocity_atom.
  destruct (vec3d_marsaglia X wt) as [vec w1].
  destruct (lookup_lt_is_Some_2 (atom t) k ltac:(lia)) as [a ->].
  eexists. split; [reflexivity|]. simpl. now rewrite length_insert.
Qed.

Lemma setvelocity_loop_returns (velocity : D) (u : universe_t D) (w : world X) :
  (atom_nb u <= length (atom u))%nat ->
  exists st, for_loop (atom_nb u) 0 (setvelocity_atom X velocity) (u, w) = Ok st.
Proof.
  intros Hlen.
  destruct (for_loop_returns
              (fun st : universe_t D * world X =>
                 length (atom (fst st)) = length (atom u))
              (setvelocity_atom X velocity) (atom_nb u) 0 (u, w) eq_refl)
    as (st & H & _); [|eauto].
  intros k st Hk Hl. apply setvelocity_atom_returns; [lia|exact Hl].
Qed.

Lemma setvelocity_loop_overrun (velocity : D) (u : universe_t D) (w : world X) :
  (length (atom u) < atom_nb u)%nat ->
  for_loop (atom_nb u) 0 (setvelocity_atom X velocity) (u, w) = Undef.
Proof.
  intros Hlen.
  replace (atom_nb u)
    with (length (atom u) + S (atom_nb u - S (length (atom u))))%nat at 1 by lia.
  rewrite for_loop_app.
  destruct (for_loop_returns
              (fun st : universe_t D * world X =>
                 length (atom (fst st)) = length (atom u))
              (setvelocity_atom X velocity) (length (atom u)) 0 (u, w) eq_refl)
    as ([t wt] & -> & Hl).
  { intros k st Hk Hl. apply setvelocity_atom_returns; [lia|exact Hl]. }
  cbn [obind for_loop fst] in *. unfold setvelocity_atom at 1.
  destruct (vec3d_marsaglia X wt) as [vec w1].
  rewrite (lookup_ge_None_2 (atom t) (0 + length (atom u))) by lia.
  reflexivity.
Qed.

End Setvelocity_samples.

(** X19.  [universe_setvelocity] writes velocities and nothing else.  It draws
    exactly one random vector for each live atom, in index order, and atom
    [i] is the atom it was with its velocity replaced (whatever it was) by
    the [i]-th vector scaled by the thermal velocity; position, species,
    bonds, acceleration and force are kept, and so are the atoms beyond
    [atom_nb] and every other field of the universe. *)
Theorem setvelocity_samples {D : Type} {DD : Double D} (X : externals D)
    (u u' : universe_t D) (w w' : world X) :
  universe_setvelocity X u w = Ok (u', w') ->
  u' = set_atom u (atom u') /\
  length (atom u') = length (atom u) /\
  w' = after_samples X (atom_nb u) w /\
  (forall i, (atom_nb u <= i)%nat -> atom u' !! i = atom u !! i) /\
  forall i, (i < atom_nb u)%nat ->
    exists a0,
      atom u !! i = Some a0 /\
      atom u' !! i
        = Some (set_vel a0
                  (vec3d_mul (fst (vec3d_marsaglia X (after_samples X i w)))
                             (thermal_velocity X u (molecular_mass X u)))).
Proof.
  unfold universe_setvelocity. intros Hrun.
  apply obind_Ok in Hrun as (m & Hm & Hrun).
  apply mass_mol_of_sum in Hm. subst m.
  exact (setvelocity_loop_samples X _ _ u u' w w' Hrun).
Qed.

(** The two copies of the dimer: the atoms keep their place, the drift
    (3, 0, 0) that [universe_populate] gave to atom 2 is gone, and four
    vectors have been drawn. *)
Lemma setvelocity_samples_witness :
  exists pop st,
    universe_populate Demo.slope_env Demo.dimer_box 0%nat = Ok pop /\
    universe_setvelocity Demo.slope_env (fst pop) (snd pop) = Ok st /\
    snd st = (snd pop + 4)%nat /\
    exists a0 a,
      atom (fst pop) !! 2%nat = Some a0 /\
      vel a0 = Vec3d 3%float 0%float 0%float /\
      atom (fst st) !! 2%nat = Some a /\
      pos a = pos a0 /\ bond a = bond a0 /\
      y (vel a) = 0%float /\ z (vel a) = 0%float /\
      x (vel a) <> 3%float.
Proof.
  eexists. eexists.
  assert (Hpop : universe_populate Demo.slope_env Demo.dimer_box 0%nat = Ok (_, _))
    by (vm_compute; reflexivity).
  split; [exact Hpop|]. cbn [fst snd].
  match type of Hpop with _ = Ok (?p, ?wp) =>
    assert (Hrun : universe_setvelocity Demo.slope_env p wp = Ok (_, _))
      by (vm_compute; reflexivity);
    destruct (setvelocity_samples Demo.slope_env p _ wp _ Hrun)
      as (_ & _ & Hw & _ & Hset)
  end.
  split; [exact Hrun|]. cbn [fst snd]. split; [exact Hw|].
  destruct (Hset 2%nat ltac:(simpl; lia)) as (a0 & Ha0 & Ha).
  exists a0. eexists. split; [exact Ha0|].
  simpl in Ha0. injection Ha0 as <-.
  split; [reflexivity|]. split; [exact Ha|].
  split; [reflexivity|]. split; [reflexivity|].
  split; [vm_compute; reflexivity|]. split; [vm_compute; reflexivity|].
  vm_compute. intros H. discriminate H.
Defined.

(** X20.  [universe_setvelocity] has no failing return.  It returns the universe
    when the two arrays hold the [ref_atom_nb] reference atoms and the
    [atom_nb] live atoms, whatever the temperature and the masses are (a
    molecule without mass included); it reads outside an array
    otherwise. *)
Theorem setvelocity_bounds {D : Type} {DD : Double D} (X : externals D)
    (u : universe_t D) (w : world X) :
  ((ref_atom_nb u <= length (ref_atom u))%nat ->
   (atom_nb u <= length (atom u))%nat ->
   exists u' w', universe_setvelocity X u w = Ok (u', w')) /\
  ((length (ref_atom u) < ref_atom_nb u)%nat \/
   (length (atom u) < atom_nb u)%nat ->
   universe_setvelocity X u w = Undef).
Proof.
  unfold universe_setvelocity. split.
  - intros Hr Ha. destruct (mass_mol_of_returns X u Hr) as [m ->]. cbn [obind].
    destruct (setvelocity_loop_returns X (thermal_velocity X u m) u w Ha)
      as [[u' w'] H].
    eauto.
  - intros Hbad.
    destruct (le_lt_dec (ref_atom_nb u) (length (ref_atom u))) as [Hr|Hr].
    + destruct Hbad as [Hbad|Hbad]; [lia|].
      destruct (mass_mol_of_returns X u Hr) as [m ->]. cbn [obind].
      now apply setvelocity_loop_overrun.
    + now rewrite (mass_mol_of_overrun X u Hr).
Qed.

(** A gas without reference molecule gets its velocities all the same;
    three atoms announced over an array of two is an overrun. *)
Lemma setvelocity_bounds_witness :
  (exists u' w', universe_setvelocity Demo.slope_env (Demo.gas 2) 0%nat = Ok (u', w')) /\
  universe_setvelocity Demo.slope_env Demo5.short_gas 0%nat = Undef.
Proof.
  split.
  - apply (proj1 (setvelocity_bounds Demo.slope_env (Demo.gas 2) 0%nat));
      simpl; lia.
  - apply (proj2 (setvelocity_bounds Demo.slope_env Demo5.short_gas 0%nat)).
    right. simpl. lia.
Defined.

(** ** The kinetic energy of the thermal velocities *)

Lemma foldl_pointwise {A B C : Type} (f : A -> B -> A) (g : A -> C -> A)
    (l : list B) (l' : list C) :
  Forall2 (fun b c => forall e, f e b = g e c) l l' ->
  forall e, foldl f e l = foldl g e l'.
Proof.
  induction 1 as [|b c l l' Hbc _ IH]; intros e; simpl; [reflexivity|].
  rewrite Hbc. apply IH.
Qed.

Lemma foldl_terms {D : Type} {DD : Double D} {A : Type} (h : A -> D)
    (l : list A) :
  forall e, foldl (fun e a => dadd e (h a)) e l = foldl dadd e (map h l).
Proof. induction l as [|a l IH]; intros e; simpl; [reflexivity|apply IH]. Qed.

(** X21.  [universe_energy_kinetic] after [universe_setvelocity], in the
    arithmetic of the program.  On the universe that [universe_setvelocity]
    has returned, [universe_energy_kinetic] returns, and the energy is the
    sum, from 0.0 in index order, of [0.5 * POW2(|s_i * v|) * mass] over the
    live atoms: [s_i] is the [i]-th vector drawn, [v] the thermal velocity
    and [mass] the mass of the species that atom [i] had before the call.
    The norm [|s_i * v|] is computed from the rounded products, so on
    binary64 the energy is not [1/2 * (3*C_BOLTZMANN*temperature/mass_mol)
    * mass] summed over the atoms. *)
Theorem setvelocity_kinetic_sum {D : Type} {DD : Double D} (X : externals D)
    (POW2 : D -> D) (u u' : universe_t D) (w w' : world X) :
  universe_setvelocity X u w = Ok (u', w') ->
  universe_energy_kinetic X POW2 u'
  = Ok (foldl dadd dzero
          (imap (fun i a =>
                   dmul (dmul d0p5
                           (POW2 (vec3d_mag
                                    (vec3d_mul
                                       (fst (vec3d_marsaglia X
                                               (after_samples X i w)))
                                       (thermal_velocity X u
                                          (molecular_mass X u))))))
                        (model_mass X (element a)))
                (take (atom_nb u) (atom u)))).
Proof.
  intros Hrun. unfold universe_setvelocity in Hrun.
  apply obind_Ok in Hrun as (m & Hm & Hrun).
  apply mass_mol_of_sum in Hm. subst m.
  destruct (setvelocity_loop_samples X _ _ u u' w w' Hrun)
    as (Hframe & Hlen & _ & _ & Hset).
  cbn [fst snd] in Hframe, Hlen, Hset.
  assert (Hnb : atom_nb u' = atom_nb u) by (rewrite Hframe; reflexivity).
  assert (Halloc : (atom_nb u <= length (atom u))%nat).
  { destruct (atom_nb u) as [|n] eqn:Hn; [lia|].
    destruct (Hset n ltac:(lia)) as (a0 & Ha0 & _).
    apply lookup_lt_Some in Ha0. lia. }
  unfold universe_energy_kinetic.
  rewrite energy_kinetic_loop by (rewrite Hnb, Hlen; exact Halloc).
  f_equal. rewrite Hnb, foldl_terms. f_equal.
  apply list_eq. intros i. rewrite list_lookup_fmap, list_lookup_imap.
  destruct (decide (i < atom_nb u)%nat) as [Hi|Hi].
  - rewrite !lookup_take_lt by exact Hi.
    destruct (Hset i Hi) as (a0 & -> & ->). reflexivity.
  - rewrite !lookup_take_ge by lia. reflexivity.
Qed.

(** Four hydrogen atoms at 300 K on binary64, every vector drawn being
    (0.28, 0.96, 0): the kinetic energy is 1.2419999999999996e-20, where
    [1/2 * (3*C_BOLTZMANN*temperature/mass_mol) * mass] summed over the
    atoms gives 1.2419999999999999e-20. *)
Lemma setvelocity_kinetic_sum_witness :
  exists st,
    universe_setvelocity Demo7.tilted_env Demo7.hydrogen_box 0%nat = Ok st /\
    universe_energy_kinetic Demo7.tilted_env Demo7.square (fst st)
    = Ok 1.2419999999999996e-20%float /\
    foldl (fun e a =>
             e + 0.5 * (3 * 1.38e-23 * 300
                        / molecular_mass Demo7.tilted_env Demo7.hydrogen_box)
                 * model_mass Demo7.tilted_env (element a))%float
          0%float (atom Demo7.hydrogen_box)
    = 1.2419999999999999e-20%float.
Proof.
  eexists.
  assert (Hrun : universe_setvelocity Demo7.tilted_env Demo7.hydrogen_box 0%nat
                 = Ok (_, _)) by (vm_compute; reflexivity).
  split; [exact Hrun|]. cbn [fst]. split; [|vm_compute; reflexivity].
  rewrite (setvelocity_kinetic_sum Demo7.tilted_env Demo7.square
             Demo7.hydrogen_box _ 0%nat _ Hrun).
  vm_compute. reflexivity.
Defined.

(** In exact arithmetic, which is not the arithmetic of the program, with
    unit vectors from the sampler and [POW2] the square: the kinetic
    energy is the sum over the live atoms of
    [1/2 * (3*C_BOLTZMANN*temperature/mass_mol) * mass], whatever
    directions were drawn. *)
Lemma setvelocity_kinetic_energy_exact (X : externals R) (POW2 : R -> R)
    (u u' : universe_t R) (w w' : world X) :
  (forall w, vec3d_mag (fst (vec3d_marsaglia X w)) = 1%R) ->
  (forall v, POW2 v = (v * v)%R) ->
  (0 <= 3 * C_BOLTZMANN X * temperature u / molecular_mass X u)%R ->
  universe_setvelocity X u w = Ok (u', w') ->
  universe_energy_kinetic X POW2 u'
  = Ok (foldl (fun e a =>
                 (e + 1 / 2
                      * (3 * C_BOLTZMANN X * temperature u / molecular_mass X u)
                      * model_mass X (element a))%R)
              0%R (take (atom_nb u) (atom u))).
Proof.
  intros Hunit Hsq Hpos Hrun. unfold universe_setvelocity in Hrun.
  apply obind_Ok in Hrun as (m & Hm & Hrun).
  apply mass_mol_of_sum in Hm. subst m.
  destruct (setvelocity_loop_samples X _ _ u u' w w' Hrun)
    as (Hframe & Hlen & _ & _ & Hset).
  cbn [fst snd] in Hframe, Hlen, Hset.
  assert (Hnb : atom_nb u' = atom_nb u) by (rewrite Hframe; reflexivity).
  assert (Halloc : (atom_nb u <= length (atom u))%nat).
  { destruct (atom_nb u) as [|n] eqn:Hn; [lia|].
    destruct (Hset n ltac:(lia)) as (a0 & Ha0 & _).
    apply lookup_lt_Some in Ha0. lia. }
  unfold universe_energy_kinetic.
  rewrite energy_kinetic_loop by (rewrite Hnb, Hlen; exact Halloc).
  f_equal. rewrite Hnb. apply foldl_pointwise.
  apply Forall2_same_length_lookup. split.
  { rewrite !length_take. lia. }
  intros i a' a Ha' Ha e.
  apply lookup_take_Some in Ha' as [Ha' Hi].
  apply lookup_take_Some in Ha as [Ha _].
  destruct (Hset i Hi) as (a0 & Ha0 & Hnew).
  rewrite Ha in Ha0. injection Ha0 as <-.
  rewrite Ha' in Hnew. injection Hnew as ->.
  cbn [vel element set_vel].
  rewrite vec3d_mag_mul_unit; [|apply Hunit|apply sqrt_pos].
  rewrite Hsq. unfold thermal_velocity.
  change (dsqrt ?x) with (sqrt x).
  change (ddiv (dmul (dmul d3 (C_BOLTZMANN X)) (temperature u)) (molecular_mass X u))
    with (3 * C_BOLTZMANN X * temperature u / molecular_mass X u)%R.
  rewrite sqrt_sqrt by exact Hpos.
  change (@d0p5 R real_double) with (1 / 2)%R.
  reflexivity.
Qed.

(** ** What [universe_init] builds *)

Section Init_proofs.
Context {D : Type} {DD : Double D} (X : externals D).
Variable fopen : world X -> bool * world X.
Variable fread_input : world X -> option (input_t D) * world X.
Variable cbrt : D -> D.

(** The calls of a [universe_init] that returns the universe. *)
Lemma universe_init_phases (u u' : universe_t D) (args : init_args_t D)
    (w w' : world X) :
  universe_init X fopen fread_input cbrt u args w = Ok (u', w') ->
  exists inp u1 w1 w1' w2 u2 w3 u3,
    fst (fread_input (read_world X fopen w)) = Some inp /\
    universe_load X (set_output_file (init_fields u args) []) inp w1
      = Ok (u1, w1') /\
    universe_populate X (init_loaded X cbrt u1 args) w2 = Ok (u2, w3) /\
    for_loop (atom_nb u2) 0 (enforce_pbc_pass X) u2 = Ok u3 /\
    universe_setvelocity X u3 w3 = Ok (u', w').
Proof.
  unfold universe_init, read_world.
  destruct (fopen w) as [[|] wa]; [|discriminate]. cbn [snd].
  destruct (fopen wa) as [[|] wb]; [|discriminate]. cbn [snd].
  intros H. apply obind_Ok in H as (wc & Hc & H).
  apply try_malloc_Ok in Hc. rewrite <- Hc.
  destruct (fread_input wc) as [[inp|] wd]; [|discriminate].
  apply obind_Ok in H as ([u1 w1'] & Hload & H).
  apply obind_Ok in H as (w2 & _ & H).
  apply obind_Ok in H as ([u2 w3] & Hpop & H).
  apply obind_Ok in H as (u3 & Hpbc & H).
  exists inp, u1, wd, w1', w2, u2, w3, u3.
  repeat split; assumption.
Qed.

Lemma enforce_pbc_loop_moved (n : nat) (u u' : universe_t D) :
  for_loop n 0 (enforce_pbc_pass X) u = Ok u' -> moved_only u u'.
Proof.
  intros Hrun.
  apply (for_loop_inv (fun _ t => moved_only u t) _ _ _ _ _ Hrun).
  - apply moved_only_refl.
  - intros k t t' _ Ht Hb. apply enforce_pbc_pass_moved in Hb.
    eapply moved_only_trans; eassumption.
Qed.

(** What the calls leave, one after the other. *)
Lemma universe_init_chain (u u' : universe_t D) (args : init_args_t D)
    (w w' : world X) :
  universe_init X fopen fread_input cbrt u args w = Ok (u', w') ->
  exists inp u1 w2 u2 w3 u3,
    fst (fread_input (read_world X fopen w)) = Some inp /\
    u1 = set_ref_atom
           (set_header (set_output_file (init_fields u args) [])
              (in_name inp) (in_author inp) (in_comment inp)
              (in_atom_nb inp) (in_bond_nb inp))
           (ref_atom u1) /\
    length (ref_atom u1) = in_atom_nb inp /\
    (forall i, (i < in_atom_nb inp)%nat ->
       exists l a,
         in_atoms inp !! i = Some l /\ ref_atom u1 !! i = Some a /\
         element a = al_element l /\ charge a = al_charge l /\
         epsilon a = al_epsilon l /\ sigma a = al_sigma l /\
         pos a = vec3d_mul (Vec3d (al_x l) (al_y l) (al_z l)) d1em10 /\
         vel a = vec3d_zero /\ acc a = vec3d_zero /\ frc a = vec3d_zero) /\
    (Z.of_nat (in_atom_nb inp * copies args) < 2 ^ 64 ->
     init_atom_nb u1 = (in_atom_nb inp * copies args)%nat /\
     copies_placed X (init_loaded X cbrt u1 args) w2 (copies args) (u2, w3) /\
     moved_only u2 u3 /\
     atom_nb u3 = (in_atom_nb inp * copies args)%nat /\
     velocities_set_below X u3 w3
       (thermal_velocity X u3 (molecular_mass X u3)) (atom_nb u3) (u', w')).
Proof.
  intros Hrun.
  destruct (universe_init_phases u u' args w w' Hrun)
    as (inp & u1 & w1 & w1' & w2 & u2 & w3 & u3 &
        Hread & Hload & Hpop & Hpbc & Hvel).
  exists inp, u1, w2, u2, w3, u3.
  destruct (universe_load_values X _ _ _ _ _ Hload) as (Hu1 & Hl1 & Hvals).
  split; [exact Hread|]. split; [exact Hu1|]. split; [exact Hl1|].
  split; [exact Hvals|]. intros Hsmall.
  assert (Hr1 : ref_atom_nb u1 = in_atom_nb inp) by (rewrite Hu1; reflexivity).
  assert (Hc1 : copy_nb u1 = copies args) by (rewrite Hu1; reflexivity).
  assert (Hn : init_atom_nb u1 = (in_atom_nb inp * copies args)%nat).
  { unfold init_atom_nb. rewrite Hr1, Hc1, <- Nat2Z.inj_mul.
    now apply idx_u64_of_nat. }
  assert (Hsmall' : Z.of_nat (copy_nb (init_loaded X cbrt u1 args)
                              * ref_atom_nb (init_loaded X cbrt u1 args)) < 2 ^ 64).
  { unfold init_loaded. cbn. rewrite Hr1, Hc1. lia. }
  pose proof (universe_populate_copies X _ _ _ _ Hsmall' Hpop) as Hplaced.
  replace (copy_nb (init_loaded X cbrt u1 args)) with (copies args) in Hplaced
    by (unfold init_loaded; cbn; now rewrite Hc1).
  pose proof (enforce_pbc_loop_moved _ _ _ Hpbc) as Hmoved.
  assert (Hn3 : atom_nb u3 = (in_atom_nb inp * copies args)%nat).
  { destruct Hmoved as (-> & _). destruct Hplaced as ((Hu2 & _) & _).
    cbn [fst] in Hu2. cbn. rewrite Hu2. unfold init_loaded. cbn. exact Hn. }
  split; [exact Hn|]. split; [exact Hplaced|]. split; [exact Hmoved|].
  split; [exact Hn3|].
  unfold universe_setvelocity in Hvel.
  apply obind_Ok in Hvel as (m & Hm & Hvel).
  apply mass_mol_of_sum in Hm. subst m.
  exact (setvelocity_loop_samples X _ _ _ _ _ _ Hvel).
Qed.

End Init_proofs.

(** X22.  After [universe_init] has returned the universe (the product of the
    two counts fitting a [uint64_t]): the metadata and the counts of the
    reference molecule are those of the input file; there are
    [ref_atom_nb*copies] live atoms and the atom array holds exactly that
    many, so that the passes over the live atoms stay inside it; the box
    has side [cbrt(C_BOLTZMANN*copies*temperature/pressure)]; the clock
    and the iteration counter are zero and the trajectory is empty,
    whatever the universe held before. *)
Theorem universe_init_result {D : Type} {DD : Double D} (X : externals D)
    (fopen : world X -> bool * world X)
    (fread_input : world X -> option (input_t D) * world X)
    (cbrt : D -> D)
    (u u' : universe_t D) (args : init_args_t D) (w w' : world X) :
  universe_init X fopen fread_input cbrt u args w = Ok (u', w') ->
  exists inp,
    fst (fread_input (read_world X fopen w)) = Some inp /\
    (Z.of_nat (in_atom_nb inp * copies args) < 2 ^ 64 ->
     meta_name u' = in_name inp /\ meta_author u' = in_author inp /\
     meta_comment u' = in_comment inp /\
     ref_atom_nb u' = in_atom_nb inp /\ ref_bond_nb u' = in_bond_nb inp /\
     length (ref_atom u') = in_atom_nb inp /\
     copy_nb u' = copies args /\
     atom_nb u' = (in_atom_nb inp * copies args)%nat /\
     atoms_allocated u' /\ length (atom u') = atom_nb u' /\
     size u' = cbrt (ddiv (dmul (dmul (C_BOLTZMANN X)
                                      (dofZ (Z.of_nat (copies args))))
                                (args_temperature args))
                          (args_pressure args)) /\
     temperature u' = args_temperature args /\
     pressure u' = args_pressure args /\
     time u' = dzero /\ iterations u' = 0 /\ output_file u' = []).
Proof.
  intros Hrun.
  destruct (universe_init_chain X fopen fread_input cbrt u u' args w w' Hrun)
    as (inp & u1 & w2 & u2 & w3 & u3 & Hread & Hu1 & Hl1 & _ & Hrest).
  exists inp. split; [exact Hread|]. intros Hsmall.
  destruct (Hrest Hsmall) as (Hn & ((Hu2 & Hl2 & _) & _) & (Hu3 & Hl3 & _) & Hn3
                              & Hu' & Hl' & _).
  cbn [fst snd] in Hu2, Hl2, Hu', Hl'.
  assert (Hfr : u' = set_atom (init_loaded X cbrt u1 args) (atom u')).
  { rewrite Hu', Hu3, Hu2. reflexivity. }
  assert (Hlen : length (atom u') = init_atom_nb u1).
  { rewrite Hl', Hl3, Hl2. unfold init_loaded. cbn. apply length_replicate. }
  assert (Hnb : atom_nb u' = init_atom_nb u1) by (rewrite Hfr; reflexivity).
  assert (Hra : ref_atom u' = ref_atom u1) by (rewrite Hfr; reflexivity).
  unfold atoms_allocated. rewrite Hra, Hlen, Hnb, Hn.
  rewrite Hfr. unfold init_loaded, init_size. cbn. rewrite Hu1. cbn.
  repeat split; lia.
Qed.

(** Three copies of the dimer, built over whatever was in memory: six
    atoms in an array of six, an empty trajectory, the clock at zero. *)
Lemma universe_init_result_witness :
  exists st,
    universe_init Demo.slope_env Demo6.fopen Demo6.fread_input Demo6.cbrt
      Demo6.garbage Demo6.three_copies 0%nat = Ok st /\
    meta_name (fst st) = "H2"%string /\
    ref_atom_nb (fst st) = 2%nat /\ copy_nb (fst st) = 3%nat /\
    atom_nb (fst st) = 6%nat /\ length (atom (fst st)) = 6%nat /\
    atoms_allocated (fst st) /\
    time (fst st) = 0%float /\ iterations (fst st) = 0 /\
    output_file (fst st) = [].
Proof.
  eexists.
  assert (Hrun : universe_init Demo.slope_env Demo6.fopen Demo6.fread_input
                   Demo6.cbrt Demo6.garbage Demo6.three_copies 0%nat
                 = Ok (_, _)) by (vm_compute; reflexivity).
  destruct (universe_init_result Demo.slope_env Demo6.fopen Demo6.fread_input
              Demo6.cbrt Demo6.garbage _ Demo6.three_copies 0%nat _ Hrun)
    as (inp & Hread & Hres).
  simpl in Hread. injection Hread as <-.
  destruct (Hres ltac:(simpl; lia))
    as (Hname & _ & _ & Hr & _ & _ & Hc & Hn & Halloc & Hlen & _ & _ & _
        & Ht & Hi & Ho).
  split; [exact Hrun|]. cbn [fst].
  split; [exact Hname|]. split; [exact Hr|]. split; [exact Hc|].
  split; [exact Hn|]. split; [rewrite Hlen; exact Hn|].
  split; [exact Halloc|]. split; [exact Ht|]. split; [exact Hi|exact Ho].
Defined.

(** X23.  [universe_init] builds [copies] copies of the molecule of the input
    file: live atom [i*ref_atom_nb + ii] has the species, the charge and
    the Lennard-Jones parameters of atom line [ii], as many bonds as its
    reference atom, a zero acceleration and a zero force, and a velocity
    that is a vector of the sampler scaled by the thermal velocity. *)
Theorem universe_init_atoms {D : Type} {DD : Double D} (X : externals D)
    (fopen : world X -> bool * world X)
    (fread_input : world X -> option (input_t D) * world X)
    (cbrt : D -> D)
    (u u' : universe_t D) (args : init_args_t D) (w w' : world X) :
  universe_init X fopen fread_input cbrt u args w = Ok (u', w') ->
  exists inp,
    fst (fread_input (read_world X fopen w)) = Some inp /\
    (Z.of_nat (in_atom_nb inp * copies args) < 2 ^ 64 ->
     forall i ii, (i < copies args)%nat -> (ii < in_atom_nb inp)%nat ->
       exists l reference a wi,
         in_atoms inp !! ii = Some l /\
         ref_atom u' !! ii = Some reference /\
         atom u' !! (i * in_atom_nb inp + ii)%nat = Some a /\
         element a = al_element l /\ charge a = al_charge l /\
         epsilon a = al_epsilon l /\ sigma a = al_sigma l /\
         bond_nb a = bond_nb reference /\
         acc a = vec3d_zero /\ frc a = vec3d_zero /\
         vel a = vec3d_mul (fst (vec3d_marsaglia X wi))
                   (thermal_velocity X u' (molecular_mass X u'))).
Proof.
  intros Hrun.
  destruct (universe_init_chain X fopen fread_input cbrt u u' args w w' Hrun)
    as (inp & u1 & w2 & u2 & w3 & u3 & Hread & Hu1 & Hl1 & Hvals & Hrest).
  exists inp. split; [exact Hread|]. intros Hsmall i ii Hi Hii.
  destruct (Hrest Hsmall) as (Hn & ((Hu2 & Hl2 & _) & _ & Hplaced)
                              & (Hu3 & Hl3 & Hmoved) & Hn3 & Hu' & Hl' & _ & _ & Hset).
  cbn [fst snd] in Hu2, Hl2, Hplaced, Hu', Hl', Hset.
  assert (Hr1 : ref_atom_nb (init_loaded X cbrt u1 args) = in_atom_nb inp)
    by (unfold init_loaded; cbn; rewrite Hu1; reflexivity).
  assert (Hra1 : ref_atom (init_loaded X cbrt u1 args) = ref_atom u1)
    by reflexivity.
  rewrite Hr1 in Hplaced.
  destruct (Hvals ii Hii)
    as (l & r & Hl & Hr & He & Hc & Hep & Hs & _ & _ & Hacc & Hfrc).
  destruct (Hplaced i ii Hi Hii) as (reference & duplicate & Href & Hdup & Hd).
  rewrite Hra1, Hr in Href. injection Href as <-.
  assert (Hdup' : duplicate = atom_init).
  { unfold init_loaded in Hdup. cbn in Hdup.
    apply lookup_replicate in Hdup as [Hdup _]. exact Hdup. }
  subst duplicate.
  destruct (Hmoved _ _ Hd) as (p & Hp).
  assert (Hflat : (i * in_atom_nb inp + ii < atom_nb u3)%nat).
  { rewrite Hn3.
    assert (S i * in_atom_nb inp <= copies args * in_atom_nb inp)%nat
      by (apply Nat.mul_le_mono_r; lia).
    simpl in *. lia. }
  destruct (Hset _ Hflat) as (a0 & Ha0 & Ha).
  rewrite Hp in Ha0. injection Ha0 as <-.
  assert (Hfr : u' = set_atom (init_loaded X cbrt u1 args) (atom u')).
  { rewrite Hu', Hu3, Hu2. reflexivity. }
  assert (Htv : thermal_velocity X u3 (molecular_mass X u3)
                = thermal_velocity X u' (molecular_mass X u')).
  { rewrite Hu'. reflexivity. }
  rewrite Htv in Ha. exists l, r. eexists. eexists.
  split; [exact Hl|]. split; [rewrite Hfr; exact Hr|].
  split; [exact Ha|]. cbn.
  rewrite He, Hc, Hep, Hs, Hacc, Hfrc. repeat split.
Qed.

(** The second atom of the third copy of the dimer. *)
Lemma universe_init_atoms_witness :
  exists st a,
    universe_init Demo.slope_env Demo6.fopen Demo6.fread_input Demo6.cbrt
      Demo6.garbage Demo6.three_copies 0%nat = Ok st /\
    atom (fst st) !! 5%nat = Some a /\
    element a = 1 /\ bond_nb a = 1%nat /\
    acc a = vec3d_zero /\ frc a = vec3d_zero.
Proof.
  eexists.
  assert (Hrun : universe_init Demo.slope_env Demo6.fopen Demo6.fread_input
                   Demo6.cbrt Demo6.garbage Demo6.three_copies 0%nat
                 = Ok (_, _)) by (vm_compute; reflexivity).
  destruct (universe_init_atoms Demo.slope_env Demo6.fopen Demo6.fread_input
              Demo6.cbrt Demo6.garbage _ Demo6.three_copies 0%nat _ Hrun)
    as (inp & Hread & Hres).
  simpl in Hread. injection Hread as <-.
  destruct (Hres ltac:(simpl; lia) 2%nat 1%nat ltac:(simpl; lia) ltac:(simpl; lia))
    as (l & reference & a & wi & Hl & Hr & Ha & He & _ & _ & _ & Hb & Hacc & Hfrc & _).
  simpl in Hl. injection Hl as <-.
  cbn [fst] in Hr. simpl in Hr. injection Hr as <-.
  exists a. split; [exact Hrun|]. split; [exact Ha|].
  split; [exact He|]. split; [exact Hb|]. split; assumption.
Defined.

(** ** One integration step *)

(** X24.  An integration step whose atom routines succeed, over live atoms that
    are all allocated, returns the universe; and a step that returns has
    rewritten atoms and nothing else: the clock, the iteration counter
    and the trajectory are left to [universe_simulate], the atom count
    and the extent of the atom array are kept. *)
Theorem iterate_step_frame {D : Type} {DD : Double D} (X : externals D)
    (u : universe_t D) (args : args_t D) :
  atom_routines_succeed X -> atoms_allocated u ->
  exists u',
    universe_iterate X u args = Ok u' /\
    u' = set_atom u (atom u') /\
    length (atom u') = length (atom u).
Proof.
  intros Hroutines Halloc.
  destruct (universe_iterate_returns X args u Hroutines Halloc)
    as (u' & Hrun & _ & Hlen).
  exists u'. split; [exact Hrun|]. split; [|exact Hlen].
  exact (universe_iterate_frame X args u u' Hrun).
Qed.

Lemma iterate_step_frame_witness :
  exists u',
    universe_iterate Demo.slope_env (set_clock (Demo.gas 2) 1%float 5)
      Demo.twenty_steps = Ok u' /\
    time u' = 1%float /\ iterations u' = 5 /\ output_file u' = [] /\
    length (atom u') = 2%nat.
Proof.
  destruct (iterate_step_frame Demo.slope_env (set_clock (Demo.gas 2) 1%float 5)
              Demo.twenty_steps
              (demo_routines_succeed Demo.zero_heap Demo.all_writes Demo.slope)
              ltac:(unfold atoms_allocated; simpl; lia))
    as (u' & Hrun & Hframe & Hlen).
  exists u'. split; [exact Hrun|]. rewrite Hframe. simpl.
  repeat split. exact Hlen.
Defined.
